(** * weather_etl.py: the fetch / retry / transform / upsert pipeline

    A shallow embedding of [src/weather_etl.py].  Python values that come
    out of [response.json()] are modelled by [json]; exceptions by [exn];
    the methods of [WeatherExtractor] are functions in a state-and-exception
    monad [M] whose state carries the clock, the MySQL session and the
    chronological trace of observable effects (HTTP requests, sleeps, log
    records, SQL statements).

    The two collaborators that the script talks to, the HTTP API and the
    MySQL server, are oracles held in [Env]: what a GET answers, how long
    it takes and whether a statement is refused are inputs of the model,
    never fixed by it. *)

From Stdlib Require Import ZArith List String Ascii Bool Lia QArith Qcanon.
Import ListNotations.
Open Scope string_scope.
Open Scope list_scope.
Open Scope Z_scope.

(* ================================================================== *)
(** ** Exceptions *)

(** The exception classes the script can meet.  A constructor stands for
    the class itself and the subclasses the script does not tell apart
    from it.  The first five are the classes named in the [except] tuple
    of [retry]; [RequestException] stands for the other classes of
    [requests.exceptions] ([InvalidURL], [MissingSchema], ...), none of
    which derives from one of those five. *)
Inductive exn : Type :=
| ConnectTimeout
| HTTPError (status : Z)
| ReadTimeout
| Timeout
| ConnectionError
| RequestException (name : string)
| JSONDecodeError
| KeyError (key : string)
| TypeError
| AttributeError
| MySQLError (msg : string)       (* mysql.connector.Error and subclasses *)
| OtherException (name : string)  (* any other subclass of Exception *)
| KeyboardInterrupt.              (* BaseException outside Exception *)

(** [except (ConnectTimeout, HTTPError, ReadTimeout, Timeout,
    ConnectionError)], line 21. *)
Definition retried (e : exn) : bool :=
  match e with
  | ConnectTimeout | HTTPError _ | ReadTimeout | Timeout | ConnectionError => true
  | _ => false
  end.

(** The transport errors of that tuple: every class but [HTTPError], which
    [raise_for_status] raises for a response that did arrive. *)
Definition transport_error (e : exn) : bool :=
  match e with
  | ConnectTimeout | ReadTimeout | Timeout | ConnectionError => true
  | _ => false
  end.

(** [except mysql.connector.Error], line 112. *)
Definition is_mysql_error (e : exn) : bool :=
  match e with MySQLError _ => true | _ => false end.

(** [except Exception], line 132. *)
Definition is_Exception (e : exn) : bool :=
  match e with KeyboardInterrupt => false | _ => true end.

Inductive result (A : Type) : Type :=
| Ok (a : A)
| Raise (e : exn).
Arguments Ok {A} a.
Arguments Raise {A} e.

(* ================================================================== *)
(** ** Python values decoded from JSON *)

(** Numbers are canonical rationals, so that equal numbers are equal
    terms.  [JObj] lists the items of the decoded [dict]; a key is looked
    up by its first occurrence. *)
#[warnings="-register-all"]
Inductive json : Type :=
| JNull
| JBool (b : bool)
| JNum (q : Qc)
| JStr (s : string)
| JArr (items : list json)
| JObj (members : list (string * json)).

(** [if data:], lines 157 and 168. *)
Definition truthy (v : json) : bool :=
  match v with
  | JNull => false
  | JBool b => b
  | JNum q => negb (Qc_eq_bool q (Q2Qc 0))
  | JStr s => negb (String.eqb s "")
  | JArr l => match l with [] => false | _ => true end
  | JObj m => match m with [] => false | _ => true end
  end.

Fixpoint lookup (k : string) (m : list (string * json)) : option json :=
  match m with
  | [] => None
  | (k', v) :: m' => if String.eqb k k' then Some v else lookup k m'
  end.

(** [v[k]] for a [str] key [k]: a [dict] answers or raises [KeyError];
    lists and strings want integer indices and the other values are not
    subscriptable, both a [TypeError]. *)
Definition getitem (v : json) (k : string) : result json :=
  match v with
  | JObj m => match lookup k m with Some x => Ok x | None => Raise (KeyError k) end
  | _ => Raise TypeError
  end.

(** [v.get(k, default)]: only a [dict] has the method. *)
Definition dict_get (v : json) (k : string) (default : json) : result json :=
  match v with
  | JObj m => match lookup k m with Some x => Ok x | None => Ok default end
  | _ => Raise AttributeError
  end.

(** The items a [for] statement draws from [v]: the elements of a list,
    the keys of a dict, the characters of a string (here its bytes);
    anything else is not iterable. *)
Definition iterate (v : json) : result (list json) :=
  match v with
  | JArr l => Ok l
  | JObj m => Ok (map (fun kv => JStr (fst kv)) m)
  | JStr s => Ok (map (fun c => JStr (String c EmptyString)) (list_ascii_of_string s))
  | _ => Raise TypeError
  end.

Definition upper_ascii (c : ascii) : ascii :=
  let n := nat_of_ascii c in
  if (Nat.leb 97 n && Nat.leb n 122)%bool then ascii_of_nat (n - 32) else c.

(** [mode.upper()], on the ASCII strings the script passes. *)
Fixpoint upper (s : string) : string :=
  match s with
  | EmptyString => EmptyString
  | String c s' => String (upper_ascii c) (upper s')
  end.

(* ================================================================== *)
(** ** The table [weather_records] *)

(** A value held in a column, or bound to a [%s] placeholder. *)
Inductive sqlval : Type :=
| SNull
| SNum (q : Qc)
| SStr (s : string).

(** The connector's conversion of a Python parameter: [None] is NULL, a
    [bool] is 1 or 0, numbers and strings are themselves; a [list] or a
    [dict] has no MySQL type. *)
Definition to_mysql (v : json) : option sqlval :=
  match v with
  | JNull => Some SNull
  | JBool b => Some (SNum (Q2Qc (if b then 1 else 0)))
  | JNum q => Some (SNum q)
  | JStr s => Some (SStr s)
  | JArr _ | JObj _ => None
  end.

(** A row of [weather_records], lines 51-62, and also the eight values an
    INSERT binds.  The surrogate [id] is assigned by the server and is
    neither written nor read by the script; it is left out.  Every column
    is declared without NOT NULL.  A column holds the value that was
    bound: the server's coercion to the column type (DATE, FLOAT,
    VARCHAR(100), collation) is not modelled. *)
Record db_row : Type := {
  date : sqlval;
  location : sqlval;
  country : sqlval;
  min_temp : sqlval;
  max_temp : sqlval;
  humidity : sqlval;
  air_quality : sqlval;
  type : sqlval
}.

Definition sqlval_eqb (a b : sqlval) : bool :=
  match a, b with
  | SNull, SNull => true
  | SNum p, SNum q => Qc_eq_bool p q
  | SStr s, SStr t => String.eqb s t
  | _, _ => false
  end.

(** Equality as a unique index sees it: NULL equals nothing, itself
    included, so an index entry with a NULL part never collides. *)
Definition index_eqb (a b : sqlval) : bool :=
  match a, b with
  | SNull, _ | _, SNull => false
  | _, _ => sqlval_eqb a b
  end.

(** [UNIQUE KEY unique_entry (date, location, type)], line 61, on the
    values as they were bound.  The server compares what the columns make
    of them: a text bound to the DATE column is read as a date, and names
    are compared under the collation of the column, which the script does
    not choose.  Values that are equal as bound are equal to the server;
    the server may also take two different texts for the same date or
    name, and then finds a collision where this test finds none.  The
    properties about which row a write meets are therefore stated for
    rows whose bound values are equal, and the others do not depend on
    which row it is. *)
Definition duplicate_key (p r : db_row) : bool :=
  index_eqb (date p) (date r) && index_eqb (location p) (location r)
  && index_eqb (type p) (type r).

(** The assignments after [ON DUPLICATE KEY UPDATE], lines 91-94:
    [country] is not among them. *)
Definition update_row (r p : db_row) : db_row :=
  {| date := date r; location := location r; country := country r;
     min_temp := min_temp p; max_temp := max_temp p;
     humidity := humidity p; air_quality := air_quality p;
     type := type r |}.

Definition same_mutable (r p : db_row) : bool :=
  sqlval_eqb (min_temp r) (min_temp p) && sqlval_eqb (max_temp r) (max_temp p)
  && sqlval_eqb (humidity r) (humidity p)
  && sqlval_eqb (air_quality r) (air_quality p).

(** The row that collides with [p], if any, is updated in place.  The
    affected-rows count is MySQL's: 2 when the row changed, 0 when it was
    set to the values it already had. *)
Fixpoint on_duplicate_key_update (p : db_row) (t : list db_row)
  : option (list db_row * Z) :=
  match t with
  | [] => None
  | r :: t' =>
      if duplicate_key p r
      then Some (update_row r p :: t', if same_mutable r p then 0 else 2)
      else match on_duplicate_key_update p t' with
           | Some (t'', n) => Some (r :: t'', n)
           | None => None
           end
  end.

(** [INSERT INTO weather_records ... ON DUPLICATE KEY UPDATE ...], lines
    86-95: the new table and the affected-rows count (1 for a new row). *)
Definition insert_on_duplicate (p : db_row) (t : list db_row)
  : list db_row * Z :=
  match on_duplicate_key_update p t with
  | Some res => res
  | None => (t ++ [p], 1)
  end.

(* ================================================================== *)
(** ** The world around the script *)

(** What one [requests.get] meets: an exception raised by the transport,
    or a response with its status code and its body, [None] when the body
    is not JSON. *)
Inductive http_result : Type :=
| GetRaises (e : exn)
| GetResponse (status : Z) (body : option json).

(** The configuration read in [__init__] and the behaviour of the two
    servers.  [http_get n url] is what the [n]-th GET of the run meets
    and [get_seconds n url] how long the script waits for it: line 80
    passes no timeout, so any time may pass.  [execute_fault n p] and
    [commit_fault n] say whether the [n]-th call on the MySQL session
    raises, and what.  [pure_python_cursor] tells which cursor
    implementation the connector loaded. *)
Record Env : Type := {
  api_key : string;
  cities : list string;
  http_get : nat -> string -> http_result;
  get_seconds : nat -> string -> nat;
  execute_fault : nat -> db_row -> option exn;
  commit_fault : nat -> option exn;
  pure_python_cursor : bool
}.

(** What the connector raises for a parameter it cannot convert: the
    pure-Python cursor a [ProgrammingError], which is a
    [mysql.connector.Error]; the C extension its own [MySQLInterfaceError],
    which is not. *)
Definition conversion_error (env : Env) : exn :=
  if pure_python_cursor env
  then MySQLError "Failed processing format-parameters"
  else OtherException "MySQLInterfaceError".

Inductive level : Type := INFO | WARNING | ERROR.

(** The records passed to [logging], one constructor per format string. *)
Inductive log_msg : Type :=
| MsgRetry (attempt : nat) (e : exn) (delay : Z)
| MsgAllRetriesFailed
| MsgExceptionType (e : exn)
| MsgExceptionMessage (e : exn)
| MsgStackTrace (e : exn)
| MsgWrote (loc dt : json) (ty : string)
| MsgUpdated (loc dt : json) (ty : string)
| MsgMySQLError (e : exn)
| MsgExtractError (mode : string) (e : exn)
| MsgFetchingForecast (city : string)
| MsgFetchingHistory (city : string) (history_date : string).

Inductive event : Type :=
| EvGet (url : string)
| EvSleep (secs : Z)
| EvLog (lvl : level) (msg : log_msg)
| EvExecute (p : db_row)
| EvCommit
| EvCursorClose
| EvConnClose.

(** [clock] counts seconds of local time, day [clock / 86400] being the
    proleptic Gregorian ordinal of the current date.  [table] is the table
    as the session sees it, [durable] as of the last commit. *)
Record State : Type := {
  clock : Z;
  gets : nat;
  db_calls : nat;
  table : list db_row;
  durable : list db_row;
  rowcount : Z;
  cursor_open : bool;
  conn_open : bool;
  trace : list event
}.

(* ================================================================== *)
(** ** The monad of the script's methods *)

Definition M (A : Type) : Type := State -> result A * State.

Definition ret {A} (a : A) : M A := fun s => (Ok a, s).

Definition raise {A} (e : exn) : M A := fun s => (Raise e, s).

Definition bind {A B} (m : M A) (k : A -> M B) : M B :=
  fun s => match m s with
           | (Ok a, s1) => k a s1
           | (Raise e, s1) => (Raise e, s1)
           end.

Notation "x <- m ;; k" := (bind m (fun x => k))
  (at level 61, m at next level, right associativity).
Notation "m ;; k" := (bind m (fun _ => k))
  (at level 61, right associativity).

(** A pure Python expression that may raise. *)
Definition eval {A} (r : result A) : M A := fun s => (r, s).

(** [try: m  except <classes> as e: h e]; [h e = None] when no clause
    matches the class of [e]. *)
Definition try_except {A} (m : M A) (h : exn -> option (M A)) : M A :=
  fun s => match m s with
           | (Ok a, s1) => (Ok a, s1)
           | (Raise e, s1) =>
               match h e with
               | Some k => k s1
               | None => (Raise e, s1)
               end
           end.

(** [try: m  finally: f]: [f] runs on both exits; an exception of [f]
    replaces the outcome of [m]. *)
Definition try_finally {A} (m : M A) (f : M unit) : M A :=
  fun s => match m s with
           | (r, s1) =>
               match f s1 with
               | (Ok _, s2) => (r, s2)
               | (Raise e, s2) => (Raise e, s2)
               end
           end.

(** [for x in xs: body x]. *)
Fixpoint for_each {A} (xs : list A) (body : A -> M unit) : M unit :=
  match xs with
  | [] => ret tt
  | x :: xs' => body x ;; for_each xs' body
  end.

(** *** Updates of one component of the state *)

Definition add_event (ev : event) (s : State) : State :=
  {| clock := clock s; gets := gets s; db_calls := db_calls s;
     table := table s; durable := durable s; rowcount := rowcount s;
     cursor_open := cursor_open s; conn_open := conn_open s;
     trace := trace s ++ [ev] |}.

Definition tick (secs : Z) (s : State) : State :=
  {| clock := clock s + secs; gets := gets s; db_calls := db_calls s;
     table := table s; durable := durable s; rowcount := rowcount s;
     cursor_open := cursor_open s; conn_open := conn_open s;
     trace := trace s |}.

Definition count_get (s : State) : State :=
  {| clock := clock s; gets := S (gets s); db_calls := db_calls s;
     table := table s; durable := durable s; rowcount := rowcount s;
     cursor_open := cursor_open s; conn_open := conn_open s;
     trace := trace s |}.

Definition count_db_call (s : State) : State :=
  {| clock := clock s; gets := gets s; db_calls := S (db_calls s);
     table := table s; durable := durable s; rowcount := rowcount s;
     cursor_open := cursor_open s; conn_open := conn_open s;
     trace := trace s |}.

(** The session's view of the table and the affected-rows count after a
    statement. *)
Definition set_table (tn : list db_row * Z) (s : State) : State :=
  {| clock := clock s; gets := gets s; db_calls := db_calls s;
     table := fst tn; durable := durable s; rowcount := snd tn;
     cursor_open := cursor_open s; conn_open := conn_open s;
     trace := trace s |}.

(** Both the session's view and the committed table become [t]. *)
Definition settle (t : list db_row) (s : State) : State :=
  {| clock := clock s; gets := gets s; db_calls := db_calls s;
     table := t; durable := t; rowcount := rowcount s;
     cursor_open := cursor_open s; conn_open := conn_open s;
     trace := trace s |}.

Definition set_open (cur con : bool) (s : State) : State :=
  {| clock := clock s; gets := gets s; db_calls := db_calls s;
     table := table s; durable := durable s; rowcount := rowcount s;
     cursor_open := cur; conn_open := con;
     trace := trace s |}.

(** *** Primitive effects *)

Definition emit (ev : event) : M unit := fun s => (Ok tt, add_event ev s).

Definition log (lvl : level) (msg : log_msg) : M unit := emit (EvLog lvl msg).

(** [time.sleep(secs)] blocks: the clock moves on by [secs]. *)
Definition sleep (secs : Z) : M unit :=
  fun s => (Ok tt, add_event (EvSleep secs) (tick secs s)).

(* ================================================================== *)
(** ** RetryingFetcher: [retry] and [fetch_data] *)

Record response : Type := {
  status_code : Z;
  body : option json
}.

(** The state one GET leaves: the time it took has passed, and it is
    counted and recorded. *)
Definition after_get (env : Env) (url : string) (s : State) : State :=
  add_event (EvGet url)
    (count_get (tick (Z.of_nat (get_seconds env (gets s) url)) s)).

(** [requests.get(url)], line 80: the next answer of the HTTP oracle,
    after the time it takes to come. *)
Definition requests_get (env : Env) (url : string) : M response :=
  fun s =>
    let s1 := after_get env url s in
    match http_get env (gets s) url with
    | GetRaises e => (Raise e, s1)
    | GetResponse st b => (Ok {| status_code := st; body := b |}, s1)
    end.

(** [response.raise_for_status()], line 81: requests raises [HTTPError]
    for the client and server error codes 400..599. *)
Definition raise_for_status (r : response) : M unit :=
  if (400 <=? status_code r) && (status_code r <? 600)
  then raise (HTTPError (status_code r))
  else ret tt.

(** [response.json()], line 82. *)
Definition response_json (r : response) : M json :=
  match body r with
  | Some v => ret v
  | None => raise JSONDecodeError
  end.

(** The body of [fetch_data], lines 80-82, before decoration. *)
Definition fetch_data_body (env : Env) (url : string) : M json :=
  r <- requests_get env url ;;
  raise_for_status r ;;
  response_json r.

(** The loop of [wrapper], lines 18-28.  [attempts] is what is left of
    [range(1, 4)].  A value returned by [func] leaves the loop at once; an
    exception of the [except] tuple is logged, slept on and the delay
    doubled; any other exception leaves [wrapper].  After the loop
    [wrapper] returns [None], which is the value [JNull]. *)
Fixpoint wrapper_loop (func : M json) (attempts : list nat) (delay : Z)
  : M json :=
  match attempts with
  | [] => log ERROR MsgAllRetriesFailed ;; ret JNull
  | attempt :: rest =>
      try_except func
        (fun e =>
           if retried e
           then Some (log WARNING (MsgRetry attempt e delay) ;;
                      sleep delay ;;
                      wrapper_loop func rest (delay * 2))
           else None)
  end.

(** [retry], lines 15-29. *)
Definition retry {A} (func : A -> M json) : A -> M json :=
  fun args => wrapper_loop (func args) [1; 2; 3]%nat 2.

(** [fetch_data], lines 78-82. *)
Definition fetch_data (env : Env) : string -> M json :=
  retry (fetch_data_body env).

(* ================================================================== *)
(** ** UpsertWriter: [insert_record] *)

(** The dict [row] built in [extract_and_write], lines 121-130. *)
Record row : Type := {
  Date : json;
  Location : json;
  Country : json;
  Min_Temp : json;
  Max_Temp : json;
  Humidity : json;
  Air_Quality : json;
  Type_ : string
}.

(** The parameter tuple of lines 96-105, converted for the server. *)
Definition bind_params (r : row) : option db_row :=
  match to_mysql (Date r), to_mysql (Location r), to_mysql (Country r),
        to_mysql (Min_Temp r), to_mysql (Max_Temp r), to_mysql (Humidity r),
        to_mysql (Air_Quality r) with
  | Some d, Some l, Some c, Some mn, Some mx, Some h, Some a =>
      Some {| date := d; location := l; country := c; min_temp := mn;
              max_temp := mx; humidity := h; air_quality := a;
              type := SStr (Type_ r) |}
  | _, _, _, _, _, _, _ => None
  end.

(** [self.cursor.execute(query, params)], line 96.  A parameter without a
    MySQL type fails in the connector, before anything is sent; a
    statement the server refuses changes nothing. *)
Definition cursor_execute (env : Env) (r : row) : M unit :=
  fun s =>
    match bind_params r with
    | None => (Raise (conversion_error env), s)
    | Some p =>
        let s1 := add_event (EvExecute p) (count_db_call s) in
        match execute_fault env (db_calls s) p with
        | Some e => (Raise e, s1)
        | None => (Ok tt, set_table (insert_on_duplicate p (table s)) s1)
        end
    end.

(** [self.conn.commit()], line 106. *)
Definition conn_commit (env : Env) : M unit :=
  fun s =>
    let s1 := add_event EvCommit (count_db_call s) in
    match commit_fault env (db_calls s) with
    | Some e => (Raise e, s1)
    | None => (Ok tt, settle (table s) s1)
    end.

(** [self.cursor.rowcount], line 108. *)
Definition cursor_rowcount : M Z := fun s => (Ok (rowcount s), s).

(** [exception_handling], lines 67-76: three error records. *)
Definition exception_handling (e : exn) : M unit :=
  log ERROR (MsgExceptionType e) ;;
  log ERROR (MsgExceptionMessage e) ;;
  log ERROR (MsgStackTrace e).

(** [insert_record], lines 84-114. *)
Definition insert_record (env : Env) (r : row) : M unit :=
  try_except
    (cursor_execute env r ;;
     conn_commit env ;;
     n <- cursor_rowcount ;;
     if n =? 1
     then log INFO (MsgWrote (Location r) (Date r) (Type_ r))
     else log INFO (MsgUpdated (Location r) (Date r) (Type_ r)))
    (fun err =>
       if is_mysql_error err
       then Some (log ERROR (MsgMySQLError err) ;; exception_handling err)
       else None).

(* ================================================================== *)
(** ** RecordTransformer: [extract_and_write] *)

Definition and_then {A B} (r : result A) (k : A -> result B) : result B :=
  match r with
  | Ok a => k a
  | Raise e => Raise e
  end.

Notation "'let?' x ':=' r 'in' k" := (and_then r (fun x => k))
  (at level 10, x name, r at level 100, k at level 200).

(** Lines 120-130: the row of one element [day_data] of the day list.  The
    entries of the dict display are evaluated in the order written. *)
Definition build_row (data : json) (mode : string) (day_data : json)
  : result row :=
  let? day := getitem day_data "day" in
  let? d := getitem day_data "date" in
  let? loc1 := getitem data "location" in
  let? name := getitem loc1 "name" in
  let? loc2 := getitem data "location" in
  let? ctry := getitem loc2 "country" in
  let? mn := getitem day "mintemp_c" in
  let? mx := getitem day "maxtemp_c" in
  let? hum := getitem day "avghumidity" in
  let? cur := dict_get data "current" (JObj []) in
  let? aq := dict_get cur "air_quality" (JObj []) in
  let? co := dict_get aq "co" (JStr "N/A") in
  Ok {| Date := d; Location := name; Country := ctry; Min_Temp := mn;
        Max_Temp := mx; Humidity := hum; Air_Quality := co;
        Type_ := upper mode |}.

(** Line 118: [data['forecast']['forecastday']]. *)
Definition forecast_days_of (data : json) : result json :=
  let? f := getitem data "forecast" in
  getitem f "forecastday".

(** [extract_and_write], lines 116-134. *)
Definition extract_and_write (env : Env) (data : json) (mode : string)
  : M unit :=
  try_except
    (forecast_days <- eval (forecast_days_of data) ;;
     days <- eval (iterate forecast_days) ;;
     for_each days
       (fun day_data =>
          r <- eval (build_row data mode day_data) ;;
          insert_record env r))
    (fun e =>
       if is_Exception e
       then Some (log ERROR (MsgExtractError mode e) ;; exception_handling e)
       else None).

(* ================================================================== *)
(** ** UrlBuilder *)

Definition BASE_WEATHER_API_URL : string := "http://api.weatherapi.com/v1/".

Definition hex_digit (n : nat) : ascii :=
  nth n (list_ascii_of_string "0123456789ABCDEF") "0"%char.

(** The characters [urllib.parse.quote] never escapes. *)
Definition always_safe (c : ascii) : bool :=
  let n := nat_of_ascii c in
  ((Nat.leb 48 n && Nat.leb n 57) || (Nat.leb 65 n && Nat.leb n 90)
   || (Nat.leb 97 n && Nat.leb n 122)
   || Nat.eqb n 95 || Nat.eqb n 46 || Nat.eqb n 45 || Nat.eqb n 126)%bool.

(** [urllib.parse.quote_plus], applied by [urlencode] to every key and
    value: a space becomes [+], any other unsafe byte [%XX]. *)
Fixpoint quote_plus (s : string) : string :=
  match s with
  | EmptyString => EmptyString
  | String c s' =>
      if always_safe c then String c (quote_plus s')
      else if Nat.eqb (nat_of_ascii c) 32 then String "+"%char (quote_plus s')
      else String "%"%char
             (String (hex_digit (Nat.div (nat_of_ascii c) 16))
                (String (hex_digit (Nat.modulo (nat_of_ascii c) 16))
                   (quote_plus s')))
  end.

(** [parse.urlencode(params)] for a dict of string values, in order. *)
Fixpoint urlencode (params : list (string * string)) : string :=
  match params with
  | [] => ""
  | [(k, v)] => (quote_plus k ++ "=" ++ quote_plus v)%string
  | (k, v) :: rest =>
      (quote_plus k ++ "=" ++ quote_plus v ++ "&" ++ urlencode rest)%string
  end.

(** [build_forecast_url], lines 136-143. *)
Definition build_forecast_url (env : Env) (city : string) : string :=
  let params := [("q", city); ("days", "3"); ("aqi", "yes"); ("alerts", "no")] in
  (BASE_WEATHER_API_URL ++ "forecast.json?key=" ++ api_key env ++ "&"
   ++ urlencode params)%string.

(** [build_history_url], lines 145-150. *)
Definition build_history_url (env : Env) (city date_str : string) : string :=
  let params := [("q", city); ("dt", date_str)] in
  (BASE_WEATHER_API_URL ++ "history.json?key=" ++ api_key env ++ "&"
   ++ urlencode params)%string.

(* ================================================================== *)
(** ** Calendar dates *)

(** A [datetime.date] is its proleptic Gregorian ordinal, day 1 being
    0001-01-01; subtracting a [timedelta] of [i] days subtracts [i]. *)

Definition is_leap (y : Z) : bool :=
  (y mod 4 =? 0) && (negb (y mod 100 =? 0) || (y mod 400 =? 0)).

Definition days_before_year (y : Z) : Z :=
  let p := y - 1 in p * 365 + p / 4 - p / 100 + p / 400.

Definition days_in_month (y m : Z) : Z :=
  if m =? 2 then (if is_leap y then 29 else 28)
  else if (m =? 4) || (m =? 6) || (m =? 9) || (m =? 11) then 30
  else 31.

Definition days_before_month (y m : Z) : Z :=
  fold_left (fun acc k => acc + days_in_month y (Z.of_nat k))
            (seq 1 (Z.to_nat (m - 1))) 0.

(** [date(y, m, d).toordinal()]. *)
Definition ymd2ord (y m d : Z) : Z :=
  days_before_year y + days_before_month y m + d.

(** The month and day of the [n]-th day (from 0) of year [y]: months are
    peeled off from January on. *)
Fixpoint month_day (y : Z) (months : list Z) (n : Z) : Z * Z :=
  match months with
  | [] => (12, n + 1)
  | m :: rest =>
      if n <? days_in_month y m then (m, n + 1)
      else month_day y rest (n - days_in_month y m)
  end.

(** [date.fromordinal(n)] as year, month, day; the year is found as in
    CPython's [_ord2ymd], through the 400-, 100-, 4- and 1-year cycles. *)
Definition ord2ymd (n : Z) : Z * Z * Z :=
  let n0 := n - 1 in
  let n400 := n0 / 146097 in
  let r400 := n0 mod 146097 in
  let n100 := r400 / 36524 in
  let r100 := r400 mod 36524 in
  let n4 := r100 / 1461 in
  let r4 := r100 mod 1461 in
  let n1 := r4 / 365 in
  let r1 := r4 mod 365 in
  let y := n400 * 400 + 1 + n100 * 100 + n4 * 4 + n1 in
  if (n1 =? 4) || (n100 =? 4) then (y - 1, 12, 31)
  else let '(m, d) := month_day y [1; 2; 3; 4; 5; 6; 7; 8; 9; 10; 11] r1 in
       (y, m, d).

Definition digit (n : Z) : ascii := ascii_of_nat (48 + Z.to_nat (n mod 10)).

(** [strftime('%Y-%m-%d')] of the date of ordinal [n], for the years
    1000 to 9999, where the text has four digits for the year on every
    platform; the properties that read this text assume
    [four_digit_years]. *)
Definition strftime_Ymd (n : Z) : string :=
  let '(y, m, d) := ord2ymd n in
  String (digit (y / 1000)) (String (digit (y / 100)) (String (digit (y / 10))
    (String (digit y) (String "-"%char (String (digit (m / 10))
      (String (digit m) (String "-"%char (String (digit (d / 10))
        (String (digit d) EmptyString))))))))).

(** [datetime.date.today()], line 161. *)
Definition date_today : M Z := fun s => (Ok (clock s / 86400), s).

(* ================================================================== *)
(** ** EtlOrchestrator *)

(** [run_forecast_etl], lines 152-158. *)
Definition run_forecast_etl (env : Env) : M unit :=
  for_each (cities env)
    (fun city =>
       let url := build_forecast_url env city in
       log INFO (MsgFetchingForecast city) ;;
       data <- fetch_data env url ;;
       if truthy data then extract_and_write env data "forecast" else ret tt).

(** [run_history_etl], lines 160-169; [range(1, 4)] is 1, 2, 3. *)
Definition run_history_etl (env : Env) : M unit :=
  today <- date_today ;;
  for_each [1; 2; 3]
    (fun i =>
       let history_date := strftime_Ymd (today - i) in
       for_each (cities env)
         (fun city =>
            let url := build_history_url env city history_date in
            log INFO (MsgFetchingHistory city history_date) ;;
            data <- fetch_data env url ;;
            if truthy data then extract_and_write env data "history"
            else ret tt)).

(** [self.cursor.close()], line 172. *)
Definition cursor_close : M unit :=
  fun s => (Ok tt, add_event EvCursorClose (set_open false (conn_open s) s)).

(** [self.conn.close()], line 173: what the session had not committed is
    dropped with it. *)
Definition conn_close : M unit :=
  fun s => (Ok tt,
            add_event EvConnClose
              (set_open (cursor_open s) false (settle (durable s) s))).

(** [close_connection], lines 171-173. *)
Definition close_connection : M unit :=
  cursor_close ;; conn_close.

(** [start], lines 175-180. *)
Definition start (env : Env) : M unit :=
  try_finally (run_forecast_etl env ;; run_history_etl env) close_connection.

(** The state [__init__] leaves, lines 44-46: session open, nothing
    pending, nothing done yet; [t] is what the table already holds. *)
Definition initial_state (now : Z) (t : list db_row) : State :=
  {| clock := now; gets := 0; db_calls := 0; table := t; durable := t;
     rowcount := 0; cursor_open := true; conn_open := true; trace := [] |}.

(* ================================================================== *)
(** ** Reading a trace *)

(** The URLs of the GET requests, in order. *)
Fixpoint requested (evs : list event) : list string :=
  match evs with
  | [] => []
  | EvGet u :: evs' => u :: requested evs'
  | _ :: evs' => requested evs'
  end.

(** The blocking delays, in order. *)
Fixpoint sleeps (evs : list event) : list Z :=
  match evs with
  | [] => []
  | EvSleep d :: evs' => d :: sleeps evs'
  | _ :: evs' => sleeps evs'
  end.

(** The calls on the MySQL session, in order. *)
Fixpoint db_events (evs : list event) : list event :=
  match evs with
  | [] => []
  | EvExecute p :: evs' => EvExecute p :: db_events evs'
  | EvCommit :: evs' => EvCommit :: db_events evs'
  | _ :: evs' => db_events evs'
  end.

(** The (city, date) units announced by the history pass, in order. *)
Fixpoint history_units (evs : list event) : list (string * string) :=
  match evs with
  | [] => []
  | EvLog _ (MsgFetchingHistory c d) :: evs' => (c, d) :: history_units evs'
  | _ :: evs' => history_units evs'
  end.

(** The error records of a failed transform. *)
Fixpoint extract_errors (evs : list event) : list exn :=
  match evs with
  | [] => []
  | EvLog ERROR (MsgExtractError _ e) :: evs' => e :: extract_errors evs'
  | _ :: evs' => extract_errors evs'
  end.

(* ================================================================== *)
(** ** Worlds *)

(** What one attempt of [fetch_data] makes of the answer to its GET. *)
Definition attempt_outcome (h : http_result) : result json :=
  match h with
  | GetRaises e => Raise e
  | GetResponse st b =>
      if (400 <=? st) && (st <? 600) then Raise (HTTPError st)
      else match b with
           | Some v => Ok v
           | None => Raise JSONDecodeError
           end
  end.

(** Every GET of [url] is answered with the payload [data]. *)
Definition answers (env : Env) (url : string) (data : json) : Prop :=
  forall n, attempt_outcome (http_get env n url) = Ok data.

(** No GET of [url] ends in an exception outside the [except] tuple of
    [retry]: each attempt yields a payload or is retried. *)
Definition never_propagates (env : Env) (url : string) : Prop :=
  forall n e, attempt_outcome (http_get env n url) = Raise e -> retried e = true.

(** The MySQL server accepts every statement and every commit. *)
Definition store_available (env : Env) : Prop :=
  (forall n p, execute_fault env n p = None) /\
  (forall n, commit_fault env n = None).

(* ================================================================== *)
(** ** Keys and the unique index *)

(** The triple the unique index is declared on. *)
Definition key (r : db_row) : sqlval * sqlval * sqlval :=
  (date r, location r, type r).

(** SQL's [IS NULL]. *)
Definition is_null (v : sqlval) : bool :=
  match v with SNull => true | _ => false end.

(** No part of the key is NULL. *)
Definition null_free (r : db_row) : bool :=
  negb (is_null (date r)) && negb (is_null (location r))
  && negb (is_null (type r)).

(** The rows with the triple of [p], compared as plain values. *)
Definition key_eqb (q p : db_row) : bool :=
  sqlval_eqb (date q) (date p) && sqlval_eqb (location q) (location p)
  && sqlval_eqb (type q) (type p).

(** The constraint [unique_entry] holds of a table: no row collides with
    a later one. *)
Inductive unique_index : list db_row -> Prop :=
| unique_nil : unique_index []
| unique_cons r t :
    Forall (fun q => duplicate_key r q = false) t ->
    unique_index t ->
    unique_index (r :: t).

(** The constraint holds of the session's view and of what is committed. *)
Definition unique_store (s : State) : Prop :=
  unique_index (table s) /\ unique_index (durable s).

(** Two rows at different places never carry the same triple. *)
Definition no_shared_key (t : list db_row) : Prop :=
  forall i j ri rj,
    nth_error t i = Some ri -> nth_error t j = Some rj -> i <> j ->
    key ri <> key rj.

(** The same, for the rows whose key has no NULL part. *)
Definition no_shared_null_free_key (t : list db_row) : Prop :=
  forall i j ri rj,
    nth_error t i = Some ri -> nth_error t j = Some rj -> i <> j ->
    null_free ri = true ->
    key ri <> key rj.

(** The statements of [ps] applied in order. *)
Definition upsert_all (ps : list db_row) (t : list db_row) : list db_row :=
  fold_left (fun acc p => fst (insert_on_duplicate p acc)) ps t.

(** The states the pipeline's writes lead to: from an empty table, by
    any call of [insert_record], by a whole run, and by opening a new
    session on what has been committed. *)
Inductive reachable (env : Env) : State -> Prop :=
| reachable_init now : reachable env (initial_state now [])
| reachable_write s r :
    reachable env s -> reachable env (snd (insert_record env r s))
| reachable_run s :
    reachable env s -> reachable env (snd (start env s))
| reachable_session s now :
    reachable env s -> reachable env (initial_state now (durable s)).

(* ================================================================== *)
(** ** Steps of the pipeline, as state transformers *)

(** The state [insert_record] leaves when the statement for [p] and the
    commit both go through: the statement, the commit, and the info
    record chosen by the affected-rows count. *)
Definition after_write (r : row) (p : db_row) (s : State) : State :=
  let tn := insert_on_duplicate p (table s) in
  add_event
    (EvLog INFO (if snd tn =? 1
                 then MsgWrote (Location r) (Date r) (Type_ r)
                 else MsgUpdated (Location r) (Date r) (Type_ r)))
    (settle (fst tn)
       (add_event EvCommit
          (count_db_call
             (set_table tn (add_event (EvExecute p) (count_db_call s)))))).

(** The state a run of writes leaves, each as in [after_write]. *)
Definition after_writes (rps : list (row * db_row)) (s : State) : State :=
  fold_left (fun acc rp => after_write (fst rp) (snd rp) acc) rps s.

(** The state the [except] clause of [extract_and_write] leaves: the
    error record of line 133 and the three of [exception_handling]. *)
Definition after_extract_error (mode : string) (e : exn) (s : State) : State :=
  add_event (EvLog ERROR (MsgStackTrace e))
    (add_event (EvLog ERROR (MsgExceptionMessage e))
       (add_event (EvLog ERROR (MsgExceptionType e))
          (add_event (EvLog ERROR (MsgExtractError mode e)) s))).

(** The body of the loop of [extract_and_write], lines 120-131. *)
Definition write_day (env : Env) (data : json) (mode : string)
  (day_data : json) : M unit :=
  r <- eval (build_row data mode day_data) ;;
  insert_record env r.

(** One unit of work of either pass: lines 155-158 and 166-169. *)
Definition unit_step (env : Env) (msg : log_msg) (url mode : string) : M unit :=
  log INFO msg ;;
  data <- fetch_data env url ;;
  if truthy data then extract_and_write env data mode else ret tt.

(* ================================================================== *)
(** ** Hoare triples *)

(** Hoare triples over [M]: from a state in [P], [m] ends with a result
    and a state in [Q]. *)
Definition hoare {A} (P : State -> Prop) (m : M A)
  (Q : result A -> State -> Prop) : Prop :=
  forall s, P s -> Q (fst (m s)) (snd (m s)).

(** A property of the state that no step of [m] can break. *)
Definition stable {A} (I : State -> Prop) (m : M A) : Prop :=
  hoare I m (fun _ s => I s).

(* ================================================================== *)
(** ** Vocabulary of the properties *)

(** Since [s0] no request was sent and no history unit announced. *)
Definition quiet_since (s0 s : State) : Prop :=
  exists evs,
    trace s = trace s0 ++ evs /\ requested evs = [] /\ history_units evs = [].

(** What [m] adds to the trace.  The history units it announces are the
    first of [us], in that order, and all of them when [m] returns; the
    URLs it requests are among [urls], and all of them when [m] returns. *)
Definition announces {A} (m : M A) (us : list (string * string))
  (urls : list string) : Prop :=
  forall s,
    exists evs,
      trace (snd (m s)) = trace s ++ evs /\
      (exists rest, us = history_units evs ++ rest) /\
      (forall u, In u (requested evs) -> In u urls) /\
      (forall a, fst (m s) = Ok a ->
         history_units evs = us /\
         forall u, In u urls -> In u (requested evs)).

(** Every day of the payload yields a row, and every row converts; [ps]
    are the parameter tuples, in the order of the days. *)
Definition well_formed (data : json) (mode : string) (ps : list db_row) : Prop :=
  exists fd days rs,
    forecast_days_of data = Ok fd /\
    iterate fd = Ok days /\
    Forall2 (fun d r => build_row data mode d = Ok r) days rs /\
    Forall2 (fun r p => bind_params r = Some p) rs ps.

(** The committed table holds a row for the key of each of [ps]. *)
Definition stores (ps : list db_row) (s : State) : Prop :=
  forall p, In p ps -> In (key p) (map key (durable s)).

(** Nothing is pending, and the keys of [t0] are still in the table. *)
Definition kept (t0 : list db_row) (s : State) : Prop :=
  durable s = table s /\ incl (map key t0) (map key (table s)).

(** [m] returns normally, leaves nothing pending, drops no key, and
    stores the records it is [good] for. *)
Definition isolated (m : M unit) (good : list db_row -> Prop) : Prop :=
  forall s,
    durable s = table s ->
    exists s',
      m s = (Ok tt, s') /\
      kept (table s) s' /\
      forall ps, good ps -> stores ps s'.

(** The records a unit is expected to store: those of the well-formed
    payload its URL is answered with, if it is. *)
Definition good_unit (env : Env) (url mode : string) (ps : list db_row) : Prop :=
  exists data, answers env url data /\ well_formed data mode ps.

(* ================================================================== *)
(** ** Sample worlds and data *)

(** A world whose store accepts everything, with the locations [ks] and
    the HTTP oracle [h]. *)
Definition quiet_env (ks : list string) (h : nat -> string -> http_result)
  : Env :=
  {| api_key := "KEY"; cities := ks; http_get := h;
     get_seconds := fun _ _ => 1%nat;
     execute_fault := fun _ _ => None; commit_fault := fun _ => None;
     pure_python_cursor := true |}.

(** Every GET times out. *)
Definition env_timeout : Env := quiet_env ["Paris"] (fun _ _ => GetRaises Timeout).

(** Every GET is answered 404. *)
Definition env_404 : Env :=
  quiet_env ["Paris"] (fun _ _ => GetResponse 404 None).

(** The same world, named for what matters when only the store is
    used: it accepts every statement. *)
Definition env_quiet : Env := env_timeout.

Definition env_two_cities_timeout : Env :=
  quiet_env ["Paris"; "Lyon"] (fun _ _ => GetRaises Timeout).

(** Ten seconds before midnight on 2024-05-10. *)
Definition late_on_2024_05_10 : Z := ymd2ord 2024 5 10 * 86400 + 86390.

(** A record with a NULL date, as a payload day with ["date": null]
    yields it. *)
Definition row_null_date : row :=
  {| Date := JNull; Location := JStr "Paris"; Country := JStr "France";
     Min_Temp := JNum (Q2Qc 11); Max_Temp := JNum (Q2Qc 20);
     Humidity := JNum (Q2Qc 60); Air_Quality := JStr "N/A";
     Type_ := "FORECAST" |}.

(** Its parameter tuple. *)
Definition params_null_date : db_row :=
  {| date := SNull; location := SStr "Paris"; country := SStr "France";
     min_temp := SNum (Q2Qc 11); max_temp := SNum (Q2Qc 20);
     humidity := SNum (Q2Qc 60); air_quality := SStr "N/A";
     type := SStr "FORECAST" |}.

(** A stored row with a NULL date, and a record for the same triple. *)
Definition stored_null_date : db_row := params_null_date.

Definition row_null_date_again : row :=
  {| Date := JNull; Location := JStr "Paris"; Country := JStr "FR";
     Min_Temp := JNum (Q2Qc 12); Max_Temp := JNum (Q2Qc 23);
     Humidity := JNum (Q2Qc 55); Air_Quality := JStr "N/A";
     Type_ := "FORECAST" |}.

Definition params_null_date_again : db_row :=
  {| date := SNull; location := SStr "Paris"; country := SStr "FR";
     min_temp := SNum (Q2Qc 12); max_temp := SNum (Q2Qc 23);
     humidity := SNum (Q2Qc 55); air_quality := SStr "N/A";
     type := SStr "FORECAST" |}.

(** A day block whose date is null, the payload that carries it, and a
    world that answers the forecast of Paris with that payload. *)
Definition null_date_block : json :=
  JObj [("date", JNull);
        ("day", JObj [("mintemp_c", JNum (Q2Qc 11));
                      ("maxtemp_c", JNum (Q2Qc 20));
                      ("avghumidity", JNum (Q2Qc 60))])].

Definition payload_null_date : json :=
  JObj [("location", JObj [("name", JStr "Paris"); ("country", JStr "France")]);
        ("forecast", JObj [("forecastday", JArr [null_date_block])])].

(** The rows of the conflict-merge example: Paris on 2024-05-01, stored
    with a maximum of 20, written again with a maximum of 23. *)
Definition paris_stored : db_row :=
  {| date := SStr "2024-05-01"; location := SStr "Paris";
     country := SStr "France";
     min_temp := SNum (Q2Qc 11); max_temp := SNum (Q2Qc 20);
     humidity := SNum (Q2Qc 60); air_quality := SStr "N/A";
     type := SStr "FORECAST" |}.

Definition paris_again : row :=
  {| Date := JStr "2024-05-01"; Location := JStr "Paris";
     Country := JStr "FR";
     Min_Temp := JNum (Q2Qc 12); Max_Temp := JNum (Q2Qc 23);
     Humidity := JNum (Q2Qc 55); Air_Quality := JNum (Q2Qc (2303 # 10));
     Type_ := "FORECAST" |}.

Definition paris_again_params : db_row :=
  {| date := SStr "2024-05-01"; location := SStr "Paris";
     country := SStr "FR";
     min_temp := SNum (Q2Qc 12); max_temp := SNum (Q2Qc 23);
     humidity := SNum (Q2Qc 55); air_quality := SNum (Q2Qc (2303 # 10));
     type := SStr "FORECAST" |}.

(** A well-formed day block. *)
Definition day_block (d : string) (mn mx : Z) : json :=
  JObj [("date", JStr d);
        ("day", JObj [("mintemp_c", JNum (Q2Qc (inject_Z mn)));
                      ("maxtemp_c", JNum (Q2Qc (inject_Z mx)));
                      ("avghumidity", JNum (Q2Qc 60))])].

(** A payload with a location block and the day list [days]; it has no
    [current] block. *)
Definition payload_of (city : string) (days : list json) : json :=
  JObj [("location", JObj [("name", JStr city); ("country", JStr "France")]);
        ("forecast", JObj [("forecastday", JArr days)])].

(** No location block, and an empty day list. *)
Definition payload_no_location_no_days : json :=
  JObj [("forecast", JObj [("forecastday", JArr [])])].

(** No location block, and one day. *)
Definition payload_no_location : json :=
  JObj [("forecast", JObj [("forecastday", JArr [day_block "2024-05-01" 11 20])])].

(** No day list. *)
Definition payload_no_day_list : json :=
  JObj [("location", JObj [("name", JStr "Paris"); ("country", JStr "France")])].

(** A day block without its [day] member. *)
Definition bad_day : json := JObj [("date", JStr "2024-05-03")].

(** Sample days, rows and parameter tuples. *)
Definition day_row (city d : string) (mn mx : Z) (ty : string) : row :=
  {| Date := JStr d; Location := JStr city; Country := JStr "France";
     Min_Temp := JNum (Q2Qc (inject_Z mn)); Max_Temp := JNum (Q2Qc (inject_Z mx));
     Humidity := JNum (Q2Qc 60); Air_Quality := JStr "N/A"; Type_ := ty |}.

Definition day_params (city d : string) (mn mx : Z) (ty : string) : db_row :=
  {| date := SStr d; location := SStr city; country := SStr "France";
     min_temp := SNum (Q2Qc (inject_Z mn)); max_temp := SNum (Q2Qc (inject_Z mx));
     humidity := SNum (Q2Qc 60); air_quality := SStr "N/A"; type := SStr ty |}.

(** Two well-formed days, a day block without its [day] member, and one
    more well-formed day. *)
Definition payload_bad_third : json :=
  payload_of "Paris"
    [day_block "2024-05-01" 11 20; day_block "2024-05-02" 12 21; bad_day;
     day_block "2024-05-04" 13 22].

(** An HTTP oracle given by a table from URLs to answers; any other URL
    times out. *)
Definition serve (answers_of : list (string * http_result))
  : nat -> string -> http_result :=
  fun _ u =>
    match find (fun kv => String.eqb (fst kv) u) answers_of with
    | Some kv => snd kv
    | None => GetRaises Timeout
    end.

Definition paris_payload : json :=
  payload_of "Paris" [day_block "2024-05-11" 11 20].

Definition lyon_payload : json :=
  payload_of "Lyon" [day_block "2024-05-11" 12 22].

(** The forecast URL of [city] under the key of the sample worlds. *)
Definition forecast_url_of (city : string) : string :=
  build_forecast_url (quiet_env [] (fun _ _ => GetRaises Timeout)) city.

(** One location, whose forecast is answered with the null-date payload. *)
Definition env_null_date : Env :=
  quiet_env ["Paris"]
    (serve [(forecast_url_of "Paris", GetResponse 200 (Some payload_null_date))]).

(** Three locations; the forecast of the second is never answered. *)
Definition env_second_times_out : Env :=
  quiet_env ["Paris"; "Atlantis"; "Lyon"]
    (serve [(forecast_url_of "Paris", GetResponse 200 (Some paris_payload));
            (forecast_url_of "Lyon", GetResponse 200 (Some lyon_payload))]).

(** Three locations; the forecast of the second is answered 200 with a
    body that is not JSON. *)
Definition env_second_not_json : Env :=
  quiet_env ["Paris"; "Atlantis"; "Lyon"]
    (serve [(forecast_url_of "Paris", GetResponse 200 (Some paris_payload));
            (forecast_url_of "Atlantis", GetResponse 200 None);
            (forecast_url_of "Lyon", GetResponse 200 (Some lyon_payload))]).

(* ================================================================== *)
(** ** Counting on a trace *)

(** The parameter tuples of the statements sent, in order. *)
Fixpoint executed (evs : list event) : list db_row :=
  match evs with
  | [] => []
  | EvExecute p :: evs' => p :: executed evs'
  | _ :: evs' => executed evs'
  end.

(** The sum of the weights [w] of the events of a trace. *)
Definition total (w : event -> Z) (evs : list event) : Z :=
  fold_right (fun ev acc => w ev + acc) 0 evs.

(** One for a GET, nothing for anything else. *)
Definition get_weight (ev : event) : Z :=
  match ev with EvGet _ => 1 | _ => 0 end.

(** The seconds of a sleep, nothing for anything else. *)
Definition sleep_weight (ev : event) : Z :=
  match ev with EvSleep d => d | _ => 0 end.

(** The seconds the [n] GETs of [url] from the [k]-th of the run on
    take. *)
Fixpoint waited (env : Env) (url : string) (k n : nat) : Z :=
  match n with
  | O => 0
  | S n' => Z.of_nat (get_seconds env k url) + waited env url (S k) n'
  end.

(** [m] adds at most [k] to the total weight of the trace. *)
Definition costs (w : event -> Z) (k : Z) {A} (m : M A) : Prop :=
  forall s, total w (trace (snd (m s))) <= total w (trace s) + k.

(** A world whose second GET answers with a payload and whose first times
    out; one whose second GET answers with a body that is not JSON. *)
Definition env_second_attempt_answers : Env :=
  quiet_env ["Paris"]
    (fun n _ => match n with
                | O => GetRaises Timeout
                | _ => GetResponse 200 (Some paris_payload)
                end).

Definition env_second_attempt_not_json : Env :=
  quiet_env ["Paris"]
    (fun n _ => match n with
                | O => GetRaises Timeout
                | _ => GetResponse 200 None
                end).

(* ================================================================== *)
(** ** More about the store *)

(** What no write of the script assigns: the key and the country. *)
Definition identity (q : db_row) : sqlval * sqlval * sqlval * sqlval :=
  (key q, country q).

(** Whatever the session raises is a [mysql.connector.Error]. *)
Definition mysql_faults_only (env : Env) : Prop :=
  (forall n p e, execute_fault env n p = Some e -> is_mysql_error e = true) /\
  (forall n e, commit_fault env n = Some e -> is_mysql_error e = true).

(** The values of [ENUM('FORECAST', 'HISTORY')], line 60. *)
Definition in_enum (q : db_row) : Prop :=
  type q = SStr "FORECAST" \/ type q = SStr "HISTORY".

(** The rows whose type is not [ty]. *)
Definition other_type (ty : string) (q : db_row) : bool :=
  negb (sqlval_eqb (type q) (SStr ty)).

(** A world whose server refuses the first statement it is sent and
    accepts the rest. *)
Definition env_first_statement_refused : Env :=
  {| api_key := "KEY"; cities := ["Paris"];
     http_get := fun _ _ => GetRaises Timeout;
     get_seconds := fun _ _ => 1%nat;
     execute_fault := fun n _ => match n with
                                 | O => Some (MySQLError "server has gone away")
                                 | _ => None
                                 end;
     commit_fault := fun _ => None;
     pure_python_cursor := true |}.

Definition two_days_payload : json :=
  payload_of "Paris" [day_block "2024-05-01" 11 20; day_block "2024-05-02" 12 21].

(* ================================================================== *)
(** ** More about payloads *)

(** Python's [isinstance(v, dict)]. *)
Definition is_dict (v : json) : bool :=
  match v with JObj _ => true | _ => false end.

(** The payload has no CO reading: no [current] block, or a [current]
    block without [air_quality], or an [air_quality] block without
    [co]. *)
Definition lacks_co (m : list (string * json)) : Prop :=
  lookup "current" m = None \/
  exists c,
    lookup "current" m = Some (JObj c) /\
    (lookup "air_quality" c = None \/
     exists a, lookup "air_quality" c = Some (JObj a) /\ lookup "co" a = None).

(** A well-formed payload but for its [current] block, which is null. *)
Definition payload_null_current : json :=
  JObj [("location", JObj [("name", JStr "Paris"); ("country", JStr "France")]);
        ("current", JNull);
        ("forecast", JObj [("forecastday", JArr [day_block "2024-05-01" 11 20])])].

(* ================================================================== *)
(** ** More about URLs *)

(** The characters [quote_plus] can produce. *)
Definition url_char (c : ascii) : bool :=
  always_safe c || Ascii.eqb c "+" || Ascii.eqb c "%".

(** [c] occurs in [s]. *)
Fixpoint mentions (c : ascii) (s : string) : bool :=
  match s with
  | EmptyString => false
  | String c' s' => Ascii.eqb c c' || mentions c s'
  end.

Definition hex_value (c : ascii) : nat :=
  let n := nat_of_ascii c in
  if (Nat.leb 48 n && Nat.leb n 57)%bool then n - 48
  else if (Nat.leb 65 n && Nat.leb n 70)%bool then n - 55
  else 0.

(** [urllib.parse.unquote_plus], the decoding the server applies to a
    query value: [+] is a space and [%XX] the byte XX. *)
Fixpoint unquote_plus (s : string) : string :=
  match s with
  | EmptyString => EmptyString
  | String c s1 =>
      if Ascii.eqb c "%" then
        match s1 with
        | String h (String l s2) =>
            String (ascii_of_nat (16 * hex_value h + hex_value l))
                   (unquote_plus s2)
        | _ => String c (unquote_plus s1)
        end
      else if Ascii.eqb c "+" then String " " (unquote_plus s1)
      else String c (unquote_plus s1)
  end.

(* ================================================================== *)
(** ** The configured locations *)

(** Line 37 of [__init__] computes the locations from the text of the
    configuration value:
    [[city.strip() for city in value.split(',')]].  A [str] is the
    sequence of its code points. *)
Definition str := list N.

Definition COMMA : N := 44%N.

(** [str.isspace] on one code point: the characters [str.strip()]
    removes. *)
Definition isspace (c : N) : bool :=
  ((N.leb 9 c && N.leb c 13) || (N.leb 28 c && N.leb c 32)
   || N.eqb c 133 || N.eqb c 160 || N.eqb c 5760
   || (N.leb 8192 c && N.leb c 8202)
   || N.eqb c 8232 || N.eqb c 8233 || N.eqb c 8239 || N.eqb c 8287
   || N.eqb c 12288)%bool.

Fixpoint lstrip (s : str) : str :=
  match s with
  | [] => []
  | c :: s' => if isspace c then lstrip s' else s
  end.

Definition rstrip (s : str) : str := rev (lstrip (rev s)).

Definition strip (s : str) : str := rstrip (lstrip s).

(** [s.split(',')]: the pieces between the commas; one more piece than
    there are commas, so never an empty list. *)
Fixpoint split_comma (s : str) : list str :=
  match s with
  | [] => [[]]
  | c :: s' =>
      if N.eqb c COMMA then [] :: split_comma s'
      else match split_comma s' with
           | piece :: pieces => (c :: piece) :: pieces
           | [] => [[c]]
           end
  end.

Definition parse_cities (value : str) : list str :=
  map strip (split_comma value).

(** [sep.join(names)]. *)
Fixpoint join (sep : str) (names : list str) : str :=
  match names with
  | [] => []
  | [n] => n
  | n :: rest => n ++ sep ++ join sep rest
  end.

(** A name that holds no comma and neither starts nor ends with a
    whitespace character. *)
Definition clean_name (n : str) : bool :=
  (negb (existsb (N.eqb COMMA) n)
   && match n with c :: _ => negb (isspace c) | [] => true end
   && match rev n with c :: _ => negb (isspace c) | [] => true end)%bool.

(** The code points of an ASCII text. *)
Definition codepoints (s : string) : str :=
  map N_of_ascii (list_ascii_of_string s).

(* ================================================================== *)
(** ** Writing a batch again *)

(** One statement of [insert_record], as a function on tables. *)
Definition upsert (p : db_row) (t : list db_row) : list db_row :=
  fst (insert_on_duplicate p t).

(** Some row of [t] collides with [p]. *)
Definition hit (p : db_row) (t : list db_row) : bool :=
  existsb (duplicate_key p) t.

(** Two tables that are the same, but possibly for the mutable columns
    of the first row that collides with [p]. *)
Inductive differ_at_first (p : db_row) : list db_row -> list db_row -> Prop :=
| daf_same t : differ_at_first p t t
| daf_here r r' t :
    duplicate_key p r = true -> identity r = identity r' ->
    differ_at_first p (r :: t) (r' :: t)
| daf_skip r t t' :
    duplicate_key p r = false -> differ_at_first p t t' ->
    differ_at_first p (r :: t) (r :: t').

(** One payload with two entries for the same day. *)
Definition same_day_twice_payload : json :=
  payload_of "Paris" [day_block "2024-05-01" 11 20; day_block "2024-05-01" 12 21].


(* ================================================================== *)
(* ================================================================== *)
(** ** Where the calendar of the model is Python's *)





(* ================================================================== *)
(** ** More sample worlds *)

(** Noon on 2024-05-10. *)
Definition noon_on_2024_05_10 : Z := ymd2ord 2024 5 10 * 86400 + 43200.

(** The history URL of [city] and [date_str] under the key of the sample
    worlds. *)
Definition history_url_of (city date_str : string) : string :=
  build_history_url (quiet_env [] (fun _ _ => GetRaises Timeout)) city date_str.

Definition lyon_history_payload : json :=
  payload_of "Lyon" [day_block "2024-05-09" 9 19].

(** Three locations.  The forecast of the second is never answered; the
    history of the first for 2024-05-09 is answered with a payload that
    has no day list, that of the third with a well-formed payload; no
    other history request is answered. *)
Definition env_mixed_units : Env :=
  quiet_env ["Paris"; "Atlantis"; "Lyon"]
    (serve [(forecast_url_of "Paris", GetResponse 200 (Some paris_payload));
            (forecast_url_of "Lyon", GetResponse 200 (Some lyon_payload));
            (history_url_of "Paris" "2024-05-09",
             GetResponse 200 (Some payload_no_day_list));
            (history_url_of "Lyon" "2024-05-09",
             GetResponse 200 (Some lyon_history_payload))]).

(* ================================================================== *)
(** ** A table of two rows *)

Definition lyon_stored : db_row := day_params "Lyon" "2024-05-01" 12 22 "FORECAST".

(** The session of a run that finds the rows of Paris and of Lyon for
    2024-05-01 in the table. *)
Definition two_rows_state : State :=
  initial_state noon_on_2024_05_10 [paris_stored; lyon_stored].

(** * Properties *)

(** ** Traces *)

Lemma requested_app (a b : list event) :
  requested (a ++ b) = requested a ++ requested b.
Proof.
  induction a as [| [] a IH]; simpl; congruence.
Qed.

Lemma sleeps_app (a b : list event) : sleeps (a ++ b) = sleeps a ++ sleeps b.
Proof.
  induction a as [| [] a IH]; simpl; congruence.
Qed.

Lemma db_events_app (a b : list event) :
  db_events (a ++ b) = db_events a ++ db_events b.
Proof.
  induction a as [| [] a IH]; simpl; congruence.
Qed.

Lemma history_units_app (a b : list event) :
  history_units (a ++ b) = history_units a ++ history_units b.
Proof.
  induction a as [| [u | d | l [] | p | | |] a IH]; simpl; congruence.
Qed.

Lemma extract_errors_app (a b : list event) :
  extract_errors (a ++ b) = extract_errors a ++ extract_errors b.
Proof.
  induction a as [| [u | d | [] [] | p | | |] a IH]; simpl; congruence.
Qed.

(** ** The retry policy *)

Lemma fetch_data_body_run (env : Env) (url : string) (s : State) :
  fetch_data_body env url s
  = (attempt_outcome (http_get env (gets s) url),
     after_get env url s).
Proof.
  unfold fetch_data_body, bind, requests_get, attempt_outcome.
  destruct (http_get env (gets s) url) as [e | st b]; [reflexivity |].
  unfold raise_for_status, response_json; simpl.
  destruct ((400 <=? st) && (st <? 600)); [reflexivity |].
  destruct b; reflexivity.
Qed.

(** An attempt that returns leaves the loop with its value. *)
Lemma wrapper_loop_returns env url a rest d s v :
  attempt_outcome (http_get env (gets s) url) = Ok v ->
  wrapper_loop (fetch_data_body env url) (a :: rest) d s
  = (Ok v, after_get env url s).
Proof.
  intros H. simpl. unfold try_except.
  rewrite fetch_data_body_run, H. reflexivity.
Qed.

(** An attempt that raises outside the [except] tuple leaves [wrapper]
    with that exception. *)
Lemma wrapper_loop_propagates env url a rest d s e :
  attempt_outcome (http_get env (gets s) url) = Raise e ->
  retried e = false ->
  wrapper_loop (fetch_data_body env url) (a :: rest) d s
  = (Raise e, after_get env url s).
Proof.
  intros H R. simpl. unfold try_except.
  rewrite fetch_data_body_run, H, R. reflexivity.
Qed.

(** An attempt that raises inside the tuple is logged and slept on. *)
Lemma wrapper_loop_retries env url a rest d s e :
  attempt_outcome (http_get env (gets s) url) = Raise e ->
  retried e = true ->
  wrapper_loop (fetch_data_body env url) (a :: rest) d s
  = wrapper_loop (fetch_data_body env url) rest (d * 2)
      (add_event (EvSleep d)
         (tick d
            (add_event (EvLog WARNING (MsgRetry a e d))
               (after_get env url s)))).
Proof.
  intros H R. simpl. unfold try_except.
  rewrite fetch_data_body_run, H, R. reflexivity.
Qed.

(** Three retried failures in a row: three GETs, sleeps of 2, 4 and 8,
    and [None]. *)
Lemma fetch_data_exhausted env url s e1 e2 e3 :
  attempt_outcome (http_get env (gets s) url) = Raise e1 ->
  attempt_outcome (http_get env (S (gets s)) url) = Raise e2 ->
  attempt_outcome (http_get env (S (S (gets s))) url) = Raise e3 ->
  retried e1 = true -> retried e2 = true -> retried e3 = true ->
  exists s',
    fetch_data env url s = (Ok JNull, s') /\
    trace s' = trace s ++
      [EvGet url; EvLog WARNING (MsgRetry 1 e1 2); EvSleep 2;
       EvGet url; EvLog WARNING (MsgRetry 2 e2 4); EvSleep 4;
       EvGet url; EvLog WARNING (MsgRetry 3 e3 8); EvSleep 8;
       EvLog ERROR MsgAllRetriesFailed] /\
    gets s' = (gets s + 3)%nat /\
    table s' = table s /\ durable s' = durable s.
Proof.
  intros H1 H2 H3 R1 R2 R3.
  unfold fetch_data, retry.
  rewrite wrapper_loop_retries with (e := e1); [| exact H1 | exact R1].
  rewrite wrapper_loop_retries with (e := e2); [| exact H2 | exact R2].
  rewrite wrapper_loop_retries with (e := e3); [| exact H3 | exact R3].
  eexists; split; [reflexivity |].
  simpl. repeat rewrite <- app_assoc. simpl.
  repeat split; try reflexivity; lia.
Qed.

(** C1.  A fetch that meets a transient transport error on every attempt
    makes exactly three attempts, blocks for 2 time-units after the first
    failure and 4 after the second, and returns [None] instead of raising.
    The trace is the whole story of the call: the third failure is also
    slept on, for 8 time-units, before the loop ends. *)
Theorem fetch_data_transient_exhaustion (env : Env) (url : string) (s : State) :
  (forall n, exists e,
      http_get env n url = GetRaises e /\ transport_error e = true) ->
  exists e1 e2 e3 s',
    fetch_data env url s = (Ok JNull, s') /\
    requested (trace s') = requested (trace s) ++ [url; url; url] /\
    trace s' = trace s ++
      [EvGet url; EvLog WARNING (MsgRetry 1 e1 2); EvSleep 2;
       EvGet url; EvLog WARNING (MsgRetry 2 e2 4); EvSleep 4;
       EvGet url; EvLog WARNING (MsgRetry 3 e3 8); EvSleep 8;
       EvLog ERROR MsgAllRetriesFailed].
Proof.
  intros H.
  destruct (H (gets s)) as (e1 & G1 & T1).
  destruct (H (S (gets s))) as (e2 & G2 & T2).
  destruct (H (S (S (gets s)))) as (e3 & G3 & T3).
  assert (R : forall e, transport_error e = true -> retried e = true)
    by (intros [] E; simpl in *; congruence).
  destruct (fetch_data_exhausted env url s e1 e2 e3)
    as (s' & F & Tr & _); try (rewrite ?G1, ?G2, ?G3; reflexivity); auto.
  exists e1, e2, e3, s'. split; [exact F |]. split; [| exact Tr].
  rewrite Tr, requested_app. reflexivity.
Qed.

Lemma fetch_data_transient_exhaustion_witness :
  exists e1 e2 e3 s',
    fetch_data env_timeout "u" (initial_state 0 []) = (Ok JNull, s') /\
    requested (trace s') = ["u"; "u"; "u"] /\
    trace s' =
      [EvGet "u"; EvLog WARNING (MsgRetry 1 e1 2); EvSleep 2;
       EvGet "u"; EvLog WARNING (MsgRetry 2 e2 4); EvSleep 4;
       EvGet "u"; EvLog WARNING (MsgRetry 3 e3 8); EvSleep 8;
       EvLog ERROR MsgAllRetriesFailed].
Proof.
  apply (fetch_data_transient_exhaustion env_timeout "u" (initial_state 0 [])).
  intros n. exists Timeout. split; reflexivity.
Defined.

(** C2, as the code has it.  [raise_for_status] raises [HTTPError], a
    class of the [except] tuple of [retry]: a fetch answered 4xx or 5xx on
    every attempt is retried like a transport failure, three attempts with
    sleeps of 2, 4 and 8 time-units, and returns [None]. *)
Theorem fetch_data_http_error_is_retried (env : Env) (url : string) (s : State) :
  (forall n, exists st b,
      http_get env n url = GetResponse st b /\ 400 <= st < 600) ->
  exists st1 st2 st3 s',
    fetch_data env url s = (Ok JNull, s') /\
    requested (trace s') = requested (trace s) ++ [url; url; url] /\
    sleeps (trace s') = sleeps (trace s) ++ [2; 4; 8] /\
    trace s' = trace s ++
      [EvGet url; EvLog WARNING (MsgRetry 1 (HTTPError st1) 2); EvSleep 2;
       EvGet url; EvLog WARNING (MsgRetry 2 (HTTPError st2) 4); EvSleep 4;
       EvGet url; EvLog WARNING (MsgRetry 3 (HTTPError st3) 8); EvSleep 8;
       EvLog ERROR MsgAllRetriesFailed].
Proof.
  intros H.
  assert (A : forall n, exists st,
             attempt_outcome (http_get env n url) = Raise (HTTPError st)).
  { intros n. destruct (H n) as (st & b & G & Hst). exists st.
    rewrite G. simpl.
    replace (400 <=? st) with true by (symmetry; apply Z.leb_le; lia).
    replace (st <? 600) with true by (symmetry; apply Z.ltb_lt; lia).
    reflexivity. }
  destruct (A (gets s)) as (st1 & A1).
  destruct (A (S (gets s))) as (st2 & A2).
  destruct (A (S (S (gets s)))) as (st3 & A3).
  destruct (fetch_data_exhausted env url s _ _ _ A1 A2 A3)
    as (s' & F & Tr & _); try reflexivity.
  exists st1, st2, st3, s'. split; [exact F |].
  rewrite Tr, requested_app, sleeps_app. repeat split.
Qed.

Lemma fetch_data_http_error_is_retried_witness :
  exists st1 st2 st3 s',
    fetch_data env_404 "u" (initial_state 0 []) = (Ok JNull, s') /\
    requested (trace s') = ["u"; "u"; "u"] /\
    sleeps (trace s') = [2; 4; 8] /\
    trace s' =
      [EvGet "u"; EvLog WARNING (MsgRetry 1 (HTTPError st1) 2); EvSleep 2;
       EvGet "u"; EvLog WARNING (MsgRetry 2 (HTTPError st2) 4); EvSleep 4;
       EvGet "u"; EvLog WARNING (MsgRetry 3 (HTTPError st3) 8); EvSleep 8;
       EvLog ERROR MsgAllRetriesFailed].
Proof.
  apply (fetch_data_http_error_is_retried env_404 "u" (initial_state 0 [])).
  intros n. exists 404, None. split; [reflexivity | lia].
Defined.

(** C2, as stated, fails: a fetch answered 404 is not given up after the
    first attempt; it is requested three times and slept on three times. *)
Lemma fetch_data_404_counterexample :
  http_get env_404 0 "u" = GetResponse 404 None /\
  exists s',
    fetch_data env_404 "u" (initial_state 0 []) = (Ok JNull, s') /\
    requested (trace s') = ["u"; "u"; "u"] /\
    sleeps (trace s') = [2; 4; 8].
Proof.
  split; [reflexivity |].
  eexists. split; [reflexivity |]. split; reflexivity.
Qed.

(* ================================================================== *)
(** ** The unique index *)

Lemma Qc_eq_bool_refl (q : Qc) : Qc_eq_bool q q = true.
Proof.
  unfold Qc_eq_bool. destruct (Qc_eq_dec q q); [reflexivity | congruence].
Qed.

Lemma sqlval_eqb_refl (a : sqlval) : sqlval_eqb a a = true.
Proof.
  destruct a; simpl; auto using Qc_eq_bool_refl, String.eqb_refl.
Qed.

Lemma sqlval_eqb_eq (a b : sqlval) : sqlval_eqb a b = true -> a = b.
Proof.
  destruct a, b; simpl; intros H; try discriminate; try reflexivity.
  - f_equal. now apply Qc_eq_bool_correct.
  - f_equal. now apply String.eqb_eq.
Qed.

Lemma sqlval_eqb_neq (a b : sqlval) : sqlval_eqb a b = false -> a <> b.
Proof.
  intros H E. subst. rewrite sqlval_eqb_refl in H. discriminate.
Qed.

Lemma index_eqb_true (a b : sqlval) :
  index_eqb a b = true <-> a = b /\ is_null a = false.
Proof.
  split.
  - destruct a, b; simpl; intros H; try discriminate;
      (split; [apply sqlval_eqb_eq; exact H | reflexivity]).
  - intros [-> N]. destruct b; simpl in *; try discriminate;
      auto using Qc_eq_bool_refl, String.eqb_refl.
Qed.

Lemma duplicate_key_true (p r : db_row) :
  duplicate_key p r = true <-> key p = key r /\ null_free p = true.
Proof.
  unfold duplicate_key, key, null_free.
  rewrite !andb_true_iff, !index_eqb_true, !negb_true_iff. split.
  - intros [[[-> ?] [-> ?]] [-> ?]]. auto.
  - intros [E [[? ?] ?]]. injection E as E1 E2 E3. repeat split; assumption.
Qed.

Lemma duplicate_key_false (p r : db_row) :
  duplicate_key p r = false -> null_free p = true -> key p <> key r.
Proof.
  intros H N E.
  assert (D : duplicate_key p r = true) by (apply duplicate_key_true; auto).
  congruence.
Qed.

(** A collision is a matter of the two keys only. *)
Lemma duplicate_key_ext (p p' r r' : db_row) :
  key p = key p' -> key r = key r' ->
  duplicate_key p r = duplicate_key p' r'.
Proof.
  unfold key, duplicate_key. intros E1 E2.
  injection E1 as -> -> ->. injection E2 as -> -> ->. reflexivity.
Qed.

Lemma duplicate_key_sym (p r : db_row) : duplicate_key p r = duplicate_key r p.
Proof.
  destruct (duplicate_key p r) eqn:A, (duplicate_key r p) eqn:B; auto.
  - apply duplicate_key_true in A as [E N].
    assert (duplicate_key r p = true); [| congruence].
    apply duplicate_key_true. split; [auto |].
    unfold null_free, key in *. injection E as <- <- <-. exact N.
  - apply duplicate_key_true in B as [E N].
    assert (duplicate_key p r = true); [| congruence].
    apply duplicate_key_true. split; [auto |].
    unfold null_free, key in *. injection E as <- <- <-. exact N.
Qed.

Lemma key_update_row (r p : db_row) : key (update_row r p) = key r.
Proof. reflexivity. Qed.

Lemma update_row_twice (r p : db_row) :
  update_row (update_row r p) p = update_row r p.
Proof. reflexivity. Qed.

Lemma same_mutable_update_row (r p : db_row) :
  same_mutable (update_row r p) p = true.
Proof.
  unfold same_mutable; simpl. now rewrite !sqlval_eqb_refl.
Qed.

Lemma on_duplicate_key_update_None (p : db_row) (t : list db_row) :
  on_duplicate_key_update p t = None <->
  Forall (fun r => duplicate_key p r = false) t.
Proof.
  induction t as [| r t IH]; simpl.
  - split; auto.
  - destruct (duplicate_key p r) eqn:D.
    + split; [discriminate |]. intros H. inversion H; congruence.
    + destruct (on_duplicate_key_update p t) as [[t' n] |].
      * split; [discriminate |]. intros H. inversion H; subst.
        apply IH in H3. discriminate.
      * split; auto. intros _. constructor; [auto | now apply IH].
Qed.

(** An update keeps every key where it was. *)
Lemma on_duplicate_key_update_keys (p : db_row) (t t' : list db_row) (n : Z) :
  on_duplicate_key_update p t = Some (t', n) -> map key t' = map key t.
Proof.
  revert t' n. induction t as [| r t IH]; simpl; intros t' n H; [discriminate |].
  destruct (duplicate_key p r).
  - injection H as <- _. reflexivity.
  - destruct (on_duplicate_key_update p t) as [[t0 n0] |]; [| discriminate].
    injection H as <- _. simpl. f_equal. eauto.
Qed.

Lemma Forall_no_duplicate_keys (r : db_row) (t t' : list db_row) :
  map key t' = map key t ->
  Forall (fun q => duplicate_key r q = false) t ->
  Forall (fun q => duplicate_key r q = false) t'.
Proof.
  revert t'. induction t as [| q t IH]; intros [| q' t'] E H;
    try discriminate; [constructor |].
  assert (E1 : key q' = key q) by (simpl in E; congruence).
  assert (E2 : map key t' = map key t) by (simpl in E; congruence).
  inversion H; subst. constructor.
  - rewrite (duplicate_key_ext r r q' q); auto.
  - auto.
Qed.

Lemma unique_index_keys (t t' : list db_row) :
  map key t' = map key t -> unique_index t -> unique_index t'.
Proof.
  revert t'. induction t as [| q t IH]; intros [| q' t'] E H;
    try discriminate; [constructor |].
  assert (E1 : key q' = key q) by (simpl in E; congruence).
  assert (E2 : map key t' = map key t) by (simpl in E; congruence).
  inversion H; subst. constructor.
  - apply Forall_no_duplicate_keys with (t := t); auto.
    eapply Forall_impl; [| eassumption]. intros a Ha.
    rewrite (duplicate_key_ext q' q a a); auto.
  - auto.
Qed.

Lemma unique_index_snoc (p : db_row) (t : list db_row) :
  unique_index t ->
  Forall (fun r => duplicate_key p r = false) t ->
  unique_index (t ++ [p]).
Proof.
  induction 1 as [| r t F U IH]; intros H; simpl.
  - repeat constructor.
  - inversion H; subst. constructor; [| auto].
    apply Forall_app. split; [exact F |].
    constructor; [| constructor]. now rewrite duplicate_key_sym.
Qed.

(** The statement of [insert_record] keeps the constraint. *)
Lemma insert_on_duplicate_unique (p : db_row) (t : list db_row) :
  unique_index t -> unique_index (fst (insert_on_duplicate p t)).
Proof.
  intros U. unfold insert_on_duplicate.
  destruct (on_duplicate_key_update p t) as [[t' n] |] eqn:E; simpl.
  - eapply unique_index_keys; [| exact U].
    eapply on_duplicate_key_update_keys; eauto.
  - apply unique_index_snoc; [exact U |].
    now apply on_duplicate_key_update_None.
Qed.

Lemma unique_index_no_shared_key (t : list db_row) :
  unique_index t -> no_shared_null_free_key t.
Proof.
  assert (G : forall t, unique_index t ->
            forall i j ri rj, (i < j)%nat ->
              nth_error t i = Some ri -> nth_error t j = Some rj ->
              duplicate_key ri rj = false).
  { clear t. induction 1 as [| r t F U IH]; intros i j ri rj L Hi Hj.
    - destruct i; discriminate.
    - destruct j as [| j]; [lia |]. simpl in Hj. destruct i as [| i].
      + simpl in Hi. injection Hi as <-.
        rewrite Forall_forall in F. apply F. eapply nth_error_In; eauto.
      + simpl in Hi. apply (IH i j); auto. lia. }
  intros U i j ri rj Hi Hj D N.
  destruct (Nat.lt_total i j) as [L | [L | L]]; [| contradiction |].
  - apply duplicate_key_false; auto. eapply G; eauto.
  - intros E.
    assert (N' : null_free rj = true).
    { unfold null_free, key in *. injection E as <- <- <-. exact N. }
    revert E. apply not_eq_sym. apply duplicate_key_false; auto.
    eapply G; eauto.
Qed.

(* ================================================================== *)
(** ** Rules for Hoare triples *)

Section HoareRules.

Variables A B : Type.

Lemma hoare_conseq (P P' : State -> Prop) (m : M A)
      (Q Q' : result A -> State -> Prop) :
  hoare P' m Q' ->
  (forall s, P s -> P' s) ->
  (forall r s, Q' r s -> Q r s) ->
  hoare P m Q.
Proof. unfold hoare; auto. Qed.

Lemma hoare_ret (a : A) (P : State -> Prop) (Q : result A -> State -> Prop) :
  (forall s, P s -> Q (Ok a) s) -> hoare P (ret a) Q.
Proof. unfold hoare; simpl; auto. Qed.

Lemma hoare_eval (r : result A) (P : State -> Prop)
      (Q : result A -> State -> Prop) :
  (forall s, P s -> Q r s) -> hoare P (eval r) Q.
Proof. unfold hoare; simpl; auto. Qed.

Lemma hoare_bind (m : M A) (k : A -> M B) (P : State -> Prop)
      (R : result A -> State -> Prop) (Q : result B -> State -> Prop) :
  hoare P m R ->
  (forall a, hoare (R (Ok a)) (k a) Q) ->
  (forall e s, R (Raise e) s -> Q (Raise e) s) ->
  hoare P (bind m k) Q.
Proof.
  unfold hoare, bind. intros Hm Hk He s Ps. specialize (Hm s Ps).
  destruct (m s) as [[a | e] s1]; simpl in *; auto.
Qed.

Lemma hoare_try_except (m : M A) (h : exn -> option (M A))
      (P : State -> Prop) (R Q : result A -> State -> Prop) :
  hoare P m R ->
  (forall a s, R (Ok a) s -> Q (Ok a) s) ->
  (forall e k, h e = Some k -> hoare (R (Raise e)) k Q) ->
  (forall e s, h e = None -> R (Raise e) s -> Q (Raise e) s) ->
  hoare P (try_except m h) Q.
Proof.
  unfold hoare, try_except. intros Hm Hok Hh Hn s Ps. specialize (Hm s Ps).
  destruct (m s) as [[a | e] s1]; simpl in *; auto.
  destruct (h e) as [k |] eqn:E; simpl; eauto.
Qed.

Lemma hoare_try_finally (m : M A) (f : M unit) (P : State -> Prop)
      (R Q : result A -> State -> Prop) :
  hoare P m R ->
  (forall r, hoare (R r) f
               (fun rf s => match rf with
                            | Ok _ => Q r s
                            | Raise e => Q (Raise e) s
                            end)) ->
  hoare P (try_finally m f) Q.
Proof.
  unfold hoare, try_finally. intros Hm Hf s Ps. specialize (Hm s Ps).
  destruct (m s) as [r s1]; simpl in *. specialize (Hf r s1 Hm).
  destruct (f s1) as [[[] | e] s2]; simpl in *; auto.
Qed.

End HoareRules.

Lemma hoare_for_each (A : Type) (xs : list A) (body : A -> M unit)
      (I : State -> Prop) (Q : result unit -> State -> Prop) :
  (forall x, In x xs ->
             hoare I (body x)
               (fun r s => match r with
                           | Ok _ => I s
                           | Raise e => Q (Raise e) s
                           end)) ->
  (forall s, I s -> Q (Ok tt) s) ->
  hoare I (for_each xs body) Q.
Proof.
  intros Hb Hq. induction xs as [| x xs IH]; simpl.
  - apply hoare_ret. exact Hq.
  - eapply hoare_bind.
    + apply Hb. now left.
    + intros u. apply IH. intros y Hy. apply Hb. now right.
    + auto.
Qed.

Section Stable.

Variable I : State -> Prop.

Lemma stable_ret A (a : A) : stable I (ret a).
Proof. apply hoare_ret; auto. Qed.

Lemma stable_eval A (r : result A) : stable I (eval r).
Proof. apply hoare_eval; auto. Qed.

Lemma stable_raise A (e : exn) : stable I (@raise A e).
Proof. unfold stable, hoare; simpl; auto. Qed.

Lemma stable_bind A B (m : M A) (k : A -> M B) :
  stable I m -> (forall a, stable I (k a)) -> stable I (bind m k).
Proof.
  intros Hm Hk. eapply hoare_bind; [exact Hm | |]; simpl; auto.
Qed.

Lemma stable_try_except A (m : M A) (h : exn -> option (M A)) :
  stable I m -> (forall e k, h e = Some k -> stable I k) ->
  stable I (try_except m h).
Proof.
  intros Hm Hh. eapply hoare_try_except; [exact Hm | | |]; simpl; eauto.
Qed.

Lemma stable_try_finally A (m : M A) (f : M unit) :
  stable I m -> stable I f -> stable I (try_finally m f).
Proof.
  intros Hm Hf. eapply hoare_try_finally; [exact Hm |].
  intros r s Is. specialize (Hf s Is). simpl in *.
  destruct (fst (f s)); auto.
Qed.

Lemma stable_for_each A (xs : list A) (body : A -> M unit) :
  (forall x, stable I (body x)) -> stable I (for_each xs body).
Proof.
  intros Hb. apply hoare_for_each; auto.
  intros x _ s Is. specialize (Hb x s Is). simpl in *.
  destruct (fst (body x s)); auto.
Qed.

Lemma stable_if A (c : bool) (m1 m2 : M A) :
  stable I m1 -> stable I m2 -> stable I (if c then m1 else m2).
Proof. destruct c; auto. Qed.

End Stable.

Create HintDb stable.

#[local] Hint Resolve stable_ret stable_eval stable_raise stable_bind
  stable_try_except stable_try_finally stable_for_each stable_if : stable.

(* ================================================================== *)
(** ** The constraint is never broken *)

Section UniqueStore.

Variable env : Env.

Ltac by_state := intros s [Ht Hd]; split; simpl; assumption.

Lemma unique_store_emit ev : stable unique_store (emit ev).
Proof. by_state. Qed.

Lemma unique_store_log lvl msg : stable unique_store (log lvl msg).
Proof. apply unique_store_emit. Qed.

Lemma unique_store_sleep d : stable unique_store (sleep d).
Proof. by_state. Qed.

Lemma unique_store_requests_get url :
  stable unique_store (requests_get env url).
Proof.
  intros s [Ht Hd]. unfold requests_get.
  destruct (http_get env (gets s) url); split; simpl; assumption.
Qed.

Lemma unique_store_cursor_execute r :
  stable unique_store (cursor_execute env r).
Proof.
  intros s [Ht Hd]. unfold cursor_execute.
  destruct (bind_params r) as [p |]; [| split; assumption].
  destruct (execute_fault env (db_calls s) p); split; simpl; auto.
  now apply insert_on_duplicate_unique.
Qed.

Lemma unique_store_conn_commit : stable unique_store (conn_commit env).
Proof.
  intros s [Ht Hd]. unfold conn_commit.
  destruct (commit_fault env (db_calls s)); split; simpl; assumption.
Qed.

Lemma unique_store_cursor_rowcount : stable unique_store cursor_rowcount.
Proof. by_state. Qed.

Lemma unique_store_date_today : stable unique_store date_today.
Proof. by_state. Qed.

Lemma unique_store_close_connection : stable unique_store close_connection.
Proof. by_state. Qed.

Hint Resolve unique_store_emit unique_store_log unique_store_sleep
  unique_store_requests_get unique_store_cursor_execute
  unique_store_conn_commit unique_store_cursor_rowcount
  unique_store_date_today unique_store_close_connection : stable.

Lemma unique_store_exception_handling e :
  stable unique_store (exception_handling e).
Proof. unfold exception_handling. auto 10 with stable. Qed.

Hint Resolve unique_store_exception_handling : stable.

Lemma unique_store_insert_record r :
  stable unique_store (insert_record env r).
Proof.
  unfold insert_record. apply stable_try_except.
  - repeat (apply stable_bind; [auto with stable | intros ?]).
    apply stable_if; auto with stable.
  - intros e k E. destruct (is_mysql_error e); [| discriminate].
    injection E as <-. auto 10 with stable.
Qed.

Hint Resolve unique_store_insert_record : stable.

Lemma unique_store_extract_and_write data mode :
  stable unique_store (extract_and_write env data mode).
Proof.
  unfold extract_and_write. apply stable_try_except.
  - repeat (apply stable_bind; [auto with stable | intros ?]).
    apply stable_for_each. intros d. auto 10 with stable.
  - intros e k E. destruct (is_Exception e); [| discriminate].
    injection E as <-. auto 10 with stable.
Qed.

Lemma unique_store_wrapper_loop url attempts d :
  stable unique_store (wrapper_loop (fetch_data_body env url) attempts d).
Proof.
  revert d. induction attempts as [| a rest IH]; intros d; simpl.
  - auto 10 with stable.
  - apply stable_try_except.
    + unfold fetch_data_body, raise_for_status, response_json.
      apply stable_bind; [auto with stable | intros r].
      apply stable_bind.
      * apply stable_if; auto with stable.
      * intros _. destruct (body r); auto with stable.
    + intros e k E. destruct (retried e); [| discriminate].
      injection E as <-. auto 10 with stable.
Qed.

Lemma unique_store_fetch_data url : stable unique_store (fetch_data env url).
Proof. apply unique_store_wrapper_loop. Qed.

Hint Resolve unique_store_extract_and_write unique_store_fetch_data : stable.

Lemma unique_store_run_forecast_etl :
  stable unique_store (run_forecast_etl env).
Proof.
  unfold run_forecast_etl. apply stable_for_each. intros city.
  repeat (apply stable_bind; [auto with stable | intros ?]).
  apply stable_if; auto with stable.
Qed.

Lemma unique_store_run_history_etl :
  stable unique_store (run_history_etl env).
Proof.
  unfold run_history_etl.
  apply stable_bind; [auto with stable | intros today].
  apply stable_for_each. intros i. apply stable_for_each. intros city.
  repeat (apply stable_bind; [auto with stable | intros ?]).
  apply stable_if; auto with stable.
Qed.

Lemma unique_store_start : stable unique_store (start env).
Proof.
  unfold start. apply stable_try_finally; [| auto with stable].
  apply stable_bind; [apply unique_store_run_forecast_etl |].
  intros _. apply unique_store_run_history_etl.
Qed.

Lemma reachable_unique_store (s : State) :
  reachable env s -> unique_store s.
Proof.
  induction 1 as [now | s r R IH | s R IH | s now R IH].
  - split; constructor.
  - now apply unique_store_insert_record.
  - now apply unique_store_start.
  - destruct IH as [_ Hd]. split; exact Hd.
Qed.

End UniqueStore.

(** X24.  In every state the pipeline's writes lead to, no two stored
    rows whose key has no NULL part carry the same (date, location,
    type); this holds of the committed table and of the session's view
    of it.  Rows whose key has a NULL part are not covered: the index
    does not compare NULLs. *)
Theorem reachable_no_shared_key (env : Env) (s : State) :
  reachable env s ->
  no_shared_null_free_key (durable s) /\ no_shared_null_free_key (table s).
Proof.
  intros R. destruct (reachable_unique_store env s R) as [Ht Hd].
  split; now apply unique_index_no_shared_key.
Qed.

(** The table a whole run leaves, three rows of three units. *)
Lemma reachable_no_shared_key_witness :
  no_shared_null_free_key
    (durable (snd (start env_mixed_units
                     (initial_state noon_on_2024_05_10 [])))) /\
  no_shared_null_free_key
    (table (snd (start env_mixed_units
                   (initial_state noon_on_2024_05_10 [])))).
Proof.
  apply (reachable_no_shared_key env_mixed_units).
  apply reachable_run. apply reachable_init.
Defined.

(** C6.  The claim fails on the code for rows without a date.  The
    forecast of Paris is answered with a payload whose only day has a
    null date, on 2024-05-10 and again on 2024-05-11.  The second run,
    on what the first committed, adds a second row, and the two rows
    carry the same (date, location, type): the key columns of
    [create_table] are nullable, and a unique index never takes two
    NULLs for equal. *)
Lemma null_date_rows_share_key :
  build_row payload_null_date "forecast" null_date_block = Ok row_null_date /\
  bind_params row_null_date = Some params_null_date /\
  reachable env_null_date
    (snd (start env_null_date
            (initial_state (noon_on_2024_05_10 + 86400)
               (durable (snd (start env_null_date
                                (initial_state noon_on_2024_05_10 []))))))) /\
  durable (snd (start env_null_date (initial_state noon_on_2024_05_10 [])))
  = [params_null_date] /\
  durable (snd (start env_null_date
                  (initial_state (noon_on_2024_05_10 + 86400)
                     (durable (snd (start env_null_date
                                      (initial_state noon_on_2024_05_10 [])))))))
  = [params_null_date; params_null_date] /\
  ~ no_shared_key [params_null_date; params_null_date].
Proof.
  split; [reflexivity |]. split; [reflexivity |].
  split; [| split; [| split]].
  - apply reachable_run, reachable_session, reachable_run, reachable_init.
  - vm_compute. reflexivity.
  - vm_compute. reflexivity.
  - intros H. apply (H 0%nat 1%nat params_null_date params_null_date);
      try reflexivity. discriminate.
Qed.

(** The record of that day, as the transform builds it. *)
Example build_row_null_date :
  build_row payload_null_date "forecast" null_date_block = Ok row_null_date /\
  bind_params row_null_date = Some params_null_date.
Proof. split; reflexivity. Qed.

(* ================================================================== *)
(** ** One write *)

Lemma insert_record_writes (env : Env) (r : row) (p : db_row) (s : State) :
  bind_params r = Some p ->
  execute_fault env (db_calls s) p = None ->
  commit_fault env (S (db_calls s)) = None ->
  insert_record env r s = (Ok tt, after_write r p s).
Proof.
  intros B X C.
  unfold insert_record, try_except, bind, cursor_execute, conn_commit,
    cursor_rowcount, after_write.
  rewrite B, X. simpl. rewrite C. simpl.
  destruct (snd (insert_on_duplicate p (table s)) =? 1); reflexivity.
Qed.

Lemma after_write_table r p s :
  table (after_write r p s) = fst (insert_on_duplicate p (table s)).
Proof. reflexivity. Qed.

Lemma after_write_durable r p s :
  durable (after_write r p s) = fst (insert_on_duplicate p (table s)).
Proof. reflexivity. Qed.

Lemma after_write_trace r p s :
  trace (after_write r p s)
  = trace s ++
      [EvExecute p; EvCommit;
       EvLog INFO (if snd (insert_on_duplicate p (table s)) =? 1
                   then MsgWrote (Location r) (Date r) (Type_ r)
                   else MsgUpdated (Location r) (Date r) (Type_ r))].
Proof.
  unfold after_write; simpl. now rewrite <- !app_assoc.
Qed.

(** Once a row collides with [p], the statement for [p] is a fixed point:
    run again it changes nothing and counts no affected row. *)
Lemma on_duplicate_key_update_again (p : db_row) (t t' : list db_row) (n : Z) :
  on_duplicate_key_update p t = Some (t', n) ->
  on_duplicate_key_update p t' = Some (t', 0).
Proof.
  revert t' n. induction t as [| r t IH]; simpl; intros t' n H; [discriminate |].
  destruct (duplicate_key p r) eqn:D.
  - injection H as <- _. simpl.
    rewrite (duplicate_key_ext p p (update_row r p) r), D by reflexivity.
    now rewrite same_mutable_update_row.
  - destruct (on_duplicate_key_update p t) as [[t0 n0] |]; [| discriminate].
    injection H as <- _. simpl. rewrite D.
    now rewrite (IH t0 n0).
Qed.

Lemma on_duplicate_key_update_new (p : db_row) (t : list db_row) :
  on_duplicate_key_update p t = None ->
  null_free p = true ->
  on_duplicate_key_update p (t ++ [p]) = Some (t ++ [p], 0).
Proof.
  intros H N. induction t as [| r t IH]; simpl in *.
  - assert (D : duplicate_key p p = true) by (apply duplicate_key_true; auto).
    rewrite D.
    assert (E : update_row p p = p) by (destruct p; reflexivity).
    rewrite E. unfold same_mutable. now rewrite !sqlval_eqb_refl.
  - destruct (duplicate_key p r); [discriminate |].
    destruct (on_duplicate_key_update p t) as [[t0 n0] |]; [discriminate |].
    now rewrite IH.
Qed.

Lemma insert_on_duplicate_again (p : db_row) (t : list db_row) :
  null_free p = true ->
  insert_on_duplicate p (fst (insert_on_duplicate p t))
  = (fst (insert_on_duplicate p t), 0).
Proof.
  intros N. unfold insert_on_duplicate at 2 3.
  destruct (on_duplicate_key_update p t) as [[t' n] |] eqn:E; simpl.
  - unfold insert_on_duplicate.
    now rewrite (on_duplicate_key_update_again p t _ _ E).
  - unfold insert_on_duplicate.
    now rewrite (on_duplicate_key_update_new p t E N).
Qed.

Lemma bind_params_null_free (r : row) (p : db_row) :
  bind_params r = Some p ->
  Date r <> JNull -> Location r <> JNull ->
  null_free p = true.
Proof.
  unfold bind_params. intros B D L.
  destruct (to_mysql (Date r)) as [d |] eqn:Ed; [| discriminate].
  destruct (to_mysql (Location r)) as [l |] eqn:El; [| discriminate].
  destruct (to_mysql (Country r)); [| discriminate].
  destruct (to_mysql (Min_Temp r)); [| discriminate].
  destruct (to_mysql (Max_Temp r)); [| discriminate].
  destruct (to_mysql (Humidity r)); [| discriminate].
  destruct (to_mysql (Air_Quality r)); [| discriminate].
  injection B as <-. unfold null_free; simpl.
  destruct (Date r); try congruence; destruct (Location r); try congruence;
    simpl in *; try discriminate;
    injection Ed as <-; injection El as <-; reflexivity.
Qed.

(** X22.  For a record whose date and location are not null, when the
    store carries out both writes: the second write of the same record
    leaves the table, as the session sees it and as committed, exactly as
    the first left it, and is logged as an update, not as a new row. *)
Theorem insert_record_idempotent (env : Env) (r : row) (p : db_row) (s : State) :
  store_available env ->
  bind_params r = Some p ->
  Date r <> JNull -> Location r <> JNull ->
  exists s1 s2,
    insert_record env r s = (Ok tt, s1) /\
    insert_record env r s1 = (Ok tt, s2) /\
    table s2 = table s1 /\
    durable s2 = durable s1 /\
    trace s2 = trace s1 ++
      [EvExecute p; EvCommit;
       EvLog INFO (MsgUpdated (Location r) (Date r) (Type_ r))].
Proof.
  intros [X C] B D L.
  assert (N := bind_params_null_free r p B D L).
  exists (after_write r p s), (after_write r p (after_write r p s)).
  split; [apply insert_record_writes; auto |].
  split; [apply insert_record_writes; auto |].
  assert (E : insert_on_duplicate p (table (after_write r p s))
              = (table (after_write r p s), 0)).
  { rewrite after_write_table. now apply insert_on_duplicate_again. }
  split; [rewrite after_write_table, E; reflexivity |].
  split; [rewrite after_write_durable, E; reflexivity |].
  rewrite (after_write_trace r p (after_write r p s)), E. reflexivity.
Qed.

Lemma insert_record_idempotent_witness :
  exists s1 s2,
    insert_record env_quiet paris_again
      (initial_state noon_on_2024_05_10 [paris_stored])
    = (Ok tt, s1) /\
    insert_record env_quiet paris_again s1 = (Ok tt, s2) /\
    table s2 = table s1 /\
    durable s2 = durable s1 /\
    trace s2 = trace s1 ++
      [EvExecute paris_again_params; EvCommit;
       EvLog INFO (MsgUpdated (JStr "Paris") (JStr "2024-05-01") "FORECAST")].
Proof.
  apply (insert_record_idempotent env_quiet paris_again paris_again_params
           (initial_state noon_on_2024_05_10 [paris_stored])).
  - split; reflexivity.
  - reflexivity.
  - discriminate.
  - discriminate.
Defined.

(** C4.  The claim fails on the code for a record without a date, as a
    payload day with a null date yields it: the second write of the same
    record adds a second row and is logged as a new row, not as an
    update.  The key columns of [create_table] are nullable, and a unique
    index never takes two NULLs for equal. *)
Lemma insert_record_null_date_twice :
  build_row payload_null_date "forecast" null_date_block = Ok row_null_date /\
  bind_params row_null_date = Some params_null_date /\
  exists s1 s2,
    insert_record env_quiet row_null_date
      (initial_state noon_on_2024_05_10 []) = (Ok tt, s1) /\
    insert_record env_quiet row_null_date s1 = (Ok tt, s2) /\
    durable s1 = [params_null_date] /\
    durable s2 = [params_null_date; params_null_date] /\
    trace s2 = trace s1 ++
      [EvExecute params_null_date; EvCommit;
       EvLog INFO (MsgWrote (JStr "Paris") JNull "FORECAST")].
Proof.
  split; [reflexivity |]. split; [reflexivity |].
  do 2 eexists. repeat split; reflexivity.
Qed.

(* ================================================================== *)
(** ** Conflict merge *)

Lemma key_eqb_true (q p : db_row) : key_eqb q p = true <-> key q = key p.
Proof.
  unfold key_eqb, key. rewrite !andb_true_iff. split.
  - intros [[A B] C]. apply sqlval_eqb_eq in A, B, C. congruence.
  - intros E. injection E as -> -> ->. now rewrite !sqlval_eqb_refl.
Qed.

Lemma key_null_free (p q : db_row) :
  key p = key q -> null_free p = true -> null_free q = true.
Proof.
  unfold key, null_free. intros E. injection E as <- <- <-. auto.
Qed.

Lemma filter_no_duplicate (r p : db_row) (t : list db_row) :
  key r = key p -> null_free p = true ->
  Forall (fun q => duplicate_key r q = false) t ->
  filter (fun x => key_eqb x p) t = [].
Proof.
  intros E N. induction 1 as [| q t D F IH]; simpl; [reflexivity |].
  destruct (key_eqb q p) eqn:K; [| exact IH].
  apply key_eqb_true in K.
  assert (duplicate_key r q = true); [| congruence].
  apply duplicate_key_true. split; [congruence |].
  apply (key_null_free p r); auto.
Qed.

(** With the constraint in force, the row that carries the key of [p] is
    the one the statement updates, and it stays the only one. *)
Lemma on_duplicate_key_update_merges (p old : db_row) (t : list db_row) :
  unique_index t -> In old t -> key old = key p -> null_free p = true ->
  exists t' n,
    on_duplicate_key_update p t = Some (t', n) /\
    filter (fun x => key_eqb x p) t' = [update_row old p] /\
    List.length t' = List.length t.
Proof.
  intros U I E N. induction U as [| r t F U IH]; [contradiction |].
  simpl. destruct (duplicate_key p r) eqn:D.
  - apply duplicate_key_true in D as [Er _].
    assert (r = old) as ->.
    { destruct I as [I | I]; [exact I | exfalso].
      rewrite Forall_forall in F. specialize (F old I).
      assert (duplicate_key r old = true); [| congruence].
      apply duplicate_key_true. split; [congruence |].
      apply (key_null_free p r); auto. }
    eexists _, _. split; [reflexivity |]. split; [| reflexivity].
    simpl.
    assert (K : key_eqb (update_row old p) p = true)
      by (apply key_eqb_true; rewrite key_update_row; exact E).
    rewrite K. f_equal. apply (filter_no_duplicate old p); auto.
  - destruct I as [I | I].
    { subst r. assert (duplicate_key p old = true); [| congruence].
      apply duplicate_key_true. auto. }
    destruct (IH I) as (t' & n & O & Fl & Len). rewrite O.
    eexists _, _. split; [reflexivity |]. simpl. split; [| congruence].
    destruct (key_eqb r p) eqn:K; [| exact Fl].
    apply key_eqb_true in K.
    assert (duplicate_key p r = true); [| congruence].
    apply duplicate_key_true. auto.
Qed.

(** X23.  When the store is available and holds, under its unique
    index, a row for a key whose date and location are not NULL, a write
    for the same key leaves exactly one row with that key; it carries the
    new min_temp, max_temp, humidity and air_quality and the country
    that was stored, and the table has as many rows as before. *)
Theorem insert_record_merges (env : Env) (r : row) (p old : db_row) (s : State) :
  store_available env ->
  bind_params r = Some p ->
  unique_index (table s) ->
  In old (table s) ->
  key old = key p ->
  date old <> SNull -> location old <> SNull ->
  exists s' q,
    insert_record env r s = (Ok tt, s') /\
    filter (fun x => key_eqb x p) (durable s') = [q] /\
    min_temp q = min_temp p /\ max_temp q = max_temp p /\
    humidity q = humidity p /\ air_quality q = air_quality p /\
    country q = country old /\
    table s' = durable s' /\
    List.length (durable s') = List.length (table s).
Proof.
  intros [X C] B U I E Nd Nl.
  assert (N : null_free p = true).
  { assert (T : type p <> SNull).
    { unfold bind_params in B.
      destruct (to_mysql (Date r)), (to_mysql (Location r)),
        (to_mysql (Country r)), (to_mysql (Min_Temp r)),
        (to_mysql (Max_Temp r)), (to_mysql (Humidity r)),
        (to_mysql (Air_Quality r)); try discriminate.
      injection B as <-. discriminate. }
    unfold key in E. injection E as E1 E2 E3. unfold null_free.
    rewrite <- E1, <- E2 in *.
    destruct (date old), (location old), (type p); simpl; congruence. }
  destruct (on_duplicate_key_update_merges p old (table s) U I E N)
    as (t' & n & O & Fl & Len).
  exists (after_write r p s), (update_row old p).
  split; [apply insert_record_writes; auto |].
  rewrite after_write_table, after_write_durable.
  unfold insert_on_duplicate. rewrite O. simpl. auto 10.
Qed.

(** The example of the specification: Paris on 2024-05-01, stored with a
    maximum of 20 and country France, written again with a maximum of 23
    and country FR. *)
Lemma insert_record_merges_witness :
  exists s' q,
    insert_record env_quiet paris_again
      (initial_state noon_on_2024_05_10 [paris_stored])
    = (Ok tt, s') /\
    filter (fun x => key_eqb x paris_again_params) (durable s') = [q] /\
    min_temp q = SNum (Q2Qc 12) /\ max_temp q = SNum (Q2Qc 23) /\
    humidity q = SNum (Q2Qc 55) /\ air_quality q = SNum (Q2Qc (2303 # 10)) /\
    country q = SStr "France" /\
    table s' = durable s' /\
    List.length (durable s') = 1%nat.
Proof.
  apply (insert_record_merges env_quiet paris_again paris_again_params
           paris_stored (initial_state noon_on_2024_05_10 [paris_stored])).
  - split; reflexivity.
  - reflexivity.
  - repeat constructor.
  - left. reflexivity.
  - reflexivity.
  - discriminate.
  - discriminate.
Defined.

(** C5.  The claim fails on the code when the stored row has no date:
    a write for the same (date, location, type) does not merge into it
    but adds a second row, and the stored row keeps its old maximum.  The
    key columns of [create_table] are nullable, and a unique index never
    takes two NULLs for equal. *)
Lemma insert_record_null_date_no_merge :
  bind_params row_null_date_again = Some params_null_date_again /\
  key stored_null_date = key params_null_date_again /\
  exists s',
    insert_record env_quiet row_null_date_again
      (initial_state noon_on_2024_05_10 [stored_null_date]) = (Ok tt, s') /\
    durable s' = [stored_null_date; params_null_date_again] /\
    filter (fun x => key_eqb x params_null_date_again) (durable s')
    = [stored_null_date; params_null_date_again] /\
    max_temp stored_null_date = SNum (Q2Qc 20) /\
    max_temp params_null_date_again = SNum (Q2Qc 23).
Proof.
  split; [reflexivity |]. split; [reflexivity |].
  eexists. repeat split; reflexivity.
Qed.

(* ================================================================== *)
(** ** The connection is released *)

(** C9.  However the two passes end, with a value or with an exception,
    [start] leaves the cursor and the connection closed, and closing them
    is the last thing it does. *)
Theorem start_releases_connection (env : Env) (s : State) :
  cursor_open (snd (start env s)) = false /\
  conn_open (snd (start env s)) = false /\
  exists evs,
    trace (snd (start env s)) = evs ++ [EvCursorClose; EvConnClose].
Proof.
  unfold start, try_finally.
  destruct ((run_forecast_etl env;; run_history_etl env) s) as [r s1].
  simpl. repeat split.
  exists (trace s1). now rewrite <- app_assoc.
Qed.

(* ================================================================== *)
(** ** The transform *)

Lemma getitem_raises (v : json) (k : string) (e : exn) :
  getitem v k = Raise e -> is_Exception e = true.
Proof.
  destruct v; simpl; try (intros H; injection H as <-; reflexivity).
  destruct (lookup k members); [discriminate |].
  intros H; injection H as <-; reflexivity.
Qed.

Lemma dict_get_raises (v : json) (k : string) (d : json) (e : exn) :
  dict_get v k d = Raise e -> is_Exception e = true.
Proof.
  destruct v; simpl; try (intros H; injection H as <-; reflexivity).
  destruct (lookup k members); discriminate.
Qed.

Lemma iterate_raises (v : json) (e : exn) :
  iterate v = Raise e -> is_Exception e = true.
Proof.
  destruct v; simpl; try discriminate; intros H; injection H as <-; reflexivity.
Qed.

Lemma forecast_days_of_raises (data : json) (e : exn) :
  forecast_days_of data = Raise e -> is_Exception e = true.
Proof.
  unfold forecast_days_of, and_then.
  destruct (getitem data "forecast") eqn:G.
  - apply getitem_raises.
  - intros H; injection H as <-. eapply getitem_raises; eauto.
Qed.

Ltac step_getitem H :=
  match type of H with
  | context [and_then (getitem ?v ?k) _] =>
      let G := fresh "G" in
      destruct (getitem v k) eqn:G; simpl in H;
      [| injection H as <-; apply (getitem_raises _ _ _ G)]
  | context [and_then (dict_get ?v ?k ?d) _] =>
      let G := fresh "G" in
      destruct (dict_get v k d) eqn:G; simpl in H;
      [| injection H as <-; apply (dict_get_raises _ _ _ _ G)]
  end.

Lemma build_row_raises (data : json) (mode : string) (d : json) (e : exn) :
  build_row data mode d = Raise e -> is_Exception e = true.
Proof.
  unfold build_row. intros H.
  repeat step_getitem H. discriminate.
Qed.

(** Without a location block no day yields a row. *)
Lemma build_row_no_location (data : json) (mode : string) (d : json) (e : exn) :
  getitem data "location" = Raise e ->
  exists e', build_row data mode d = Raise e'.
Proof.
  intros L. unfold build_row.
  destruct (getitem d "day"); simpl; [| eauto].
  destruct (getitem d "date"); simpl; [| eauto].
  rewrite L. simpl. eauto.
Qed.

(** The [except Exception] clause, on an exception it catches. *)
Lemma extract_and_write_catches (env : Env) (data : json) (mode : string)
      (s s1 : State) (e : exn) :
  (fd <- eval (forecast_days_of data) ;;
   days <- eval (iterate fd) ;;
   for_each days (write_day env data mode)) s = (Raise e, s1) ->
  is_Exception e = true ->
  extract_and_write env data mode s = (Ok tt, after_extract_error mode e s1).
Proof.
  intros H E. unfold extract_and_write, try_except.
  change (fun day_data : json =>
            r <- eval (build_row data mode day_data);; insert_record env r)
    with (write_day env data mode).
  rewrite H, E. reflexivity.
Qed.

Lemma extract_and_write_returns (env : Env) (data : json) (mode : string)
      (s s1 : State) :
  (fd <- eval (forecast_days_of data) ;;
   days <- eval (iterate fd) ;;
   for_each days (write_day env data mode)) s = (Ok tt, s1) ->
  extract_and_write env data mode s = (Ok tt, s1).
Proof.
  intros H. unfold extract_and_write, try_except.
  change (fun day_data : json =>
            r <- eval (build_row data mode day_data);; insert_record env r)
    with (write_day env data mode).
  rewrite H. reflexivity.
Qed.

Lemma after_extract_error_trace (mode : string) (e : exn) (s : State) :
  trace (after_extract_error mode e s)
  = trace s ++
      [EvLog ERROR (MsgExtractError mode e); EvLog ERROR (MsgExceptionType e);
       EvLog ERROR (MsgExceptionMessage e); EvLog ERROR (MsgStackTrace e)].
Proof.
  unfold after_extract_error; simpl. now rewrite <- !app_assoc.
Qed.

(** C8, as the code has it.  A payload without a day list, or without a
    location block while its day list is not empty, fails as a whole: no
    statement is sent for any of its days, the store is left as it was,
    the failure is logged and [extract_and_write] returns normally. *)
Theorem extract_and_write_structural_failure
        (env : Env) (data : json) (mode : string) (s : State) :
  (exists e, forecast_days_of data = Raise e) \/
  (exists e fd, getitem data "location" = Raise e /\
                forecast_days_of data = Ok fd /\
                iterate fd <> Ok []) ->
  exists e s',
    extract_and_write env data mode s = (Ok tt, s') /\
    trace s' = trace s ++
      [EvLog ERROR (MsgExtractError mode e); EvLog ERROR (MsgExceptionType e);
       EvLog ERROR (MsgExceptionMessage e); EvLog ERROR (MsgStackTrace e)] /\
    table s' = table s /\ durable s' = durable s /\
    db_calls s' = db_calls s.
Proof.
  intros H.
  assert (R : exists e,
             (fd <- eval (forecast_days_of data) ;;
              days <- eval (iterate fd) ;;
              for_each days (write_day env data mode)) s = (Raise e, s)
             /\ is_Exception e = true).
  { unfold bind, eval.
    destruct H as [[e F] | (e & fd & L & F & I)]; rewrite F.
    - exists e. split; [reflexivity |]. eapply forecast_days_of_raises; eauto.
    - destruct (iterate fd) as [[| d ds] | e'] eqn:It.
      + congruence.
      + destruct (build_row_no_location data mode d e L) as [e' B].
        exists e'. simpl. unfold write_day, bind, eval. rewrite B.
        split; [reflexivity |]. eapply build_row_raises; eauto.
      + exists e'. split; [reflexivity |]. eapply iterate_raises; eauto. }
  destruct R as (e & R & E).
  exists e, (after_extract_error mode e s).
  split; [now apply extract_and_write_catches |].
  split; [apply after_extract_error_trace |]. repeat split.
Qed.

Lemma extract_and_write_structural_failure_witness :
  exists e s',
    extract_and_write env_quiet payload_no_location "forecast"
      (initial_state 0 []) = (Ok tt, s') /\
    trace s' = [] ++
      [EvLog ERROR (MsgExtractError "forecast" e);
       EvLog ERROR (MsgExceptionType e);
       EvLog ERROR (MsgExceptionMessage e); EvLog ERROR (MsgStackTrace e)] /\
    table s' = [] /\ durable s' = [] /\ db_calls s' = 0%nat.
Proof.
  apply (extract_and_write_structural_failure env_quiet payload_no_location
           "forecast" (initial_state 0 [])).
  right. exists (KeyError "location"), (JArr [day_block "2024-05-01" 11 20]).
  split; [reflexivity |]. split; [reflexivity |]. discriminate.
Defined.

(** C8, as stated, fails for a payload without a location block whose day
    list is empty: the loop never reads the location, nothing fails and
    nothing is logged. *)
Lemma extract_and_write_no_location_no_days :
  getitem payload_no_location_no_days "location" = Raise (KeyError "location") /\
  extract_and_write env_quiet payload_no_location_no_days "forecast"
    (initial_state 0 [])
  = (Ok tt, initial_state 0 []) /\
  extract_errors (trace (initial_state 0 [])) = [].
Proof.
  repeat split; reflexivity.
Qed.

(** A payload without a day list: the first subscript of line 118 raises
    [KeyError], which is logged; nothing is sent to the store. *)
Example extract_and_write_no_day_list :
  extract_and_write env_quiet payload_no_day_list "forecast"
    (initial_state 0 [])
  = (Ok tt,
     after_extract_error "forecast" (KeyError "forecast") (initial_state 0 [])).
Proof. reflexivity. Qed.

(* ================================================================== *)
(** ** Day by day *)

Lemma write_day_writes (env : Env) (data : json) (mode : string)
      (d : json) (r : row) (p : db_row) (s : State) :
  store_available env ->
  build_row data mode d = Ok r ->
  bind_params r = Some p ->
  write_day env data mode d s = (Ok tt, after_write r p s).
Proof.
  intros [X C] B P. unfold write_day, bind, eval. rewrite B.
  apply insert_record_writes; auto.
Qed.

(** The well-formed days at the head of the list are written one after
    the other; the loop then goes on with the rest of the list. *)
Lemma for_each_days_written (env : Env) (data : json) (mode : string)
      (goods : list json) (rs : list row) (ps : list db_row) :
  store_available env ->
  Forall2 (fun d r => build_row data mode d = Ok r) goods rs ->
  Forall2 (fun r p => bind_params r = Some p) rs ps ->
  forall (rest : list json) (s : State),
    for_each (goods ++ rest) (write_day env data mode) s
    = for_each rest (write_day env data mode)
        (after_writes (combine rs ps) s).
Proof.
  intros A F. revert ps.
  induction F as [| d r goods rs B F IH]; intros ps P rest s.
  - inversion P; subst. reflexivity.
  - inversion P as [| r' p rs' ps' Bp P']; subst. simpl.
    unfold bind at 1. rewrite (write_day_writes env data mode d r p s A B Bp).
    apply IH. exact P'.
Qed.

Lemma after_writes_table (rps : list (row * db_row)) (s : State) :
  table (after_writes rps s) = upsert_all (map snd rps) (table s).
Proof.
  revert s. induction rps as [| [r p] rps IH]; intros s; simpl; [reflexivity |].
  unfold after_writes in *. simpl. rewrite IH. reflexivity.
Qed.

Lemma after_writes_durable (rps : list (row * db_row)) (s : State) :
  durable s = table s ->
  durable (after_writes rps s) = table (after_writes rps s).
Proof.
  revert s. induction rps as [| [r p] rps IH]; intros s H; simpl; [exact H |].
  unfold after_writes in *. simpl. apply IH. reflexivity.
Qed.

Lemma after_writes_trace (rps : list (row * db_row)) (s : State) :
  exists evs,
    trace (after_writes rps s) = trace s ++ evs /\
    db_events evs = flat_map (fun rp => [EvExecute (snd rp); EvCommit]) rps /\
    extract_errors evs = [] /\
    requested evs = [] /\
    history_units evs = [].
Proof.
  revert s. induction rps as [| [r p] rps IH]; intros s.
  - exists []. simpl. rewrite app_nil_r. auto.
  - unfold after_writes in *. simpl.
    destruct (IH (after_write r p s)) as (evs & T & D & E & R & H).
    rewrite T, after_write_trace, <- app_assoc.
    eexists. split; [reflexivity |].
    rewrite db_events_app, extract_errors_app, requested_app,
      history_units_app, D, E, R, H.
    simpl. destruct (snd (insert_on_duplicate p (table s)) =? 1); auto.
Qed.

Lemma map_snd_combine (rs : list row) (ps : list db_row) :
  Forall2 (fun r p => bind_params r = Some p) rs ps ->
  map snd (combine rs ps) = ps.
Proof.
  induction 1; simpl; congruence.
Qed.

(** C10.  When the day list starts with well-formed day blocks and a
    malformed one follows, the records of the well-formed days before it
    are upserted in list order, each statement followed by its own commit;
    the failure on the malformed day is then logged, and the committed
    table keeps those records: nothing of what was written is undone, and
    no later day is written. *)
Theorem extract_and_write_keeps_written_days
        (env : Env) (data : json) (mode : string) (s : State)
        (fd : json) (goods : list json) (bad : json) (rest : list json)
        (rs : list row) (ps : list db_row) (e : exn) :
  store_available env ->
  durable s = table s ->
  forecast_days_of data = Ok fd ->
  iterate fd = Ok (goods ++ bad :: rest) ->
  Forall2 (fun d r => build_row data mode d = Ok r) goods rs ->
  Forall2 (fun r p => bind_params r = Some p) rs ps ->
  build_row data mode bad = Raise e ->
  exists s' evs,
    extract_and_write env data mode s = (Ok tt, s') /\
    durable s' = upsert_all ps (durable s) /\
    table s' = durable s' /\
    trace s' = trace s ++ evs /\
    db_events evs = flat_map (fun p => [EvExecute p; EvCommit]) ps /\
    extract_errors evs = [e].
Proof.
  intros A Hd F I G P B.
  assert (R : (fd' <- eval (forecast_days_of data) ;;
               days <- eval (iterate fd') ;;
               for_each days (write_day env data mode)) s
              = (Raise e, after_writes (combine rs ps) s)).
  { unfold bind at 1 2, eval. rewrite F, I.
    rewrite (for_each_days_written env data mode goods rs ps A G P).
    simpl. unfold bind, write_day at 1, bind, eval. rewrite B. reflexivity. }
  destruct (after_writes_trace (combine rs ps) s) as (evs & T & D & E & _).
  exists (after_extract_error mode e (after_writes (combine rs ps) s)).
  exists (evs ++
          [EvLog ERROR (MsgExtractError mode e);
           EvLog ERROR (MsgExceptionType e);
           EvLog ERROR (MsgExceptionMessage e);
           EvLog ERROR (MsgStackTrace e)]).
  split.
  { apply extract_and_write_catches; [exact R |].
    eapply build_row_raises; eauto. }
  assert (Tb : table (after_writes (combine rs ps) s)
               = upsert_all ps (table s)).
  { rewrite after_writes_table, (map_snd_combine rs ps P). reflexivity. }
  assert (Db := after_writes_durable (combine rs ps) s Hd).
  split; [simpl; rewrite Db, Tb, Hd; reflexivity |].
  split; [simpl; rewrite Db; reflexivity |].
  split; [rewrite after_extract_error_trace, T, app_assoc; reflexivity |].
  rewrite db_events_app, extract_errors_app, D, E. simpl.
  rewrite app_nil_r. split; [| reflexivity].
  clear - P. induction P; simpl; congruence.
Qed.

Lemma extract_and_write_keeps_written_days_witness :
  exists s' evs,
    extract_and_write env_quiet payload_bad_third "forecast"
      (initial_state 0 []) = (Ok tt, s') /\
    durable s'
    = upsert_all [day_params "Paris" "2024-05-01" 11 20 "FORECAST";
                  day_params "Paris" "2024-05-02" 12 21 "FORECAST"]
        (durable (initial_state 0 [])) /\
    table s' = durable s' /\
    trace s' = trace (initial_state 0 []) ++ evs /\
    db_events evs
    = flat_map (fun p => [EvExecute p; EvCommit])
        [day_params "Paris" "2024-05-01" 11 20 "FORECAST";
         day_params "Paris" "2024-05-02" 12 21 "FORECAST"] /\
    extract_errors evs = [KeyError "day"].
Proof.
  apply (extract_and_write_keeps_written_days env_quiet payload_bad_third
           "forecast" (initial_state 0 [])
           (JArr [day_block "2024-05-01" 11 20; day_block "2024-05-02" 12 21;
                  bad_day; day_block "2024-05-04" 13 22])
           [day_block "2024-05-01" 11 20; day_block "2024-05-02" 12 21]
           bad_day [day_block "2024-05-04" 13 22]
           [day_row "Paris" "2024-05-01" 11 20 "FORECAST";
            day_row "Paris" "2024-05-02" 12 21 "FORECAST"]
           [day_params "Paris" "2024-05-01" 11 20 "FORECAST";
            day_params "Paris" "2024-05-02" 12 21 "FORECAST"]
           (KeyError "day")).
  - split; reflexivity.
  - reflexivity.
  - reflexivity.
  - reflexivity.
  - repeat constructor.
  - repeat constructor.
  - reflexivity.
Defined.

(** On that payload the committed table ends with the first two days and
    nothing of the fourth. *)
Example extract_and_write_bad_third_day :
  durable (snd (extract_and_write env_quiet payload_bad_third "forecast"
                  (initial_state 0 [])))
  = [day_params "Paris" "2024-05-01" 11 20 "FORECAST";
     day_params "Paris" "2024-05-02" 12 21 "FORECAST"].
Proof. reflexivity. Qed.

(* ================================================================== *)
(** ** What a pass requests *)

Section Quiet.

Variable env : Env.
Variable s0 : State.

Lemma quiet_since_refl : quiet_since s0 s0.
Proof. exists []. rewrite app_nil_r. auto. Qed.

Lemma quiet_emit (ev : event) :
  requested [ev] = [] -> history_units [ev] = [] ->
  stable (quiet_since s0) (emit ev).
Proof.
  intros R H s (evs & T & Rq & Hu). exists (evs ++ [ev]). simpl.
  rewrite T, app_assoc, requested_app, history_units_app, Rq, Hu, R, H. auto.
Qed.

Lemma quiet_cursor_execute (r : row) :
  stable (quiet_since s0) (cursor_execute env r).
Proof.
  intros s Q. unfold cursor_execute.
  destruct (bind_params r) as [p |]; [| exact Q].
  destruct (execute_fault env (db_calls s) p); simpl;
    apply (quiet_emit (EvExecute p) eq_refl eq_refl
             (count_db_call s)); exact Q.
Qed.

Lemma quiet_conn_commit : stable (quiet_since s0) (conn_commit env).
Proof.
  intros s Q. unfold conn_commit.
  destruct (commit_fault env (db_calls s)); simpl;
    apply (quiet_emit EvCommit eq_refl eq_refl (count_db_call s)); exact Q.
Qed.

Lemma quiet_cursor_rowcount : stable (quiet_since s0) cursor_rowcount.
Proof. intros s Q. exact Q. Qed.

Lemma quiet_exception_handling (e : exn) :
  stable (quiet_since s0) (exception_handling e).
Proof.
  unfold exception_handling, log.
  repeat (apply stable_bind; [apply quiet_emit; reflexivity | intros _]).
  apply quiet_emit; reflexivity.
Qed.

Lemma quiet_insert_record (r : row) :
  stable (quiet_since s0) (insert_record env r).
Proof.
  unfold insert_record. apply stable_try_except.
  - apply stable_bind; [apply quiet_cursor_execute | intros _].
    apply stable_bind; [apply quiet_conn_commit | intros _].
    apply stable_bind; [apply quiet_cursor_rowcount | intros n].
    apply stable_if; apply quiet_emit; reflexivity.
  - intros e k E. destruct (is_mysql_error e); [| discriminate].
    injection E as <-.
    apply stable_bind; [apply quiet_emit; reflexivity | intros _].
    apply quiet_exception_handling.
Qed.

Lemma quiet_extract_and_write (data : json) (mode : string) :
  stable (quiet_since s0) (extract_and_write env data mode).
Proof.
  unfold extract_and_write. apply stable_try_except.
  - apply stable_bind; [apply stable_eval | intros fd].
    apply stable_bind; [apply stable_eval | intros days].
    apply stable_for_each. intros d.
    apply stable_bind; [apply stable_eval | intros r].
    apply quiet_insert_record.
  - intros e k E. destruct (is_Exception e); [| discriminate].
    injection E as <-.
    apply stable_bind; [apply quiet_emit; reflexivity | intros _].
    apply quiet_exception_handling.
Qed.

End Quiet.

(** Whatever the answers, [fetch_data] requests its own URL, at least
    once, and nothing else. *)
Lemma wrapper_loop_requests (env : Env) (url : string) (attempts : list nat) :
  forall (d : Z) (s : State),
  exists evs,
    trace (snd (wrapper_loop (fetch_data_body env url) attempts d s))
    = trace s ++ evs /\
    history_units evs = [] /\
    (forall u, In u (requested evs) -> u = url) /\
    (attempts <> [] -> In url (requested evs)).
Proof.
  induction attempts as [| a rest IH]; intros d s.
  - simpl. eexists. split; [reflexivity |]. simpl.
    repeat split; [contradiction | congruence].
  - destruct (attempt_outcome (http_get env (gets s) url)) as [v | e] eqn:O.
    + rewrite (wrapper_loop_returns env url a rest d s v O). simpl.
      eexists. split; [reflexivity |]. simpl.
      repeat split; [intros u [<- | []]; reflexivity | auto].
    + destruct (retried e) eqn:R.
      * rewrite (wrapper_loop_retries env url a rest d s e O R).
        match goal with
        | |- context [wrapper_loop _ rest ?d' ?s'] =>
            destruct (IH d' s') as (evs & T & H & Only & _)
        end.
        rewrite T. simpl. rewrite <- !app_assoc. simpl.
        eexists. split; [reflexivity |]. simpl.
        repeat split; [exact H | | auto].
        intros u [<- | I]; [reflexivity | auto].
      * rewrite (wrapper_loop_propagates env url a rest d s e O R). simpl.
        eexists. split; [reflexivity |]. simpl.
        repeat split; [intros u [<- | []]; reflexivity | auto].
Qed.

Lemma flat_map_singleton (A B : Type) (f : A -> B) (l : list A) :
  flat_map (fun x => [f x]) l = map f l.
Proof.
  induction l as [| x l IH]; [reflexivity |].
  change (f x :: flat_map (fun x => [f x]) l = f x :: map f l).
  now rewrite IH.
Qed.

(** The history pass is a loop of units, with the date it read first. *)
Lemma run_history_etl_units (env : Env) (s : State) :
  run_history_etl env s
  = for_each [1; 2; 3]
      (fun i =>
         for_each (cities env)
           (fun city =>
              unit_step env
                (MsgFetchingHistory city (strftime_Ymd (clock s / 86400 - i)))
                (build_history_url env city (strftime_Ymd (clock s / 86400 - i)))
                "history")) s.
Proof. reflexivity. Qed.

Lemma unit_step_announces (env : Env) (url mode : string) (msg : log_msg) :
  announces (unit_step env msg url mode)
    (history_units [EvLog INFO msg]) [url].
Proof.
  intros s. unfold unit_step, bind, log, emit.
  set (s1 := add_event (EvLog INFO msg) s).
  destruct (wrapper_loop_requests env url [1; 2; 3]%nat 2 s1)
    as (evs & T & Hu & Only & Some_).
  change (wrapper_loop (fetch_data_body env url) [1; 2; 3]%nat 2 s1)
    with (fetch_data env url s1) in T.
  assert (E : requested [EvLog INFO msg] = []) by reflexivity.
  destruct (fetch_data env url s1) as [[v | e] s2]; simpl in T.
  - assert (Q : quiet_since s2
                  (snd ((if truthy v then extract_and_write env v mode
                         else ret tt) s2))).
    { destruct (truthy v).
      - apply (quiet_extract_and_write env s2 v mode s2 (quiet_since_refl s2)).
      - apply quiet_since_refl. }
    destruct Q as (evs' & T' & R' & H').
    exists ([EvLog INFO msg] ++ evs ++ evs').
    split; [rewrite T', T; subst s1; simpl; now rewrite <- !app_assoc |].
    rewrite !history_units_app, !requested_app, Hu, H', R', E, !app_nil_r.
    simpl. split; [exists []; now rewrite app_nil_r |].
    split; [intros u I; left; symmetry; now apply Only |].
    intros _ _. split; [reflexivity |].
    intros u [<- | []]. apply Some_. discriminate.
  - exists ([EvLog INFO msg] ++ evs).
    split; [simpl; rewrite T; subst s1; simpl; now rewrite <- !app_assoc |].
    rewrite !history_units_app, !requested_app, Hu, E, !app_nil_r.
    simpl. split; [exists []; now rewrite app_nil_r |].
    split; [intros u I; left; symmetry; now apply Only |].
    discriminate.
Qed.

Lemma announces_for_each (A : Type) (xs : list A) (body : A -> M unit)
      (us : A -> list (string * string)) (urls : A -> list string) :
  (forall x, announces (body x) (us x) (urls x)) ->
  announces (for_each xs body) (flat_map us xs) (flat_map urls xs).
Proof.
  intros Hb. induction xs as [| x xs IH]; intros s; simpl.
  - exists []. rewrite app_nil_r. simpl.
    repeat split; auto. exists []. reflexivity.
  - destruct (Hb x s) as (e1 & T1 & [r1 P1] & R1 & O1).
    unfold bind. destruct (body x s) as [[[] | e] s1]; simpl in *.
    + destruct (O1 tt eq_refl) as [H1 A1].
      destruct (IH s1) as (e2 & T2 & [r2 P2] & R2 & O2).
      exists (e1 ++ e2).
      split; [rewrite T2, T1; now rewrite app_assoc |].
      rewrite history_units_app, H1.
      split; [exists r2; rewrite P2 at 1; now rewrite app_assoc |].
      split.
      * intros u. rewrite requested_app, !in_app_iff.
        intros [I | I]; [left; now apply R1 | right; now apply R2].
      * intros a Ok_. destruct (O2 a Ok_) as [H2 A2].
        split; [now rewrite H2 |].
        intros u. rewrite requested_app, !in_app_iff.
        intros [I | I]; [left; now apply A1 | right; now apply A2].
    + exists e1. split; [exact T1 |].
      split; [exists (r1 ++ flat_map us xs); rewrite P1 at 1;
              now rewrite app_assoc |].
      split; [| discriminate].
      intros u I. apply in_or_app. left. now apply R1.
Qed.


(** *** The pass runs to its end *)









(** *** The text of a history URL *)







(** The requests of that pass, as they are sent: three attempts for each
    of the six units. *)
Example run_history_etl_on_2024_05_10 :
  requested (trace (snd (run_history_etl env_two_cities_timeout
                           (initial_state late_on_2024_05_10 []))))
  = flat_map (fun u => [u; u; u])
      ["http://api.weatherapi.com/v1/history.json?key=KEY&q=Paris&dt=2024-05-09";
       "http://api.weatherapi.com/v1/history.json?key=KEY&q=Lyon&dt=2024-05-09";
       "http://api.weatherapi.com/v1/history.json?key=KEY&q=Paris&dt=2024-05-08";
       "http://api.weatherapi.com/v1/history.json?key=KEY&q=Lyon&dt=2024-05-08";
       "http://api.weatherapi.com/v1/history.json?key=KEY&q=Paris&dt=2024-05-07";
       "http://api.weatherapi.com/v1/history.json?key=KEY&q=Lyon&dt=2024-05-07"].
Proof. vm_compute. reflexivity. Qed.

(** The clock did pass midnight during that pass. *)
Example run_history_etl_past_midnight :
  clock (snd (run_history_etl env_two_cities_timeout
                (initial_state late_on_2024_05_10 []))) / 86400
  = ymd2ord 2024 5 11.
Proof. vm_compute. reflexivity. Qed.

(* ================================================================== *)
(** ** Units do not disturb each other *)

Lemma on_duplicate_key_update_found (p : db_row) (t t' : list db_row) (n : Z) :
  on_duplicate_key_update p t = Some (t', n) -> In (key p) (map key t).
Proof.
  revert t' n. induction t as [| r t IH]; simpl; intros t' n H; [discriminate |].
  destruct (duplicate_key p r) eqn:D.
  - apply duplicate_key_true in D as [E _]. left. congruence.
  - destruct (on_duplicate_key_update p t) as [[t0 n0] |]; [| discriminate].
    right. eapply IH; eauto.
Qed.

(** A write drops no key and leaves a row for its own key. *)
Lemma insert_on_duplicate_keeps (p : db_row) (t : list db_row) :
  incl (map key t) (map key (fst (insert_on_duplicate p t))) /\
  In (key p) (map key (fst (insert_on_duplicate p t))).
Proof.
  unfold insert_on_duplicate.
  destruct (on_duplicate_key_update p t) as [[t' n] |] eqn:E; simpl.
  - rewrite (on_duplicate_key_update_keys p t t' n E). split.
    + apply incl_refl.
    + eapply on_duplicate_key_update_found; eauto.
  - rewrite map_app. split.
    + apply incl_appl, incl_refl.
    + apply in_or_app. right. now left.
Qed.

Lemma upsert_all_keeps (ps : list db_row) (t : list db_row) :
  incl (map key t) (map key (upsert_all ps t)) /\
  forall p, In p ps -> In (key p) (map key (upsert_all ps t)).
Proof.
  revert t. induction ps as [| q ps IH]; intros t; simpl.
  - split; [apply incl_refl | contradiction].
  - destruct (insert_on_duplicate_keeps q t) as [K1 K2].
    destruct (IH (fst (insert_on_duplicate q t))) as [I1 I2].
    unfold upsert_all in *. simpl. split.
    + eapply incl_tran; eauto.
    + intros p [<- | Hp]; [apply I1, K2 | apply I2, Hp].
Qed.

Section Isolation.

Variable env : Env.
Hypothesis available : store_available env.

Lemma kept_add_event (t0 : list db_row) (ev : event) (s : State) :
  kept t0 s -> kept t0 (add_event ev s).
Proof. intros [D I]. split; assumption. Qed.

Lemma kept_emit (t0 : list db_row) (ev : event) : stable (kept t0) (emit ev).
Proof. intros s K. now apply kept_add_event. Qed.

Lemma kept_exception_handling (t0 : list db_row) (e : exn) :
  stable (kept t0) (exception_handling e).
Proof.
  unfold exception_handling, log.
  repeat (apply stable_bind; [apply kept_emit | intros _]).
  apply kept_emit.
Qed.

Lemma kept_after_write (t0 : list db_row) (r : row) (p : db_row) (s : State) :
  kept t0 s -> kept t0 (after_write r p s).
Proof.
  intros [D I]. split.
  - now rewrite after_write_table, after_write_durable.
  - rewrite after_write_table. eapply incl_tran; [exact I |].
    apply insert_on_duplicate_keeps.
Qed.

(** With the server available, [insert_record] fails only on a
    parameter that does not convert, and then changes nothing. *)
Lemma insert_record_available (t0 : list db_row) (r : row) :
  hoare (kept t0) (insert_record env r)
    (fun res s => kept t0 s /\
                  forall e, res = Raise e -> is_Exception e = true).
Proof.
  intros s K. destruct available as [X C].
  destruct (bind_params r) as [p |] eqn:B.
  - rewrite (insert_record_writes env r p s B (X _ _) (C _)). simpl.
    split; [now apply kept_after_write | discriminate].
  - unfold insert_record, try_except, bind, cursor_execute. rewrite B.
    unfold conversion_error. destruct (pure_python_cursor env); simpl.
    + split; [| discriminate]. repeat apply kept_add_event. exact K.
    + split; [exact K |]. intros e E. injection E as <-. reflexivity.
Qed.

Lemma write_day_available (t0 : list db_row) (data : json) (mode : string)
      (d : json) :
  hoare (kept t0) (write_day env data mode d)
    (fun res s => kept t0 s /\
                  forall e, res = Raise e -> is_Exception e = true).
Proof.
  intros s K. unfold write_day, bind, eval.
  destruct (build_row data mode d) as [r | e] eqn:B; simpl.
  - apply insert_record_available. exact K.
  - split; [exact K |]. intros e' E. injection E as <-.
    eapply build_row_raises; eauto.
Qed.

(** Whatever the payload, [extract_and_write] returns normally. *)
Lemma extract_and_write_available (t0 : list db_row) (data : json)
      (mode : string) :
  hoare (kept t0) (extract_and_write env data mode)
    (fun res s => res = Ok tt /\ kept t0 s).
Proof.
  unfold extract_and_write.
  apply hoare_try_except
    with (R := fun res s => kept t0 s /\
                            forall e, res = Raise e -> is_Exception e = true).
  - apply hoare_bind
      with (R := fun res s => kept t0 s /\
                              forall e, res = Raise e -> is_Exception e = true).
    + intros s K. simpl. split; [exact K |].
      intros e E. eapply forecast_days_of_raises; eauto.
    + intros fd.
      apply hoare_bind
        with (R := fun res s => kept t0 s /\
                                forall e, res = Raise e -> is_Exception e = true).
      * intros s [K _]. simpl. split; [exact K |].
        intros e E. eapply iterate_raises; eauto.
      * intros days.
        apply hoare_conseq
          with (P' := kept t0)
               (Q' := fun res s => kept t0 s /\
                        forall e, res = Raise e -> is_Exception e = true);
          [| intros s [K _]; exact K | auto].
        apply hoare_for_each.
        -- intros d _ s K.
           destruct (write_day_available t0 data mode d s K) as [K' E'].
           unfold write_day in K', E'. cbv beta.
           destruct ((r <- eval (build_row data mode d);;
                      insert_record env r) s) as [res s1].
           simpl in *. destruct res; auto.
        -- intros s K. split; [exact K | discriminate].
      * intros e s [K Ex]. split; [exact K |].
        intros e0 E. injection E as <-. apply (Ex e eq_refl).
    + intros e s [K Ex]. split; [exact K |].
      intros e0 E. injection E as <-. apply (Ex e eq_refl).
  - intros [] s [K _]. auto.
  - intros e k E s [K _]. destruct (is_Exception e); [| discriminate].
    injection E as <-. simpl. split; [reflexivity |].
    repeat apply kept_add_event. exact K.
  - intros e s E [K Ex]. specialize (Ex e eq_refl).
    rewrite Ex in E. discriminate.
Qed.

(** A fetch that never meets an exception outside the tuple returns,
    with a payload or with [None], and does not touch the store. *)
Lemma wrapper_loop_never_propagates (url : string) (attempts : list nat) :
  never_propagates env url ->
  forall (d : Z) (s : State),
  exists v s',
    wrapper_loop (fetch_data_body env url) attempts d s = (Ok v, s') /\
    table s' = table s /\ durable s' = durable s.
Proof.
  intros N. induction attempts as [| a rest IH]; intros d s.
  - simpl. eexists _, _. split; [reflexivity |]. split; reflexivity.
  - destruct (attempt_outcome (http_get env (gets s) url)) as [v | e] eqn:O.
    + rewrite (wrapper_loop_returns env url a rest d s v O).
      eexists _, _. split; [reflexivity |]. split; reflexivity.
    + rewrite (wrapper_loop_retries env url a rest d s e O (N _ _ O)).
      match goal with
      | |- context [wrapper_loop _ rest ?dx ?sx] =>
          destruct (IH dx sx) as (v & s' & W & T & D)
      end.
      exists v, s'. split; [exact W |]. split; [exact T | exact D].
Qed.

Lemma fetch_data_answers (url : string) (data : json) (s : State) :
  answers env url data ->
  fetch_data env url s = (Ok data, after_get env url s).
Proof.
  intros A. apply wrapper_loop_returns. apply A.
Qed.

Lemma well_formed_truthy (data : json) (mode : string) (ps : list db_row) :
  well_formed data mode ps -> truthy data = true.
Proof.
  intros (fd & days & rs & F & _). unfold forecast_days_of in F.
  destruct data; simpl in F; try discriminate.
  destruct members; [discriminate | reflexivity].
Qed.

Lemma extract_and_write_well_formed (data : json) (mode : string)
      (ps : list db_row) (s : State) :
  well_formed data mode ps ->
  durable s = table s ->
  exists s',
    extract_and_write env data mode s = (Ok tt, s') /\
    durable s' = upsert_all ps (table s).
Proof.
  intros (fd & days & rs & F & I & G & P) D.
  exists (after_writes (combine rs ps) s). split.
  - apply extract_and_write_returns. unfold bind at 1 2, eval.
    rewrite F, I. rewrite <- (app_nil_r days).
    rewrite (for_each_days_written env data mode days rs ps available G P).
    reflexivity.
  - rewrite (after_writes_durable (combine rs ps) s D), after_writes_table.
    now rewrite (map_snd_combine rs ps P).
Qed.

Lemma isolated_unit_step (msg : log_msg) (url mode : string) :
  never_propagates env url ->
  isolated (unit_step env msg url mode) (good_unit env url mode).
Proof.
  intros N s D. unfold unit_step, bind at 1, log, emit.
  set (s1 := add_event (EvLog INFO msg) s).
  destruct (wrapper_loop_never_propagates url [1; 2; 3]%nat N 2 s1)
    as (v & s2 & W & T2 & D2).
  change (wrapper_loop (fetch_data_body env url) [1; 2; 3]%nat 2 s1)
    with (fetch_data env url s1) in W.
  assert (K2 : kept (table s) s2).
  { split; [rewrite T2, D2; exact D | rewrite T2; apply incl_refl]. }
  unfold bind. rewrite W.
  assert (R : exists s',
             (if truthy v then extract_and_write env v mode else ret tt) s2
             = (Ok tt, s') /\ kept (table s) s').
  { destruct (truthy v).
    - pose proof (extract_and_write_available (table s) v mode s2 K2) as [E K].
      destruct (extract_and_write env v mode s2) as [res s']. simpl in *.
      subst res. eauto.
    - exists s2. split; [reflexivity | exact K2]. }
  destruct R as (s' & R & K'). exists s'. split; [exact R |].
  split; [exact K' |].
  intros ps (data & A & Wf) p Hp.
  rewrite (fetch_data_answers url data s1 A) in W. injection W as <- <-.
  rewrite (well_formed_truthy data mode ps Wf) in R.
  destruct (extract_and_write_well_formed data mode ps
              (after_get env url s1) Wf D)
    as (s'' & R' & Du).
  rewrite R in R'. injection R' as <-. rewrite Du.
  now apply upsert_all_keeps.
Qed.

Lemma isolated_for_each (A : Type) (xs : list A) (body : A -> M unit)
      (good : A -> list db_row -> Prop) :
  (forall x, In x xs -> isolated (body x) (good x)) ->
  isolated (for_each xs body) (fun ps => exists x, In x xs /\ good x ps).
Proof.
  induction xs as [| x xs IH]; intros Hb s D; simpl.
  - exists s. split; [reflexivity |].
    split; [split; [exact D | apply incl_refl] |].
    intros ps (x & [] & _).
  - destruct (Hb x (or_introl eq_refl) s D) as (s1 & B & [D1 I1] & G1).
    destruct (IH (fun y Hy => Hb y (or_intror Hy)) s1 D1)
      as (s' & F & [D' I'] & G').
    exists s'. unfold bind. rewrite B. split; [exact F |].
    split; [split; [exact D' | eapply incl_tran; eauto] |].
    intros ps (y & [<- | Hy] & Gy) p Hp.
    + rewrite D'. apply I'. rewrite <- D1. now apply (G1 ps Gy).
    + apply (G' ps); eauto.
Qed.

End Isolation.

Lemma run_forecast_etl_isolated (env : Env) :
  store_available env ->
  (forall url, never_propagates env url) ->
  isolated (run_forecast_etl env)
    (fun ps => exists c, In c (cities env) /\
                         good_unit env (build_forecast_url env c) "forecast" ps).
Proof.
  intros A N.
  apply (isolated_for_each string (cities env)
           (fun city => unit_step env (MsgFetchingForecast city)
                          (build_forecast_url env city) "forecast")
           (fun c => good_unit env (build_forecast_url env c) "forecast")).
  intros c _. apply isolated_unit_step; auto.
Qed.

Lemma history_loops_isolated (env : Env) (today : Z) :
  store_available env ->
  (forall url, never_propagates env url) ->
  isolated
    (for_each [1; 2; 3]
       (fun i =>
          for_each (cities env)
            (fun city =>
               unit_step env
                 (MsgFetchingHistory city (strftime_Ymd (today - i)))
                 (build_history_url env city (strftime_Ymd (today - i)))
                 "history")))
    (fun ps => exists i, In i [1; 2; 3] /\
               exists c, In c (cities env) /\
                 good_unit env
                   (build_history_url env c (strftime_Ymd (today - i)))
                   "history" ps).
Proof.
  intros A N.
  apply (isolated_for_each Z [1; 2; 3]
           (fun i =>
              for_each (cities env)
                (fun city =>
                   unit_step env
                     (MsgFetchingHistory city (strftime_Ymd (today - i)))
                     (build_history_url env city (strftime_Ymd (today - i)))
                     "history"))
           (fun i ps => exists c, In c (cities env) /\
                          good_unit env
                            (build_history_url env c (strftime_Ymd (today - i)))
                            "history" ps)).
  intros i _.
  apply (isolated_for_each string (cities env)
           (fun city =>
              unit_step env
                (MsgFetchingHistory city (strftime_Ymd (today - i)))
                (build_history_url env city (strftime_Ymd (today - i)))
                "history")
           (fun c => good_unit env
                       (build_history_url env c (strftime_Ymd (today - i)))
                       "history")).
  intros c _. apply isolated_unit_step; auto.
Qed.

(** X21.  In a run where the store is available and no fetch ends in an
    exception outside the classes [retry] catches, the units do not
    disturb each other: whatever goes wrong in a unit, a fetch given up
    after its retries or a transform that fails, the run completes, and
    every unit whose URL is answered with a well-formed payload has a
    committed row with the date, location and type of each of its
    records.  The history units are those of the date the history pass
    reads, which is the date when the forecast pass has ended. *)
Theorem start_isolates_units (env : Env) (s : State) :
  store_available env ->
  durable s = table s ->
  (forall url, never_propagates env url) ->
  exists s',
    start env s = (Ok tt, s') /\
    (forall c ps,
        In c (cities env) ->
        good_unit env (build_forecast_url env c) "forecast" ps ->
        stores ps s') /\
    (forall i c ps,
        In i [1; 2; 3] -> In c (cities env) ->
        good_unit env
          (build_history_url env c
             (strftime_Ymd
                (clock (snd (run_forecast_etl env s)) / 86400 - i)))
          "history" ps ->
        stores ps s').
Proof.
  intros A D N.
  destruct (run_forecast_etl_isolated env A N s D) as (s1 & F & [D1 I1] & G1).
  destruct (history_loops_isolated env (clock s1 / 86400) A N s1 D1)
    as (s2 & H & [D2 I2] & G2).
  exists (add_event EvConnClose
            (set_open false false
               (settle (durable s2)
                  (add_event EvCursorClose
                     (set_open false (conn_open s2) s2))))).
  split.
  - unfold start, try_finally, bind at 1. rewrite F.
    rewrite run_history_etl_units, H. reflexivity.
  - rewrite F. cbn [snd]. split.
    + intros c ps Hc G p Hp. simpl.
      rewrite D2. apply I2. rewrite <- D1.
      apply (G1 ps); eauto.
    + intros i c ps Hi Hc G p Hp. simpl.
      apply (G2 ps); eauto.
Qed.

(** A served world propagates nothing when none of its answers does. *)
Lemma serve_never_propagates (ks : list string)
      (answers_of : list (string * http_result)) (url : string) :
  (forall kv, In kv answers_of ->
     forall e, attempt_outcome (snd kv) = Raise e -> retried e = true) ->
  never_propagates (quiet_env ks (serve answers_of)) url.
Proof.
  intros H n e. simpl. unfold serve.
  destruct (find (fun kv => String.eqb (fst kv) url) answers_of) as [kv |] eqn:F.
  - apply find_some in F as [I _]. now apply H.
  - simpl. intros E. injection E as <-. reflexivity.
Qed.

Lemma start_isolates_units_witness :
  exists s',
    start env_mixed_units (initial_state noon_on_2024_05_10 [])
    = (Ok tt, s') /\
    (forall c ps,
        In c ["Paris"; "Atlantis"; "Lyon"] ->
        good_unit env_mixed_units
          (build_forecast_url env_mixed_units c) "forecast" ps ->
        stores ps s') /\
    (forall i c ps,
        In i [1; 2; 3] -> In c ["Paris"; "Atlantis"; "Lyon"] ->
        good_unit env_mixed_units
          (build_history_url env_mixed_units c
             (strftime_Ymd
                (clock (snd (run_forecast_etl env_mixed_units
                               (initial_state noon_on_2024_05_10 [])))
                 / 86400 - i)))
          "history" ps ->
        stores ps s').
Proof.
  apply (start_isolates_units env_mixed_units
           (initial_state noon_on_2024_05_10 [])).
  - split; reflexivity.
  - reflexivity.
  - intros url. apply serve_never_propagates.
    intros kv [<- | [<- | [<- | [<- | []]]]] e; discriminate.
Defined.

(** In that run the forecast of the second location is given up after
    three attempts and the history of the first for 2024-05-09 fails in
    the transform; the forecasts of the first and the third and the
    history of the third are committed all the same. *)
Example mixed_units_are_stored :
  fst (start env_mixed_units (initial_state noon_on_2024_05_10 []))
  = Ok tt /\
  good_unit env_mixed_units
    (build_history_url env_mixed_units "Lyon"
       (strftime_Ymd
          (clock (snd (run_forecast_etl env_mixed_units
                         (initial_state noon_on_2024_05_10 [])))
           / 86400 - 1)))
    "history" [day_params "Lyon" "2024-05-09" 9 19 "HISTORY"] /\
  durable (snd (start env_mixed_units (initial_state noon_on_2024_05_10 [])))
  = [day_params "Paris" "2024-05-11" 11 20 "FORECAST";
     day_params "Lyon" "2024-05-11" 12 22 "FORECAST";
     day_params "Lyon" "2024-05-09" 9 19 "HISTORY"].
Proof.
  split; [vm_compute; reflexivity |]. split; [| vm_compute; reflexivity].
  exists lyon_history_payload. split.
  - intros n. vm_compute. reflexivity.
  - exists (JArr [day_block "2024-05-09" 9 19]),
           [day_block "2024-05-09" 9 19],
           [day_row "Lyon" "2024-05-09" 9 19 "HISTORY"].
    repeat split; repeat constructor.
Qed.

(** C3.  The claim fails on the code when the fetch of a unit ends in an
    exception that [retry] does not catch.  Three locations are
    configured and the forecast of the second is answered 200 with a body
    that is not JSON: [response.json()] raises, neither [wrapper] nor a
    pass catches it, and the run ends there.  The third location, whose
    URL would have been answered with a well-formed payload, is never
    requested and gets no row, and no history unit is attempted. *)
Lemma second_location_not_json_ends_run :
  cities env_second_not_json = ["Paris"; "Atlantis"; "Lyon"] /\
  http_get env_second_not_json 1
    "http://api.weatherapi.com/v1/forecast.json?key=KEY&q=Atlantis&days=3&aqi=yes&alerts=no"
  = GetResponse 200 None /\
  answers env_second_not_json
    "http://api.weatherapi.com/v1/forecast.json?key=KEY&q=Lyon&days=3&aqi=yes&alerts=no"
    lyon_payload /\
  well_formed lyon_payload "forecast"
    [day_params "Lyon" "2024-05-11" 12 22 "FORECAST"] /\
  fst (start env_second_not_json (initial_state noon_on_2024_05_10 []))
  = Raise JSONDecodeError /\
  requested (trace (snd (start env_second_not_json
                           (initial_state noon_on_2024_05_10 []))))
  = ["http://api.weatherapi.com/v1/forecast.json?key=KEY&q=Paris&days=3&aqi=yes&alerts=no";
     "http://api.weatherapi.com/v1/forecast.json?key=KEY&q=Atlantis&days=3&aqi=yes&alerts=no"] /\
  history_units (trace (snd (start env_second_not_json
                               (initial_state noon_on_2024_05_10 []))))
  = [] /\
  durable (snd (start env_second_not_json
                  (initial_state noon_on_2024_05_10 [])))
  = [day_params "Paris" "2024-05-11" 11 20 "FORECAST"].
Proof.
  split; [reflexivity |].
  split; [vm_compute; reflexivity |].
  split; [intros n; vm_compute; reflexivity |].
  split.
  - exists (JArr [day_block "2024-05-11" 12 22]),
            [day_block "2024-05-11" 12 22],
            [day_row "Lyon" "2024-05-11" 12 22 "FORECAST"].
    repeat split; repeat constructor.
  - repeat split; vm_compute; reflexivity.
Qed.

(* ================================================================== *)
(** * More of the script *)

(** ** Fetches that do not run out of attempts *)

Lemma executed_app (a b : list event) :
  executed (a ++ b) = executed a ++ executed b.
Proof.
  induction a as [| [] a IH]; simpl; congruence.
Qed.

(** After [k] retried failures, [k] below 3, the loop stands at attempt
    [k + 1] with the delay doubled [k] times; the trace has grown by [k]
    requests and the sleeps 2, 4, ... *)
Lemma wrapper_loop_after_failures (env : Env) (url : string) (s : State)
      (k : nat) :
  (k <= 2)%nat ->
  (forall j, (j < k)%nat ->
     exists e, attempt_outcome (http_get env (gets s + j) url) = Raise e /\
               retried e = true) ->
  exists s1,
    fetch_data env url s
    = wrapper_loop (fetch_data_body env url) (skipn k [1; 2; 3]%nat)
        (2 * 2 ^ Z.of_nat k) s1 /\
    gets s1 = (gets s + k)%nat /\
    requested (trace s1) = requested (trace s) ++ repeat url k /\
    sleeps (trace s1) = sleeps (trace s) ++ firstn k [2; 4; 8] /\
    table s1 = table s /\ durable s1 = durable s /\ db_calls s1 = db_calls s.
Proof.
  intros K H. unfold fetch_data, retry.
  destruct k as [| [| [| k]]]; [| | | lia].
  - exists s. rewrite Nat.add_0_r, !app_nil_r. repeat split.
  - destruct (H 0%nat) as (e0 & O0 & R0); [lia |].
    rewrite Nat.add_0_r in O0.
    rewrite wrapper_loop_retries with (e := e0); [| exact O0 | exact R0].
    eexists. split; [reflexivity |]. simpl.
    rewrite !requested_app, !sleeps_app. simpl. rewrite !app_nil_r.
    repeat split. lia.
  - destruct (H 0%nat) as (e0 & O0 & R0); [lia |].
    destruct (H 1%nat) as (e1 & O1 & R1); [lia |].
    rewrite Nat.add_0_r in O0. rewrite Nat.add_1_r in O1.
    rewrite wrapper_loop_retries with (e := e0); [| exact O0 | exact R0].
    rewrite wrapper_loop_retries with (e := e1); [| exact O1 | exact R1].
    eexists. split; [reflexivity |]. simpl.
    rewrite !requested_app, !sleeps_app. simpl.
    rewrite !app_nil_r, <- !app_assoc. simpl.
    repeat split. lia.
Qed.

(** X1.  A fetch whose first [k] attempts, [k] at most 2, fail with
    retried exceptions and whose next attempt is answered returns that
    payload: it has made [k + 1] requests, slept 2 and then 4 time-units
    after the failures, and has not touched the store. *)
Theorem fetch_data_recovers (env : Env) (url : string) (s : State)
        (k : nat) (v : json) :
  (k <= 2)%nat ->
  (forall j, (j < k)%nat ->
     exists e, attempt_outcome (http_get env (gets s + j) url) = Raise e /\
               retried e = true) ->
  attempt_outcome (http_get env (gets s + k) url) = Ok v ->
  exists s',
    fetch_data env url s = (Ok v, s') /\
    requested (trace s') = requested (trace s) ++ repeat url (S k) /\
    sleeps (trace s') = sleeps (trace s) ++ firstn k [2; 4; 8] /\
    table s' = table s /\ durable s' = durable s.
Proof.
  intros K H O.
  destruct (wrapper_loop_after_failures env url s k K H)
    as (s1 & F & G & R & Sl & T & D & _).
  rewrite <- G in O.
  assert (N : exists a rest, skipn k [1; 2; 3]%nat = a :: rest).
  { destruct k as [| [| [| k]]]; simpl; eauto. lia. }
  destruct N as (a & rest & N). rewrite N in F.
  rewrite (wrapper_loop_returns env url a rest _ s1 v O) in F.
  eexists. split; [exact F |]. simpl.
  rewrite requested_app, sleeps_app, R, Sl. simpl.
  rewrite app_nil_r, <- app_assoc.
  replace (repeat url k ++ [url]) with (repeat url (S k))
    by (rewrite <- repeat_cons; reflexivity).
  auto.
Qed.

Lemma fetch_data_recovers_witness :
  exists s',
    fetch_data env_second_attempt_answers "u" (initial_state 0 [])
    = (Ok paris_payload, s') /\
    requested (trace s') = requested (trace (initial_state 0 [])) ++ ["u"; "u"] /\
    sleeps (trace s') = sleeps (trace (initial_state 0 [])) ++ [2] /\
    table s' = [] /\ durable s' = [].
Proof.
  apply (fetch_data_recovers env_second_attempt_answers "u"
           (initial_state 0 []) 1 paris_payload).
  - lia.
  - intros j Hj. assert (j = 0%nat) as -> by lia.
    exists Timeout. split; reflexivity.
  - reflexivity.
Defined.

(** X2.  An exception outside the [except] tuple is never retried: when
    it comes after [k] retried failures, [k] at most 2, the fetch raises
    it to its caller at once, without a sleep after it and without
    another request. *)
Theorem fetch_data_raises_at_once (env : Env) (url : string) (s : State)
        (k : nat) (e : exn) :
  (k <= 2)%nat ->
  (forall j, (j < k)%nat ->
     exists e', attempt_outcome (http_get env (gets s + j) url) = Raise e' /\
                retried e' = true) ->
  attempt_outcome (http_get env (gets s + k) url) = Raise e ->
  retried e = false ->
  exists s',
    fetch_data env url s = (Raise e, s') /\
    requested (trace s') = requested (trace s) ++ repeat url (S k) /\
    sleeps (trace s') = sleeps (trace s) ++ firstn k [2; 4; 8] /\
    table s' = table s /\ durable s' = durable s.
Proof.
  intros K H O Re.
  destruct (wrapper_loop_after_failures env url s k K H)
    as (s1 & F & G & R & Sl & T & D & _).
  rewrite <- G in O.
  assert (N : exists a rest, skipn k [1; 2; 3]%nat = a :: rest).
  { destruct k as [| [| [| k]]]; simpl; eauto. lia. }
  destruct N as (a & rest & N). rewrite N in F.
  rewrite (wrapper_loop_propagates env url a rest _ s1 e O Re) in F.
  eexists. split; [exact F |]. simpl.
  rewrite requested_app, sleeps_app, R, Sl. simpl.
  rewrite app_nil_r, <- app_assoc.
  replace (repeat url k ++ [url]) with (repeat url (S k))
    by (rewrite <- repeat_cons; reflexivity).
  auto.
Qed.

Lemma fetch_data_raises_at_once_witness :
  exists s',
    fetch_data env_second_attempt_not_json "u" (initial_state 0 [])
    = (Raise JSONDecodeError, s') /\
    requested (trace s') = requested (trace (initial_state 0 [])) ++ ["u"; "u"] /\
    sleeps (trace s') = sleeps (trace (initial_state 0 [])) ++ [2] /\
    table s' = [] /\ durable s' = [].
Proof.
  apply (fetch_data_raises_at_once env_second_attempt_not_json "u"
           (initial_state 0 []) 1 JSONDecodeError).
  - lia.
  - intros j Hj. assert (j = 0%nat) as -> by lia.
    exists Timeout. split; reflexivity.
  - reflexivity.
  - reflexivity.
Defined.

(* ================================================================== *)
(** ** What a fetch and a run can cost *)

Lemma total_app (w : event -> Z) (a b : list event) :
  total w (a ++ b) = total w a + total w b.
Proof.
  induction a as [| ev a IH]; simpl; [reflexivity |].
  fold (total w (a ++ b)) (total w a). rewrite IH. ring.
Qed.

Lemma total_get_weight (evs : list event) :
  total get_weight evs = Z.of_nat (List.length (requested evs)).
Proof.
  induction evs as [| ev evs IH]; [reflexivity |].
  change (total get_weight (ev :: evs))
    with (get_weight ev + total get_weight evs).
  rewrite IH. destruct ev; simpl requested; simpl get_weight;
    try reflexivity.
  simpl List.length. lia.
Qed.

Lemma total_sleep_weight (evs : list event) :
  total sleep_weight evs = fold_right Z.add 0 (sleeps evs).
Proof.
  induction evs as [| ev evs IH]; [reflexivity |].
  change (total sleep_weight (ev :: evs))
    with (sleep_weight ev + total sleep_weight evs).
  rewrite IH. destruct ev; simpl; try reflexivity.
Qed.

(** Everything a call of the loop of [wrapper] does, whatever the
    answers: it sends between one request and one per attempt left, all to
    its URL, the clock moves by what it sleeps, which the doubling bounds,
    and by what its requests take, and the MySQL session is not used. *)
Lemma wrapper_loop_effects (env : Env) (url : string) (attempts : list nat) :
  forall (d : Z) (s : State),
    0 <= d ->
    exists evs n,
      trace (snd (wrapper_loop (fetch_data_body env url) attempts d s))
      = trace s ++ evs /\
      requested evs = repeat url n /\
      (n <= List.length attempts)%nat /\
      (attempts <> [] -> (1 <= n)%nat) /\
      0 <= total sleep_weight evs
        <= d * (2 ^ Z.of_nat (List.length attempts) - 1) /\
      clock (snd (wrapper_loop (fetch_data_body env url) attempts d s))
      = clock s + total sleep_weight evs + waited env url (gets s) n /\
      gets (snd (wrapper_loop (fetch_data_body env url) attempts d s))
      = (gets s + n)%nat /\
      executed evs = [] /\
      table (snd (wrapper_loop (fetch_data_body env url) attempts d s))
      = table s /\
      durable (snd (wrapper_loop (fetch_data_body env url) attempts d s))
      = durable s /\
      db_calls (snd (wrapper_loop (fetch_data_body env url) attempts d s))
      = db_calls s.
Proof.
  induction attempts as [| a rest IH]; intros d s D.
  - exists [EvLog ERROR MsgAllRetriesFailed], 0%nat. simpl.
    repeat split; try lia. congruence.
  - assert (P : 0 < 2 ^ Z.of_nat (List.length rest))
      by (apply Z.pow_pos_nonneg; lia).
    assert (E : 2 ^ Z.of_nat (List.length (a :: rest))
                = 2 * 2 ^ Z.of_nat (List.length rest)).
    { simpl List.length. rewrite Nat2Z.inj_succ, Z.pow_succ_r by lia.
      reflexivity. }
    assert (B : 0 <= d * (2 ^ Z.of_nat (List.length (a :: rest)) - 1) /\
                d + d * 2 * (2 ^ Z.of_nat (List.length rest) - 1)
                = d * (2 ^ Z.of_nat (List.length (a :: rest)) - 1))
      by (rewrite E; nia).
    set (bound := d * (2 ^ Z.of_nat (List.length (a :: rest)) - 1)) in *.
    clearbody bound. clear E.
    destruct (attempt_outcome (http_get env (gets s) url)) as [v | e] eqn:O.
    + rewrite (wrapper_loop_returns env url a rest d s v O).
      exists [EvGet url], 1%nat. simpl.
      repeat split; try lia.
    + destruct (retried e) eqn:R.
      * rewrite (wrapper_loop_retries env url a rest d s e O R).
        match goal with
        | |- context [wrapper_loop _ rest ?dx ?sx] =>
            destruct (IH dx sx) as
              (evs & n & T & Rq & Le & _ & Sl & Ck & Gs & Ex & Tb & Du & Db);
              [lia |]
        end.
        exists ([EvGet url; EvLog WARNING (MsgRetry a e d); EvSleep d] ++ evs),
               (S n).
        rewrite T, Ck, Gs, Tb, Du, Db. simpl.
        rewrite <- !app_assoc. simpl.
        fold (total sleep_weight evs).
        repeat split; try lia; try congruence.
      * rewrite (wrapper_loop_propagates env url a rest d s e O R).
        exists [EvGet url], 1%nat. simpl.
        repeat split; try lia.
Qed.

(** X3.  Whatever the network answers, one call of [fetch_data] sends at
    least one and at most three requests, all to its own URL, sleeps for
    at most 14 time-units in all, and sends nothing to the store; the
    clock moves by what the call sleeps and by what its requests take. *)
Theorem fetch_data_effects (env : Env) (url : string) (s : State) :
  exists evs n,
    trace (snd (fetch_data env url s)) = trace s ++ evs /\
    requested evs = repeat url n /\ (1 <= n <= 3)%nat /\
    0 <= fold_right Z.add 0 (sleeps evs) <= 14 /\
    clock (snd (fetch_data env url s))
    = clock s + fold_right Z.add 0 (sleeps evs) + waited env url (gets s) n /\
    executed evs = [] /\
    table (snd (fetch_data env url s)) = table s /\
    durable (snd (fetch_data env url s)) = durable s.
Proof.
  destruct (wrapper_loop_effects env url [1; 2; 3]%nat 2 s)
    as (evs & n & T & Rq & Le & Ge & Sl & Ck & _ & Ex & Tb & Du & _); [lia |].
  exists evs, n. rewrite <- total_sleep_weight.
  change (2 * (2 ^ Z.of_nat (List.length [1; 2; 3]%nat) - 1)) with 14 in Sl.
  simpl in Le. assert (1 <= n)%nat by (apply Ge; discriminate).
  unfold fetch_data, retry. repeat split; auto; lia.
Qed.

(** A fetch answered at its second attempt, each request taking one
    second: two requests, a sleep of 2, and four seconds on the clock. *)
Example fetch_data_second_attempt_clock :
  clock (snd (fetch_data env_second_attempt_answers "u"
                (initial_state late_on_2024_05_10 [])))
  = late_on_2024_05_10 + 2 + 2.
Proof. vm_compute. reflexivity. Qed.

Section Costs.

Variable w : event -> Z.

Lemma costs_weaken (A : Type) (m : M A) (k k' : Z) :
  costs w k m -> k <= k' -> costs w k' m.
Proof. intros C L s. specialize (C s). lia. Qed.

Lemma costs_ret (A : Type) (a : A) : costs w 0 (ret a).
Proof. intros s. simpl. lia. Qed.

Lemma costs_eval (A : Type) (r : result A) : costs w 0 (eval r).
Proof. intros s. simpl. lia. Qed.

Lemma costs_emit (ev : event) : costs w (w ev) (emit ev).
Proof.
  intros s. simpl. rewrite total_app. simpl. lia.
Qed.

Lemma costs_bind (A B : Type) (m : M A) (f : A -> M B) (k1 k2 : Z) :
  costs w k1 m -> (forall a, costs w k2 (f a)) -> 0 <= k2 ->
  costs w (k1 + k2) (bind m f).
Proof.
  intros C1 C2 K s. unfold bind. specialize (C1 s).
  destruct (m s) as [[a | e] s1]; simpl in *.
  - specialize (C2 a s1). lia.
  - lia.
Qed.

Lemma costs_try_except (A : Type) (m : M A) (h : exn -> option (M A))
      (k1 k2 : Z) :
  costs w k1 m -> (forall e k, h e = Some k -> costs w k2 k) -> 0 <= k2 ->
  costs w (k1 + k2) (try_except m h).
Proof.
  intros C1 C2 K s. unfold try_except. specialize (C1 s).
  destruct (m s) as [[a | e] s1]; simpl in *; [lia |].
  destruct (h e) as [k |] eqn:E; simpl; [| lia].
  specialize (C2 e k E s1). lia.
Qed.

Lemma costs_try_finally (A : Type) (m : M A) (f : M unit) (k1 k2 : Z) :
  costs w k1 m -> costs w k2 f -> costs w (k1 + k2) (try_finally m f).
Proof.
  intros C1 C2 s. unfold try_finally. specialize (C1 s).
  destruct (m s) as [r s1]. specialize (C2 s1).
  destruct (f s1) as [[[] | e] s2]; simpl in *; lia.
Qed.

Lemma costs_for_each (A : Type) (xs : list A) (body : A -> M unit) (k : Z) :
  (forall x, costs w k (body x)) -> 0 <= k ->
  costs w (k * Z.of_nat (List.length xs)) (for_each xs body).
Proof.
  intros C K. induction xs as [| x xs IH].
  - intros s. simpl. lia.
  - simpl for_each. simpl List.length. rewrite Nat2Z.inj_succ.
    replace (k * Z.succ (Z.of_nat (List.length xs)))
      with (k + k * Z.of_nat (List.length xs)) by ring.
    apply costs_bind; [apply C | intros _; exact IH |].
    apply Z.mul_nonneg_nonneg; lia.
Qed.

(** From here on [w] weighs nothing but requests and sleeps. *)
Hypothesis network_only :
  forall ev, match ev with
             | EvGet _ | EvSleep _ => True
             | _ => w ev = 0
             end.

Variable env : Env.

Lemma costs_log (lvl : level) (msg : log_msg) : costs w 0 (log lvl msg).
Proof.
  intros s. pose proof (costs_emit (EvLog lvl msg) s) as C.
  pose proof (network_only (EvLog lvl msg)) as N. simpl in N.
  rewrite N in C. exact C.
Qed.

Lemma costs_exception_handling (e : exn) : costs w 0 (exception_handling e).
Proof.
  unfold exception_handling.
  apply (costs_bind unit unit _ _ 0 0); [apply costs_log | intros _ | lia].
  apply (costs_bind unit unit _ _ 0 0); [apply costs_log | intros _ | lia].
  apply costs_log.
Qed.

Lemma costs_cursor_execute (r : row) : costs w 0 (cursor_execute env r).
Proof.
  intros s. unfold cursor_execute.
  destruct (bind_params r) as [p |]; [| simpl; lia].
  pose proof (network_only (EvExecute p)) as N. simpl in N.
  destruct (execute_fault env (db_calls s) p); simpl;
    rewrite total_app; simpl; lia.
Qed.

Lemma costs_conn_commit : costs w 0 (conn_commit env).
Proof.
  intros s. unfold conn_commit.
  pose proof (network_only EvCommit) as N. simpl in N.
  destruct (commit_fault env (db_calls s)); simpl;
    rewrite total_app; simpl; lia.
Qed.

Lemma costs_insert_record (r : row) : costs w 0 (insert_record env r).
Proof.
  unfold insert_record.
  apply (costs_try_except unit _ _ 0 0); [| | lia].
  - apply (costs_bind unit unit _ _ 0 0);
      [apply costs_cursor_execute | intros _ | lia].
    apply (costs_bind unit unit _ _ 0 0);
      [apply costs_conn_commit | intros _ | lia].
    apply (costs_bind Z unit _ _ 0 0); [intros s; simpl; lia | intros n | lia].
    destruct (n =? 1); apply costs_log.
  - intros e k E. destruct (is_mysql_error e); [| discriminate].
    injection E as <-.
    apply (costs_bind unit unit _ _ 0 0); [apply costs_log | intros _ | lia].
    apply costs_exception_handling.
Qed.

Lemma costs_extract_and_write (data : json) (mode : string) :
  costs w 0 (extract_and_write env data mode).
Proof.
  unfold extract_and_write.
  apply (costs_try_except unit _ _ 0 0); [| | lia].
  - apply (costs_bind json unit _ _ 0 0); [apply costs_eval | intros fd | lia].
    apply (costs_bind (list json) unit _ _ 0 0);
      [apply costs_eval | intros days | lia].
    apply (costs_weaken unit _ (0 * Z.of_nat (List.length days))); [| lia].
    apply costs_for_each; [| lia]. intros d.
    apply (costs_bind row unit _ _ 0 0); [apply costs_eval | intros r | lia].
    apply costs_insert_record.
  - intros e k E. destruct (is_Exception e); [| discriminate].
    injection E as <-.
    apply (costs_bind unit unit _ _ 0 0); [apply costs_log | intros _ | lia].
    apply costs_exception_handling.
Qed.

Lemma costs_close_connection : costs w 0 close_connection.
Proof.
  intros s. unfold close_connection, bind, cursor_close, conn_close. simpl.
  rewrite !total_app. simpl.
  pose proof (network_only EvCursorClose) as N1.
  pose proof (network_only EvConnClose) as N2. simpl in N1, N2.
  lia.
Qed.

(** [kf] bounds what one fetch adds. *)
Variable kf : Z.
Hypothesis kf_nonneg : 0 <= kf.
Hypothesis fetch_costs : forall url, costs w kf (fetch_data env url).

Lemma costs_unit_step (msg : log_msg) (url mode : string) :
  costs w kf (unit_step env msg url mode).
Proof.
  unfold unit_step.
  replace kf with (0 + (kf + 0)) by ring.
  apply costs_bind; [apply costs_log | intros _ | lia].
  apply costs_bind; [apply fetch_costs | intros data | lia].
  destruct (truthy data); [apply costs_extract_and_write | apply costs_ret].
Qed.

Lemma costs_start :
  costs w (4 * kf * Z.of_nat (List.length (cities env))) (start env).
Proof.
  unfold start.
  replace (4 * kf * Z.of_nat (List.length (cities env)))
    with ((kf * Z.of_nat (List.length (cities env))
           + (0 + kf * Z.of_nat (List.length (cities env))
                  * Z.of_nat (List.length [1; 2; 3]))) + 0)
    by (simpl List.length; lia).
  assert (N : 0 <= kf * Z.of_nat (List.length (cities env)))
    by (apply Z.mul_nonneg_nonneg; lia).
  apply costs_try_finally; [| apply costs_close_connection].
  apply costs_bind.
  - apply (costs_for_each string (cities env)
             (fun city => unit_step env (MsgFetchingForecast city)
                            (build_forecast_url env city) "forecast")).
    + intros c. apply costs_unit_step.
    + exact kf_nonneg.
  - intros _. unfold run_history_etl.
    apply costs_bind; [intros s; simpl; lia | intros today |].
    + apply costs_for_each; [| exact N]. intros i.
      apply (costs_for_each string (cities env)
               (fun city =>
                  unit_step env
                    (MsgFetchingHistory city (strftime_Ymd (today - i)))
                    (build_history_url env city (strftime_Ymd (today - i)))
                    "history")).
      * intros c. apply costs_unit_step.
      * exact kf_nonneg.
    + simpl List.length. lia.
  - simpl List.length. lia.
Qed.

End Costs.

Lemma fetch_data_costs_gets (env : Env) (url : string) :
  costs get_weight 3 (fetch_data env url).
Proof.
  intros s.
  destruct (wrapper_loop_effects env url [1; 2; 3]%nat 2 s)
    as (evs & n & T & Rq & Le & _); [lia |].
  unfold fetch_data, retry. rewrite T, total_app, (total_get_weight evs), Rq.
  rewrite repeat_length. simpl in Le. lia.
Qed.

Lemma fetch_data_costs_sleeps (env : Env) (url : string) :
  costs sleep_weight 14 (fetch_data env url).
Proof.
  intros s.
  destruct (wrapper_loop_effects env url [1; 2; 3]%nat 2 s)
    as (evs & n & T & _ & _ & _ & Sl & _); [lia |].
  unfold fetch_data, retry. rewrite T, total_app.
  change (2 * (2 ^ Z.of_nat (List.length [1; 2; 3]%nat) - 1)) with 14 in Sl.
  lia.
Qed.

(** X4.  A whole run, with [n] locations configured, sends at most
    [12 * n] requests and blocks for at most [56 * n] time-units in its
    retries, whatever the network and the store do: four units for each
    location, three attempts and 14 time-units for each unit. *)
Theorem start_cost_bound (env : Env) (s : State) :
  Z.of_nat (List.length (requested (trace (snd (start env s)))))
  <= Z.of_nat (List.length (requested (trace s)))
     + 12 * Z.of_nat (List.length (cities env)) /\
  fold_right Z.add 0 (sleeps (trace (snd (start env s))))
  <= fold_right Z.add 0 (sleeps (trace s))
     + 56 * Z.of_nat (List.length (cities env)).
Proof.
  split.
  - rewrite <- !total_get_weight.
    pose proof (costs_start get_weight (fun ev => match ev with
                                                  | EvGet _ => I
                                                  | EvSleep _ => I
                                                  | _ => eq_refl
                                                  end)
                  env 3 ltac:(lia) (fetch_data_costs_gets env) s) as C.
    lia.
  - rewrite <- !total_sleep_weight.
    pose proof (costs_start sleep_weight (fun ev => match ev with
                                                    | EvGet _ => I
                                                    | EvSleep _ => I
                                                    | _ => eq_refl
                                                    end)
                  env 14 ltac:(lia) (fetch_data_costs_sleeps env) s) as C.
    lia.
Qed.

(** With one location and every request timing out the bound is met. *)
Example start_cost_bound_is_met :
  List.length (requested (trace (snd (start env_timeout (initial_state 0 [])))))
  = 12%nat /\
  fold_right Z.add 0 (sleeps (trace (snd (start env_timeout
                                            (initial_state 0 [])))))
  = 56.
Proof. split; vm_compute; reflexivity. Qed.

(* ================================================================== *)
(** ** What one write can change *)



Lemma on_duplicate_key_update_identity (p : db_row) (t t' : list db_row)
      (n : Z) :
  on_duplicate_key_update p t = Some (t', n) ->
  map identity t' = map identity t.
Proof.
  revert t' n. induction t as [| r t IH]; simpl; intros t' n H; [discriminate |].
  destruct (duplicate_key p r).
  - injection H as <- _. reflexivity.
  - destruct (on_duplicate_key_update p t) as [[t0 n0] |]; [| discriminate].
    injection H as <- _. simpl. f_equal. eauto.
Qed.





(** There the row of Paris takes the new readings and keeps its country,
    and the row of Lyon is as it was. *)
Example insert_record_frame_two_rows :
  table (snd (insert_record env_quiet paris_again two_rows_state))
  = [update_row paris_stored paris_again_params; lyon_stored] /\
  country (update_row paris_stored paris_again_params) = SStr "France" /\
  max_temp (update_row paris_stored paris_again_params) = SNum (Q2Qc 23).
Proof. repeat split; vm_compute; reflexivity. Qed.

Lemma on_duplicate_key_update_count (p : db_row) (t t' : list db_row) (n : Z) :
  on_duplicate_key_update p t = Some (t', n) ->
  (n = 0 \/ n = 2) /\ List.length t' = List.length t.
Proof.
  revert t' n. induction t as [| r t IH]; simpl; intros t' n H; [discriminate |].
  destruct (duplicate_key p r).
  - injection H as <- <-. split; [| reflexivity].
    destruct (same_mutable r p); auto.
  - destruct (on_duplicate_key_update p t) as [[t0 n0] |]; [| discriminate].
    injection H as <- <-. destruct (IH t0 n0 eq_refl) as [A B].
    split; [exact A | simpl; congruence].
Qed.

(** X6.  When the store carries out the write, what [insert_record] logs
    tells what happened.  Either the record has been appended as a new
    row and the write is logged as a new row, or no row has been added,
    the rows keep their dates, locations, types and countries, and the
    write is logged as an update.  In both cases nothing is left
    uncommitted. *)
Theorem insert_record_reports (env : Env) (r : row) (p : db_row) (s : State) :
  store_available env ->
  bind_params r = Some p ->
  exists s',
    insert_record env r s = (Ok tt, s') /\
    durable s' = table s' /\
    ((table s' = table s ++ [p] /\
      trace s' = trace s ++
        [EvExecute p; EvCommit;
         EvLog INFO (MsgWrote (Location r) (Date r) (Type_ r))]) \/
     (List.length (table s') = List.length (table s) /\
      map identity (table s') = map identity (table s) /\
      trace s' = trace s ++
        [EvExecute p; EvCommit;
         EvLog INFO (MsgUpdated (Location r) (Date r) (Type_ r))])).
Proof.
  intros [X C] B. exists (after_write r p s).
  split; [apply insert_record_writes; auto |].
  split; [reflexivity |].
  rewrite after_write_table, after_write_trace. unfold insert_on_duplicate.
  destruct (on_duplicate_key_update p (table s)) as [[t' n] |] eqn:E.
  - right. simpl.
    destruct (on_duplicate_key_update_count p (table s) t' n E) as [[-> | ->] L];
      (split; [exact L |]; split;
       [exact (on_duplicate_key_update_identity p (table s) t' _ E)
       | reflexivity]).
  - left. simpl. auto.
Qed.

(** Paris is stored and written again, with other readings. *)
Lemma insert_record_reports_witness :
  exists s',
    insert_record env_quiet paris_again two_rows_state = (Ok tt, s') /\
    durable s' = table s' /\
    ((table s' = table two_rows_state ++ [paris_again_params] /\
      trace s' = trace two_rows_state ++
        [EvExecute paris_again_params; EvCommit;
         EvLog INFO (MsgWrote (JStr "Paris") (JStr "2024-05-01") "FORECAST")]) \/
     (List.length (table s') = List.length (table two_rows_state) /\
      map identity (table s') = map identity (table two_rows_state) /\
      trace s' = trace two_rows_state ++
        [EvExecute paris_again_params; EvCommit;
         EvLog INFO (MsgUpdated (JStr "Paris") (JStr "2024-05-01") "FORECAST")])).
Proof.
  apply (insert_record_reports env_quiet paris_again paris_again_params
           two_rows_state).
  - split; reflexivity.
  - reflexivity.
Defined.

(** There the write is an update; into an empty table it is a new row. *)
Example insert_record_reports_both :
  trace (snd (insert_record env_quiet paris_again two_rows_state))
  = [EvExecute paris_again_params; EvCommit;
     EvLog INFO (MsgUpdated (JStr "Paris") (JStr "2024-05-01") "FORECAST")] /\
  trace (snd (insert_record env_quiet paris_again
                (initial_state noon_on_2024_05_10 [])))
  = [EvExecute paris_again_params; EvCommit;
     EvLog INFO (MsgWrote (JStr "Paris") (JStr "2024-05-01") "FORECAST")].
Proof. split; vm_compute; reflexivity. Qed.

(* ================================================================== *)
(** ** A refused statement does not stop the batch *)

(** When the session raises nothing but [mysql.connector.Error], a
    record that converts is sent and [insert_record] returns. *)
Lemma insert_record_swallows (env : Env) (r : row) (p : db_row) (s : State) :
  mysql_faults_only env ->
  bind_params r = Some p ->
  exists evs,
    fst (insert_record env r s) = Ok tt /\
    trace (snd (insert_record env r s)) = trace s ++ evs /\
    executed evs = [p] /\
    extract_errors evs = [].
Proof.
  intros [X C] B.
  unfold insert_record, try_except, bind, cursor_execute, conn_commit,
    cursor_rowcount.
  rewrite B.
  destruct (execute_fault env (db_calls s) p) as [e |] eqn:Ex; simpl.
  - rewrite (X _ _ _ Ex). simpl. rewrite <- !app_assoc. simpl.
    eexists. split; [reflexivity |]. split; [reflexivity |]. auto.
  - destruct (commit_fault env (S (db_calls s))) as [e |] eqn:Cx; simpl.
    + rewrite (C _ _ Cx). simpl. rewrite <- !app_assoc. simpl.
      eexists. split; [reflexivity |]. split; [reflexivity |]. auto.
    + destruct (snd (insert_on_duplicate p (table s)) =? 1); simpl;
        rewrite <- !app_assoc; simpl;
        (eexists; split; [reflexivity |]; split; [reflexivity |]; auto).
Qed.

Lemma for_each_days_attempted (env : Env) (data : json) (mode : string)
      (days : list json) (rs : list row) (ps : list db_row) :
  mysql_faults_only env ->
  Forall2 (fun d r => build_row data mode d = Ok r) days rs ->
  Forall2 (fun r p => bind_params r = Some p) rs ps ->
  forall s,
  exists evs,
    fst (for_each days (write_day env data mode) s) = Ok tt /\
    trace (snd (for_each days (write_day env data mode) s)) = trace s ++ evs /\
    executed evs = ps /\
    extract_errors evs = [].
Proof.
  intros M F. revert ps.
  induction F as [| d r days rs B F IH]; intros ps P s.
  - inversion P; subst. exists []. simpl. rewrite app_nil_r. auto.
  - inversion P as [| r' p rs' ps' Bp P']; subst.
    destruct (insert_record_swallows env r p s M Bp) as (e1 & O1 & T1 & X1 & E1).
    assert (W : write_day env data mode d s = insert_record env r s)
      by (unfold write_day, bind, eval; rewrite B; reflexivity).
    change (for_each (d :: days) (write_day env data mode) s)
      with (bind (write_day env data mode d)
              (fun _ => for_each days (write_day env data mode)) s).
    unfold bind. rewrite W.
    destruct (insert_record env r s) as [[[] | e] s1]; [| discriminate].
    simpl in T1.
    destruct (IH ps' P' s1) as (e2 & O2 & T2 & X2 & E2).
    exists (e1 ++ e2). split; [exact O2 |].
    split; [rewrite T2, T1; now rewrite app_assoc |].
    rewrite executed_app, extract_errors_app, X1, X2, E1, E2. auto.
Qed.

(** X7.  A persistence error on one record does not abort the batch: when
    the session raises nothing but [mysql.connector.Error], the
    transform of a well-formed payload returns normally, sends one
    statement for every day of the payload, in the order of the days, and
    logs no transform failure. *)
Theorem extract_and_write_attempts_every_day
        (env : Env) (data : json) (mode : string) (ps : list db_row)
        (s : State) :
  mysql_faults_only env ->
  well_formed data mode ps ->
  exists evs,
    fst (extract_and_write env data mode s) = Ok tt /\
    trace (snd (extract_and_write env data mode s)) = trace s ++ evs /\
    executed evs = ps /\
    extract_errors evs = [].
Proof.
  intros M (fd & days & rs & F & I & G & P).
  destruct (for_each_days_attempted env data mode days rs ps M G P s)
    as (evs & O & T & X & E).
  assert (R : (fd' <- eval (forecast_days_of data) ;;
               days' <- eval (iterate fd') ;;
               for_each days' (write_day env data mode)) s
              = (Ok tt, snd (for_each days (write_day env data mode) s))).
  { unfold bind at 1 2, eval. rewrite F, I.
    destruct (for_each days (write_day env data mode) s) as [[[] | e] s1];
      [reflexivity | discriminate]. }
  rewrite (extract_and_write_returns env data mode s _ R).
  exists evs. auto.
Qed.

Lemma extract_and_write_attempts_every_day_witness :
  exists evs,
    fst (extract_and_write env_first_statement_refused two_days_payload
           "forecast" (initial_state 0 [])) = Ok tt /\
    trace (snd (extract_and_write env_first_statement_refused two_days_payload
                  "forecast" (initial_state 0 [])))
    = trace (initial_state 0 []) ++ evs /\
    executed evs
    = [day_params "Paris" "2024-05-01" 11 20 "FORECAST";
       day_params "Paris" "2024-05-02" 12 21 "FORECAST"] /\
    extract_errors evs = [].
Proof.
  apply (extract_and_write_attempts_every_day env_first_statement_refused
           two_days_payload "forecast"
           [day_params "Paris" "2024-05-01" 11 20 "FORECAST";
            day_params "Paris" "2024-05-02" 12 21 "FORECAST"]
           (initial_state 0 [])).
  - split.
    + intros [| n] p e H; simpl in H; [injection H as <-; reflexivity |].
      discriminate.
    + intros n e H. discriminate.
  - exists (JArr [day_block "2024-05-01" 11 20; day_block "2024-05-02" 12 21]),
           [day_block "2024-05-01" 11 20; day_block "2024-05-02" 12 21],
           [day_row "Paris" "2024-05-01" 11 20 "FORECAST";
            day_row "Paris" "2024-05-02" 12 21 "FORECAST"].
    repeat split; repeat constructor.
Defined.

(** In that world the first day is refused and skipped, the second is
    committed. *)
Example first_statement_refused :
  durable (snd (extract_and_write env_first_statement_refused two_days_payload
                  "forecast" (initial_state 0 [])))
  = [day_params "Paris" "2024-05-02" 12 21 "FORECAST"].
Proof. reflexivity. Qed.

(* ================================================================== *)
(** ** The row of a day *)

(** Where each field of a row comes from. *)
Lemma build_row_fields (data : json) (mode : string) (d : json) (r : row) :
  build_row data mode d = Ok r ->
  exists day loc cur aq,
    getitem d "day" = Ok day /\
    getitem d "date" = Ok (Date r) /\
    getitem data "location" = Ok loc /\
    getitem loc "name" = Ok (Location r) /\
    getitem loc "country" = Ok (Country r) /\
    getitem day "mintemp_c" = Ok (Min_Temp r) /\
    getitem day "maxtemp_c" = Ok (Max_Temp r) /\
    getitem day "avghumidity" = Ok (Humidity r) /\
    dict_get data "current" (JObj []) = Ok cur /\
    dict_get cur "air_quality" (JObj []) = Ok aq /\
    dict_get aq "co" (JStr "N/A") = Ok (Air_Quality r) /\
    Type_ r = upper mode.
Proof.
  unfold build_row. intros H.
  destruct (getitem d "day") as [day |] eqn:G1; simpl in H; [| discriminate].
  destruct (getitem d "date") as [dt |] eqn:G2; simpl in H; [| discriminate].
  destruct (getitem data "location") as [loc |] eqn:G3; simpl in H; [| discriminate].
  destruct (getitem loc "name") as [nm |] eqn:G4; simpl in H; [| discriminate].
  destruct (getitem loc "country") as [ct |] eqn:G5; simpl in H; [| discriminate].
  destruct (getitem day "mintemp_c") as [mn |] eqn:G6; simpl in H; [| discriminate].
  destruct (getitem day "maxtemp_c") as [mx |] eqn:G7; simpl in H; [| discriminate].
  destruct (getitem day "avghumidity") as [hm |] eqn:G8; simpl in H; [| discriminate].
  destruct (dict_get data "current" (JObj [])) as [cur |] eqn:Cu; simpl in H;
    [| discriminate].
  destruct (dict_get cur "air_quality" (JObj [])) as [aq |] eqn:A; simpl in H;
    [| discriminate].
  destruct (dict_get aq "co" (JStr "N/A")) as [co |] eqn:C; simpl in H;
    [| discriminate].
  injection H as <-. simpl. exists day, loc, cur, aq. repeat split; auto.
Qed.

(** X8.  The air-quality fallback: a row built from a payload that has no
    CO reading, because the [current] block, its [air_quality] block or
    the [co] member is missing, carries the marker ["N/A"] as its air
    quality. *)
Theorem build_row_air_quality_fallback
        (m : list (string * json)) (mode : string) (d : json) (r : row) :
  build_row (JObj m) mode d = Ok r ->
  lacks_co m ->
  Air_Quality r = JStr "N/A".
Proof.
  intros H L.
  destruct (build_row_fields (JObj m) mode d r H)
    as (day & loc & cur & aq & _ & _ & _ & _ & _ & _ & _ & _ & Cu & Aq & Co & _).
  simpl in Cu.
  destruct L as [L | (c & L & [L' | (a & L' & L'')])]; rewrite L in Cu;
    injection Cu as <-; simpl in Aq.
  - injection Aq as <-. simpl in Co. congruence.
  - rewrite L' in Aq. injection Aq as <-. simpl in Co. congruence.
  - rewrite L' in Aq. injection Aq as <-. simpl in Co. rewrite L'' in Co.
    congruence.
Qed.

Lemma build_row_air_quality_fallback_witness :
  Air_Quality (day_row "Paris" "2024-05-11" 11 20 "FORECAST") = JStr "N/A".
Proof.
  apply (build_row_air_quality_fallback
           [("location", JObj [("name", JStr "Paris"); ("country", JStr "France")]);
            ("forecast", JObj [("forecastday", JArr [day_block "2024-05-11" 11 20])])]
           "forecast" (day_block "2024-05-11" 11 20)).
  - reflexivity.
  - left. reflexivity.
Defined.

(** X9.  All the rows of one payload share what is read from the payload
    itself rather than from the day: the location, the country, the air
    quality and the type. *)
Theorem build_row_shared_fields
        (data : json) (mode : string) (d1 d2 : json) (r1 r2 : row) :
  build_row data mode d1 = Ok r1 ->
  build_row data mode d2 = Ok r2 ->
  Location r1 = Location r2 /\ Country r1 = Country r2 /\
  Air_Quality r1 = Air_Quality r2 /\ Type_ r1 = Type_ r2.
Proof.
  intros H1 H2.
  destruct (build_row_fields data mode d1 r1 H1)
    as (day1 & loc1 & cur1 & aq1 & _ & _ & L1 & N1 & C1 & _ & _ & _
        & Cu1 & Aq1 & Co1 & T1).
  destruct (build_row_fields data mode d2 r2 H2)
    as (day2 & loc2 & cur2 & aq2 & _ & _ & L2 & N2 & C2 & _ & _ & _
        & Cu2 & Aq2 & Co2 & T2).
  assert (loc1 = loc2) by congruence. subst loc2.
  assert (cur1 = cur2) by congruence. subst cur2.
  assert (aq1 = aq2) by congruence. subst aq2.
  repeat split; congruence.
Qed.

Lemma build_row_shared_fields_witness :
  Location (day_row "Paris" "2024-05-01" 11 20 "FORECAST")
  = Location (day_row "Paris" "2024-05-02" 12 21 "FORECAST") /\
  Country (day_row "Paris" "2024-05-01" 11 20 "FORECAST")
  = Country (day_row "Paris" "2024-05-02" 12 21 "FORECAST") /\
  Air_Quality (day_row "Paris" "2024-05-01" 11 20 "FORECAST")
  = Air_Quality (day_row "Paris" "2024-05-02" 12 21 "FORECAST") /\
  Type_ (day_row "Paris" "2024-05-01" 11 20 "FORECAST")
  = Type_ (day_row "Paris" "2024-05-02" 12 21 "FORECAST").
Proof.
  apply (build_row_shared_fields two_days_payload "forecast"
           (day_block "2024-05-01" 11 20) (day_block "2024-05-02" 12 21)).
  - reflexivity.
  - reflexivity.
Defined.

(** When no day of the payload yields a row, nothing is sent to the
    store. *)
Lemma extract_and_write_no_row (env : Env) (data : json) (mode : string)
      (s : State) :
  (forall d, exists e, build_row data mode d = Raise e) ->
  exists s',
    extract_and_write env data mode s = (Ok tt, s') /\
    table s' = table s /\ durable s' = durable s /\ db_calls s' = db_calls s.
Proof.
  intros H.
  destruct (forecast_days_of data) as [fd | e] eqn:F.
  - destruct (iterate fd) as [[| d ds] | e] eqn:I.
    + exists s. split; [| auto].
      apply extract_and_write_returns. unfold bind, eval. rewrite F, I.
      reflexivity.
    + destruct (H d) as [e B].
      exists (after_extract_error mode e s). split; [| auto].
      apply extract_and_write_catches.
      * unfold bind at 1 2, eval. rewrite F, I. simpl.
        unfold bind, write_day at 1, bind, eval. rewrite B. reflexivity.
      * eapply build_row_raises; eauto.
    + exists (after_extract_error mode e s). split; [| auto].
      apply extract_and_write_catches.
      * unfold bind, eval. rewrite F, I. reflexivity.
      * eapply iterate_raises; eauto.
  - exists (after_extract_error mode e s). split; [| auto].
    apply extract_and_write_catches.
    + unfold bind, eval. rewrite F. reflexivity.
    + eapply forecast_days_of_raises; eauto.
Qed.

(** X10.  The fallback covers a missing block only.  When the payload
    has a [current] member that is not an object, a null for one, no day
    yields a row: the transform writes nothing of the payload and returns
    normally. *)
Theorem extract_and_write_current_not_object
        (env : Env) (m : list (string * json)) (c : json) (mode : string)
        (s : State) :
  lookup "current" m = Some c ->
  is_dict c = false ->
  (forall d, exists e, build_row (JObj m) mode d = Raise e) /\
  exists s',
    extract_and_write env (JObj m) mode s = (Ok tt, s') /\
    table s' = table s /\ durable s' = durable s /\ db_calls s' = db_calls s.
Proof.
  intros L D.
  assert (R : forall d, exists e, build_row (JObj m) mode d = Raise e).
  { intros d. destruct (build_row (JObj m) mode d) as [r |] eqn:B; [| eauto].
    destruct (build_row_fields (JObj m) mode d r B)
      as (day & loc & cur & aq & _ & _ & _ & _ & _ & _ & _ & _ & Cu & Aq & _).
    simpl in Cu. rewrite L in Cu. injection Cu as <-.
    destruct c; simpl in *; discriminate. }
  split; [exact R |]. now apply extract_and_write_no_row.
Qed.

Lemma extract_and_write_current_not_object_witness :
  (forall d, exists e, build_row payload_null_current "forecast" d = Raise e) /\
  exists s',
    extract_and_write env_quiet payload_null_current "forecast"
      (initial_state 0 []) = (Ok tt, s') /\
    table s' = [] /\ durable s' = [] /\ db_calls s' = 0%nat.
Proof.
  apply (extract_and_write_current_not_object env_quiet
           [("location", JObj [("name", JStr "Paris"); ("country", JStr "France")]);
            ("current", JNull);
            ("forecast", JObj [("forecastday", JArr [day_block "2024-05-01" 11 20])])]
           JNull "forecast" (initial_state 0 [])).
  - reflexivity.
  - reflexivity.
Defined.

(* ================================================================== *)
(** ** Properties of the store that a run keeps *)

Section StoreInvariant.

(** A property [J] of the session's view and of the committed table that
    the statement keeps for the rows [okr], and that a commit and a close
    keep. *)
Variable J : list db_row -> list db_row -> Prop.
Variable okr : row -> Prop.

Hypothesis J_execute :
  forall r p t d,
    okr r -> bind_params r = Some p -> J t d ->
    J (fst (insert_on_duplicate p t)) d.
Hypothesis J_commit : forall t d, J t d -> J t t.
Hypothesis J_close : forall t d, J t d -> J d d.

Variable env : Env.

Local Notation "'inv'" := (fun s : State => J (table s) (durable s)).

Lemma inv_emit (ev : event) : stable inv (emit ev).
Proof. intros s H. exact H. Qed.

Lemma inv_exception_handling (e : exn) : stable inv (exception_handling e).
Proof. intros s H. exact H. Qed.

Lemma inv_cursor_execute (r : row) : okr r -> stable inv (cursor_execute env r).
Proof.
  intros O s H. unfold cursor_execute.
  destruct (bind_params r) as [p |] eqn:B; [| exact H].
  destruct (execute_fault env (db_calls s) p); simpl; [exact H |].
  now apply (J_execute r).
Qed.

Lemma inv_conn_commit : stable inv (conn_commit env).
Proof.
  intros s H. unfold conn_commit.
  destruct (commit_fault env (db_calls s)); simpl; [exact H |].
  now apply (J_commit _ (durable s)).
Qed.

Lemma inv_insert_record (r : row) : okr r -> stable inv (insert_record env r).
Proof.
  intros O. unfold insert_record. apply stable_try_except.
  - apply stable_bind; [now apply inv_cursor_execute | intros _].
    apply stable_bind; [apply inv_conn_commit | intros _].
    apply stable_bind; [intros s H; exact H | intros n].
    apply stable_if; apply inv_emit.
  - intros e k E. destruct (is_mysql_error e); [| discriminate].
    injection E as <-.
    apply stable_bind; [apply inv_emit | intros _].
    apply inv_exception_handling.
Qed.

Lemma inv_extract_and_write (data : json) (mode : string) :
  (forall d r, build_row data mode d = Ok r -> okr r) ->
  stable inv (extract_and_write env data mode).
Proof.
  intros O. unfold extract_and_write. apply stable_try_except.
  - apply stable_bind; [apply stable_eval | intros fd].
    apply stable_bind; [apply stable_eval | intros days].
    apply stable_for_each. intros d s H. unfold bind, eval.
    destruct (build_row data mode d) as [r |] eqn:B; simpl; [| exact H].
    now apply (inv_insert_record r (O d r B)).
  - intros e k E. destruct (is_Exception e); [| discriminate].
    injection E as <-.
    apply stable_bind; [apply inv_emit | intros _].
    apply inv_exception_handling.
Qed.

Lemma inv_fetch_data (url : string) : stable inv (fetch_data env url).
Proof.
  intros s H.
  destruct (wrapper_loop_effects env url [1; 2; 3]%nat 2 s)
    as (evs & n & _ & _ & _ & _ & _ & _ & _ & _ & T & D & _); [lia |].
  cbv beta.
  change (fetch_data env url s)
    with (wrapper_loop (fetch_data_body env url) [1; 2; 3]%nat 2 s).
  rewrite T, D. exact H.
Qed.

Lemma inv_unit_step (msg : log_msg) (url mode : string) :
  (forall data d r, build_row data mode d = Ok r -> okr r) ->
  stable inv (unit_step env msg url mode).
Proof.
  intros O. unfold unit_step.
  apply stable_bind; [apply inv_emit | intros _].
  apply stable_bind; [apply inv_fetch_data | intros data].
  apply stable_if; [apply inv_extract_and_write, O | apply stable_ret].
Qed.

Lemma inv_run_forecast_etl :
  (forall data d r, build_row data "forecast" d = Ok r -> okr r) ->
  stable inv (run_forecast_etl env).
Proof.
  intros O.
  apply (stable_for_each inv string (cities env)
           (fun city => unit_step env (MsgFetchingForecast city)
                          (build_forecast_url env city) "forecast")).
  intros c. now apply inv_unit_step.
Qed.

Lemma inv_run_history_etl :
  (forall data d r, build_row data "history" d = Ok r -> okr r) ->
  stable inv (run_history_etl env).
Proof.
  intros O. unfold run_history_etl.
  apply stable_bind; [intros s H; exact H | intros today].
  apply stable_for_each. intros i.
  apply (stable_for_each inv string (cities env)
           (fun city =>
              unit_step env
                (MsgFetchingHistory city (strftime_Ymd (today - i)))
                (build_history_url env city (strftime_Ymd (today - i)))
                "history")).
  intros c. now apply inv_unit_step.
Qed.

Lemma inv_close_connection : stable inv close_connection.
Proof. intros s H. simpl. now apply (J_close (table s)). Qed.

Lemma inv_start :
  (forall data d r, build_row data "forecast" d = Ok r -> okr r) ->
  (forall data d r, build_row data "history" d = Ok r -> okr r) ->
  stable inv (start env).
Proof.
  intros Of Oh. unfold start.
  apply stable_try_finally; [| apply inv_close_connection].
  apply stable_bind; [now apply inv_run_forecast_etl | intros _].
  now apply inv_run_history_etl.
Qed.

End StoreInvariant.

Lemma insert_on_duplicate_identity (p : db_row) (t : list db_row) :
  exists rest,
    map identity (fst (insert_on_duplicate p t)) = map identity t ++ rest.
Proof.
  unfold insert_on_duplicate.
  destruct (on_duplicate_key_update p t) as [[t' n] |] eqn:E; simpl.
  - exists []. rewrite app_nil_r.
    eapply on_duplicate_key_update_identity; eauto.
  - exists [identity p]. now rewrite map_app.
Qed.

(** X11.  The pipeline only creates and merges.  Whatever the network and
    the store do during a run, every row that was committed before the
    run is committed after it, at the same place in the table and with
    the same date, location, type and country. *)
Theorem start_keeps_committed_rows (env : Env) (s : State) :
  (exists pending,
      map identity (table s) = map identity (durable s) ++ pending) ->
  exists added,
    map identity (durable (snd (start env s)))
    = map identity (durable s) ++ added.
Proof.
  intros P.
  pose (J := fun t d : list db_row =>
               (exists rest, map identity d = map identity (durable s) ++ rest) /\
               (exists rest, map identity t = map identity d ++ rest)).
  assert (St : stable (fun s' => J (table s') (durable s')) (start env)).
  { apply (inv_start J (fun _ => True)).
    - intros r p t d _ _ [A [rest B]]. split; [exact A |].
      destruct (insert_on_duplicate_identity p t) as [rest' E].
      exists (rest ++ rest'). rewrite E, B. now rewrite app_assoc.
    - intros t d [[r1 A] [r2 B]]. split.
      + exists (r1 ++ r2). rewrite B, A. now rewrite app_assoc.
      + exists []. now rewrite app_nil_r.
    - intros t d [A _]. split; [exact A |]. exists []. now rewrite app_nil_r.
    - auto.
    - auto. }
  destruct (St s) as [A _]; [| exact A].
  split; [exists []; now rewrite app_nil_r | exact P].
Qed.

Lemma start_keeps_committed_rows_witness :
  exists added,
    map identity (durable (snd (start env_second_times_out
                                  (initial_state 0 [paris_stored]))))
    = map identity (durable (initial_state 0 [paris_stored])) ++ added.
Proof.
  apply (start_keeps_committed_rows env_second_times_out
           (initial_state 0 [paris_stored])).
  exists []. reflexivity.
Defined.

Lemma insert_on_duplicate_Forall (P : db_row -> Prop) (p : db_row)
      (t : list db_row) :
  Forall P t -> P p -> (forall q, P q -> P (update_row q p)) ->
  Forall P (fst (insert_on_duplicate p t)).
Proof.
  intros F Pp U. unfold insert_on_duplicate.
  destruct (on_duplicate_key_update p t) as [[t' n] |] eqn:E; simpl.
  - revert t' n E. induction F as [| r t Pr F IH]; intros t' n E;
      simpl in E; [discriminate |].
    destruct (duplicate_key p r).
    + injection E as <- _. constructor; auto.
    + destruct (on_duplicate_key_update p t) as [[t0 n0] |]; [| discriminate].
      injection E as <- _. constructor; eauto.
  - apply Forall_app. split; [exact F | constructor; auto].
Qed.

Lemma bind_params_type (r : row) (p : db_row) :
  bind_params r = Some p -> type p = SStr (Type_ r).
Proof.
  unfold bind_params. intros B.
  destruct (to_mysql (Date r)), (to_mysql (Location r)),
    (to_mysql (Country r)), (to_mysql (Min_Temp r)),
    (to_mysql (Max_Temp r)), (to_mysql (Humidity r)),
    (to_mysql (Air_Quality r)); try discriminate.
  injection B as <-. reflexivity.
Qed.

Lemma build_row_type (data : json) (mode : string) (d : json) (r : row) :
  build_row data mode d = Ok r -> Type_ r = upper mode.
Proof.
  intros H. destruct (build_row_fields data mode d r H)
    as (? & ? & ? & ? & _ & _ & _ & _ & _ & _ & _ & _ & _ & _ & _ & T).
  exact T.
Qed.

(** X12.  A run never stores a type outside the enumeration of the
    column: if every row has type FORECAST or HISTORY before the run,
    committed or pending, every row has after it, whatever the payloads
    are. *)
Theorem start_keeps_types_in_enum (env : Env) (s : State) :
  Forall in_enum (table s) -> Forall in_enum (durable s) ->
  Forall in_enum (table (snd (start env s))) /\
  Forall in_enum (durable (snd (start env s))).
Proof.
  intros Ht Hd.
  apply (inv_start (fun t d => Forall in_enum t /\ Forall in_enum d)
           (fun r => Type_ r = "FORECAST" \/ Type_ r = "HISTORY")).
  - intros r p t d O B [A1 A2]. split; [| exact A2].
    apply insert_on_duplicate_Forall; [exact A1 | | intros q Q; exact Q].
    unfold in_enum. rewrite (bind_params_type r p B).
    destruct O as [-> | ->]; auto.
  - intros t d [A _]. auto.
  - intros t d [_ A]. auto.
  - intros data d r B. left. apply (build_row_type data "forecast" d r B).
  - intros data d r B. right. apply (build_row_type data "history" d r B).
  - auto.
Qed.

Lemma start_keeps_types_in_enum_witness :
  Forall in_enum (table (snd (start env_second_times_out
                                (initial_state 0 [paris_stored])))) /\
  Forall in_enum (durable (snd (start env_second_times_out
                                  (initial_state 0 [paris_stored])))).
Proof.
  apply (start_keeps_types_in_enum env_second_times_out
           (initial_state 0 [paris_stored])).
  - repeat constructor.
  - repeat constructor.
Defined.

Lemma insert_on_duplicate_other_type (ty : string) (p : db_row)
      (t : list db_row) :
  type p = SStr ty ->
  filter (other_type ty) (fst (insert_on_duplicate p t))
  = filter (other_type ty) t.
Proof.
  intros T.
  assert (Op : other_type ty p = false)
    by (unfold other_type; rewrite T, sqlval_eqb_refl; reflexivity).
  unfold insert_on_duplicate.
  destruct (on_duplicate_key_update p t) as [[t' n] |] eqn:E; simpl.
  - revert t' n E. induction t as [| r t IH]; intros t' n E; simpl in E;
      [discriminate |].
    destruct (duplicate_key p r) eqn:D.
    + injection E as <- _. simpl.
      apply duplicate_key_true in D as [K _].
      assert (Or : other_type ty r = false).
      { unfold other_type, key in *. injection K as _ _ <-. exact Op. }
      assert (Ou : other_type ty (update_row r p) = false) by exact Or.
      now rewrite Or, Ou.
    + destruct (on_duplicate_key_update p t) as [[t0 n0] |]; [| discriminate].
      injection E as <- _. simpl. rewrite (IH t0 n0 eq_refl). reflexivity.
  - rewrite filter_app. simpl. rewrite Op. apply app_nil_r.
Qed.

(** X13.  Forecast and history records live apart.  Whatever the network
    and the store do, the forecast pass leaves every row that is not a
    FORECAST row exactly as it was, and the history pass every row that
    is not a HISTORY row. *)
Theorem passes_keep_the_other_type (env : Env) (s : State) :
  durable s = table s ->
  filter (other_type "FORECAST") (durable (snd (run_forecast_etl env s)))
  = filter (other_type "FORECAST") (durable s) /\
  filter (other_type "HISTORY") (durable (snd (run_history_etl env s)))
  = filter (other_type "HISTORY") (durable s).
Proof.
  intros D.
  assert (G : forall ty mode (m : M unit),
             upper mode = ty ->
             ((forall data d r, build_row data mode d = Ok r -> Type_ r = ty) ->
              stable (fun s' =>
                        filter (other_type ty) (table s')
                        = filter (other_type ty) (durable s) /\
                        filter (other_type ty) (durable s')
                        = filter (other_type ty) (durable s)) m) ->
             filter (other_type ty) (durable (snd (m s)))
             = filter (other_type ty) (durable s)).
  { intros ty mode m U St.
    destruct (St (fun data d r B => eq_trans (build_row_type data mode d r B) U) s)
      as [_ A]; [| exact A].
    rewrite D. auto. }
  split.
  - apply (G "FORECAST" "forecast"); [reflexivity |]. intros O.
    apply (inv_run_forecast_etl
             (fun t d =>
                filter (other_type "FORECAST") t
                = filter (other_type "FORECAST") (durable s) /\
                filter (other_type "FORECAST") d
                = filter (other_type "FORECAST") (durable s))
             (fun r => Type_ r = "FORECAST")); auto.
    + intros r p t d Or B [A1 A2]. split; [| exact A2].
      rewrite insert_on_duplicate_other_type; [exact A1 |].
      rewrite (bind_params_type r p B), Or. reflexivity.
    + intros t d [A _]. auto.
  - apply (G "HISTORY" "history"); [reflexivity |]. intros O.
    apply (inv_run_history_etl
             (fun t d =>
                filter (other_type "HISTORY") t
                = filter (other_type "HISTORY") (durable s) /\
                filter (other_type "HISTORY") d
                = filter (other_type "HISTORY") (durable s))
             (fun r => Type_ r = "HISTORY")); auto.
    + intros r p t d Or B [A1 A2]. split; [| exact A2].
      rewrite insert_on_duplicate_other_type; [exact A1 |].
      rewrite (bind_params_type r p B), Or. reflexivity.
    + intros t d [A _]. auto.
Qed.

Lemma passes_keep_the_other_type_witness :
  filter (other_type "FORECAST")
    (durable (snd (run_forecast_etl env_second_times_out
                     (initial_state 0 [paris_stored]))))
  = filter (other_type "FORECAST") (durable (initial_state 0 [paris_stored])) /\
  filter (other_type "HISTORY")
    (durable (snd (run_history_etl env_second_times_out
                     (initial_state 0 [paris_stored]))))
  = filter (other_type "HISTORY") (durable (initial_state 0 [paris_stored])).
Proof.
  apply (passes_keep_the_other_type env_second_times_out
           (initial_state 0 [paris_stored])).
  reflexivity.
Defined.

(* ================================================================== *)
(** ** The URLs *)

Lemma hex_digit_safe (c : ascii) :
  always_safe (hex_digit (Nat.div (nat_of_ascii c) 16)) = true /\
  always_safe (hex_digit (Nat.modulo (nat_of_ascii c) 16)) = true.
Proof.
  destruct c as [[] [] [] [] [] [] [] []]; split; vm_compute; reflexivity.
Qed.

Lemma quote_plus_url_chars (s : string) (c : ascii) :
  mentions c (quote_plus s) = true -> url_char c = true.
Proof.
  induction s as [| a s IH]; [simpl; discriminate |].
  cbn [quote_plus].
  destruct (always_safe a) eqn:Sa.
  - cbn [mentions]. rewrite orb_true_iff. intros [E | M]; [| auto].
    apply Ascii.eqb_eq in E. subst. unfold url_char. now rewrite Sa.
  - destruct (Nat.eqb (nat_of_ascii a) 32).
    + cbn [mentions]. rewrite orb_true_iff. intros [E | M]; [| auto].
      apply Ascii.eqb_eq in E. subst. reflexivity.
    + destruct (hex_digit_safe a) as [H1 H2].
      cbn [mentions]. rewrite !orb_true_iff.
      intros [E | [E | [E | M]]]; try (apply Ascii.eqb_eq in E; rewrite E);
        auto; unfold url_char; rewrite ?H1, ?H2; reflexivity.
Qed.

(** X14.  A location is escaped before it enters a URL: the escaped text
    holds only letters, digits, [_ . - ~], [+] and [%]; in particular
    none of the characters that would end or split a query parameter. *)
Theorem quote_plus_is_escaped (s : string) (c : ascii) :
  mentions c (quote_plus s) = true ->
  url_char c = true /\
  c <> "&"%char /\ c <> "="%char /\ c <> "?"%char /\ c <> "#"%char /\
  c <> " "%char /\ c <> "/"%char.
Proof.
  intros M. apply quote_plus_url_chars in M. split; [exact M |].
  repeat split; intros ->; discriminate.
Qed.

Lemma quote_plus_is_escaped_witness :
  url_char "%"%char = true /\
  "%"%char <> "&"%char /\ "%"%char <> "="%char /\ "%"%char <> "?"%char /\
  "%"%char <> "#"%char /\ "%"%char <> " "%char /\ "%"%char <> "/"%char.
Proof.
  apply (quote_plus_is_escaped "Saint-Denis & Co" "%"%char).
  reflexivity.
Defined.

Lemma quote_plus_char (a : ascii) :
  (always_safe a = true /\ Ascii.eqb a "%" = false /\
   Ascii.eqb a "+" = false) \/
  (always_safe a = false /\ Nat.eqb (nat_of_ascii a) 32 = true /\
   a = " "%char) \/
  (always_safe a = false /\ Nat.eqb (nat_of_ascii a) 32 = false /\
   ascii_of_nat
     (16 * hex_value (hex_digit (Nat.div (nat_of_ascii a) 16)) +
      hex_value (hex_digit (Nat.modulo (nat_of_ascii a) 16))) = a).
Proof.
  destruct a as [[] [] [] [] [] [] [] []];
    first [ left; repeat split; vm_compute; reflexivity
          | right; left; repeat split; vm_compute; reflexivity
          | right; right; repeat split; vm_compute; reflexivity ].
Qed.

Lemma unquote_plus_percent (h l : ascii) (t : string) :
  unquote_plus (String "%" (String h (String l t))) =
  String (ascii_of_nat (16 * hex_value h + hex_value l)) (unquote_plus t).
Proof. reflexivity. Qed.

Lemma unquote_plus_plus (t : string) :
  unquote_plus (String "+" t) = String " " (unquote_plus t).
Proof. reflexivity. Qed.

(** What [quote_plus] encodes, [unquote_plus] decodes. *)
Lemma unquote_plus_quote_plus (s : string) : unquote_plus (quote_plus s) = s.
Proof.
  induction s as [| a s IH]; [reflexivity |].
  cbn [quote_plus].
  destruct (quote_plus_char a) as [(Sa & P & Q) | [(Sa & E & A) | (Sa & E & D)]].
  - rewrite Sa. cbn [unquote_plus]. rewrite P, Q, IH. reflexivity.
  - rewrite Sa, E, unquote_plus_plus, IH, A. reflexivity.
  - rewrite Sa, E, unquote_plus_percent, D, IH. reflexivity.
Qed.

Lemma quote_plus_injective (a b : string) :
  quote_plus a = quote_plus b -> a = b.
Proof.
  intros H. rewrite <- (unquote_plus_quote_plus a), H.
  apply unquote_plus_quote_plus.
Qed.

Lemma append_inv_head (a x y : string) :
  (a ++ x)%string = (a ++ y)%string -> x = y.
Proof.
  induction a as [| c a IH]; simpl; [auto |].
  intros H. injection H as H. auto.
Qed.

(** Two texts without [&] that are followed by [&] end at the same
    place. *)
Lemma append_amp_inv (x y z1 z2 : string) :
  mentions "&"%char x = false -> mentions "&"%char y = false ->
  (x ++ String "&"%char z1)%string = (y ++ String "&"%char z2)%string ->
  x = y /\ z1 = z2.
Proof.
  revert y. induction x as [| c x IH]; intros [| c' y] Mx My H; simpl in *.
  - injection H as ->. auto.
  - injection H as <- _. discriminate.
  - injection H as -> _. discriminate.
  - injection H as -> H. apply orb_false_iff in Mx as [_ Mx].
    apply orb_false_iff in My as [_ My].
    destruct (IH y Mx My H) as [-> ->]. auto.
Qed.

Lemma quote_plus_no_amp (s : string) : mentions "&"%char (quote_plus s) = false.
Proof.
  destruct (mentions "&"%char (quote_plus s)) eqn:M; [| reflexivity].
  apply quote_plus_url_chars in M. discriminate.
Qed.

(** X15.  Two locations get the same forecast URL only if they are the
    same location: escaping never merges two names. *)
Theorem build_forecast_url_injective (env : Env) (c1 c2 : string) :
  build_forecast_url env c1 = build_forecast_url env c2 -> c1 = c2.
Proof.
  unfold build_forecast_url. intros H.
  do 4 apply append_inv_head in H. simpl urlencode in H.
  injection H as H.
  apply append_amp_inv in H as [H _]; try apply quote_plus_no_amp.
  now apply quote_plus_injective.
Qed.

Lemma build_forecast_url_injective_witness : "New York" = "New York".
Proof.
  apply (build_forecast_url_injective env_timeout "New York" "New York").
  reflexivity.
Defined.

(** X16.  Two history units get the same history URL only if they have
    the same location and the same date. *)
Theorem build_history_url_injective (env : Env) (c1 c2 d1 d2 : string) :
  build_history_url env c1 d1 = build_history_url env c2 d2 ->
  c1 = c2 /\ d1 = d2.
Proof.
  unfold build_history_url. intros H.
  do 4 apply append_inv_head in H. simpl urlencode in H.
  injection H as H.
  apply append_amp_inv in H as [H1 H2]; try apply quote_plus_no_amp.
  injection H2 as H2.
  split; now apply quote_plus_injective.
Qed.

Lemma build_history_url_injective_witness :
  "Rio & Co" = "Rio & Co" /\ "2024-05-09" = "2024-05-09".
Proof.
  apply (build_history_url_injective env_timeout
           "Rio & Co" "Rio & Co" "2024-05-09" "2024-05-09").
  reflexivity.
Defined.

(* ================================================================== *)
(** ** The forecast pass *)

Lemma flat_map_nil (A B : Type) (xs : list A) :
  flat_map (fun _ : A => @nil B) xs = [].
Proof. induction xs; simpl; auto. Qed.

(** X17.  The forecast pass requests forecast URLs of configured
    locations only, announces no history unit, and when it runs to its
    end it has requested the forecast of every configured location. *)
Theorem run_forecast_etl_requests (env : Env) (s : State) :
  exists evs,
    trace (snd (run_forecast_etl env s)) = trace s ++ evs /\
    history_units evs = [] /\
    (forall u,
        In u (requested evs) ->
        exists c, In c (cities env) /\ u = build_forecast_url env c) /\
    (fst (run_forecast_etl env s) = Ok tt ->
     forall c, In c (cities env) ->
       In (build_forecast_url env c) (requested evs)).
Proof.
  assert (An : announces (run_forecast_etl env)
                 (flat_map (fun _ : string => []) (cities env))
                 (flat_map (fun c => [build_forecast_url env c])
                    (cities env))).
  { apply (announces_for_each string (cities env)
             (fun city => unit_step env (MsgFetchingForecast city)
                            (build_forecast_url env city) "forecast")
             (fun _ => [])
             (fun c => [build_forecast_url env c])).
    intros c. apply (unit_step_announces env (build_forecast_url env c)
                       "forecast" (MsgFetchingForecast c)). }
  rewrite flat_map_nil, flat_map_singleton in An.
  destruct (An s) as (evs & T & [rest P] & R & O).
  exists evs. split; [exact T |].
  split; [symmetry in P; now apply app_eq_nil in P |].
  split.
  - intros u I. apply R, in_map_iff in I as (c & <- & Hc). eauto.
  - intros Ok_ c Hc. destruct (O tt Ok_) as [_ A]. apply A, in_map_iff. eauto.
Qed.

(** Two locations, every request times out: six requests, three to each
    forecast URL. *)
Lemma run_forecast_etl_requests_witness :
  exists evs,
    trace (snd (run_forecast_etl env_two_cities_timeout
                  (initial_state late_on_2024_05_10 [])))
    = trace (initial_state late_on_2024_05_10 []) ++ evs /\
    history_units evs = [] /\
    (forall u,
        In u (requested evs) ->
        exists c, In c (cities env_two_cities_timeout) /\
                  u = build_forecast_url env_two_cities_timeout c) /\
    (fst (run_forecast_etl env_two_cities_timeout
            (initial_state late_on_2024_05_10 [])) = Ok tt ->
     forall c, In c (cities env_two_cities_timeout) ->
       In (build_forecast_url env_two_cities_timeout c) (requested evs)).
Proof.
  apply (run_forecast_etl_requests env_two_cities_timeout
           (initial_state late_on_2024_05_10 [])).
Defined.

(* ================================================================== *)
(** ** The configured locations *)

Lemma split_comma_not_nil (v : str) : split_comma v <> [].
Proof.
  destruct v as [| c v]; simpl; [discriminate |].
  destruct (N.eqb c COMMA); [discriminate |].
  destruct (split_comma v); discriminate.
Qed.

Lemma split_comma_app (a b : str) :
  split_comma (a ++ COMMA :: b) = split_comma a ++ split_comma b.
Proof.
  induction a as [| c a IH]; [reflexivity |].
  simpl. destruct (N.eqb c COMMA); [now rewrite IH |].
  rewrite IH. destruct (split_comma a) eqn:E; [| reflexivity].
  now apply split_comma_not_nil in E.
Qed.

Lemma split_comma_one (n : str) :
  existsb (N.eqb COMMA) n = false -> split_comma n = [n].
Proof.
  induction n as [| c n IH]; [reflexivity |].
  cbn [existsb split_comma]. intros H. apply orb_false_iff in H as [H1 H2].
  rewrite N.eqb_sym, H1, (IH H2). reflexivity.
Qed.

Lemma split_comma_length (v : str) :
  List.length (split_comma v) = S (count_occ N.eq_dec v COMMA).
Proof.
  induction v as [| c v IH]; [reflexivity |].
  simpl. destruct (N.eqb_spec c COMMA) as [-> | Ne].
  - destruct (N.eq_dec COMMA COMMA); [| congruence]. simpl. now rewrite IH.
  - destruct (N.eq_dec c COMMA); [congruence |].
    rewrite <- IH. destruct (split_comma v) eqn:E; [| reflexivity].
    now apply split_comma_not_nil in E.
Qed.

Lemma split_comma_no_comma (v : str) :
  Forall (fun p => existsb (N.eqb COMMA) p = false) (split_comma v).
Proof.
  induction v as [| c v IH]; cbn [split_comma].
  - constructor; [reflexivity | constructor].
  - destruct (N.eqb_spec c COMMA) as [-> | Ne].
    + constructor; [reflexivity | exact IH].
    + assert (E : N.eqb COMMA c = false) by (apply N.eqb_neq; congruence).
      destruct (split_comma v) as [| p ps].
      * constructor; [| constructor]. cbn [existsb]. now rewrite E.
      * inversion IH as [| ? ? Hp Hps]; subst.
        constructor; [| exact Hps]. cbn [existsb]. now rewrite E, Hp.
Qed.

(** [lstrip] drops a prefix of whitespace and stops at the first other
    character. *)
Lemma lstrip_spec (s : str) :
  exists ws, s = ws ++ lstrip s /\ forallb isspace ws = true /\
             match lstrip s with c :: _ => isspace c = false | [] => True end.
Proof.
  induction s as [| c s (ws & E & W & H)]; simpl.
  - exists []. auto.
  - destruct (isspace c) eqn:Sc.
    + exists (c :: ws). simpl. rewrite Sc, W. split; [now f_equal | auto].
    + exists []. auto.
Qed.

Lemma lstrip_fixed (s : str) :
  match s with c :: _ => isspace c = false | [] => True end -> lstrip s = s.
Proof. destruct s as [| c s]; simpl; [auto |]. now intros ->. Qed.

Lemma rstrip_spec (s : str) :
  exists ws, s = rstrip s ++ ws /\ forallb isspace ws = true /\
             match rev (rstrip s) with
             | c :: _ => isspace c = false
             | [] => True
             end.
Proof.
  unfold rstrip. destruct (lstrip_spec (rev s)) as (ws & E & W & H).
  exists (rev ws). rewrite rev_involutive. split; [| split; [| exact H]].
  - rewrite <- rev_app_distr, <- E. symmetry. apply rev_involutive.
  - rewrite forallb_forall in *. intros x I. apply W. now apply in_rev.
Qed.

Lemma strip_fixed (n : str) :
  match n with c :: _ => isspace c = false | [] => True end ->
  match rev n with c :: _ => isspace c = false | [] => True end ->
  strip n = n.
Proof.
  intros H1 H2. unfold strip. rewrite (lstrip_fixed n H1).
  unfold rstrip. rewrite (lstrip_fixed (rev n) H2). apply rev_involutive.
Qed.

Lemma clean_name_spec (n : str) :
  clean_name n = true <->
  existsb (N.eqb COMMA) n = false /\
  match n with c :: _ => isspace c = false | [] => True end /\
  match rev n with c :: _ => isspace c = false | [] => True end.
Proof.
  unfold clean_name. rewrite !andb_true_iff, negb_true_iff.
  destruct n as [| c n]; simpl.
  - intuition.
  - destruct (rev n ++ [c]) as [| c' r]; rewrite ?negb_true_iff; intuition.
Qed.

Lemma existsb_app_false (A : Type) (f : A -> bool) (a b : list A) :
  existsb f (a ++ b) = false -> existsb f a = false /\ existsb f b = false.
Proof. rewrite existsb_app. apply orb_false_iff. Qed.

Lemma strip_clean (p : str) :
  existsb (N.eqb COMMA) p = false -> clean_name (strip p) = true.
Proof.
  intros NC. apply clean_name_spec. unfold strip.
  destruct (lstrip_spec p) as (ws & E & W & H).
  destruct (rstrip_spec (lstrip p)) as (ws' & E' & W' & H').
  split; [| split; [| exact H']].
  - rewrite E, E' in NC.
    apply existsb_app_false in NC as [_ NC].
    now apply existsb_app_false in NC as [NC _].
  - destruct (rstrip (lstrip p)) as [| c r]; [exact I |].
    rewrite E' in H. exact H.
Qed.

(** X18.  The configured locations are the pieces of the configuration
    value between its commas, one more than it has commas (so at least
    one, possibly an empty name), each without a comma and without
    whitespace at either end. *)
Theorem parse_cities_clean (value : str) :
  List.length (parse_cities value) = S (count_occ N.eq_dec value COMMA) /\
  Forall (fun city => clean_name city = true) (parse_cities value).
Proof.
  unfold parse_cities. split.
  - rewrite length_map. apply split_comma_length.
  - apply Forall_map.
    apply (Forall_impl _ (fun p H => strip_clean p H)).
    apply split_comma_no_comma.
Qed.

Lemma lstrip_space (n : str) : lstrip (32%N :: n) = lstrip n.
Proof. reflexivity. Qed.

Lemma strip_after_space (n : str) :
  clean_name n = true -> strip (32%N :: n) = n.
Proof.
  intros C. apply clean_name_spec in C as (_ & H1 & H2).
  unfold strip. rewrite lstrip_space. now apply strip_fixed.
Qed.

Lemma split_comma_cons_space (v : str) :
  split_comma (32%N :: v) =
  match split_comma v with
  | piece :: pieces => (32%N :: piece) :: pieces
  | [] => [[32%N]]
  end.
Proof. reflexivity. Qed.

Lemma parse_cities_join_rest (n : str) (rest : list str) :
  Forall (fun c => clean_name c = true) (n :: rest) ->
  map strip (split_comma (32%N :: join [COMMA; 32%N] (n :: rest)))
  = n :: rest.
Proof.
  revert n. induction rest as [| n' rest IH]; intros n F.
  - inversion F as [| ? ? Cn _]; subst.
    change (join [COMMA; 32%N] [n]) with n.
    pose proof Cn as Cn'. apply clean_name_spec in Cn' as (NC & _).
    assert (NC' : existsb (N.eqb COMMA) (32%N :: n) = false) by exact NC.
    rewrite (split_comma_one _ NC'). simpl. now rewrite strip_after_space.
  - inversion F as [| ? ? Cn F']; subst.
    change (join [COMMA; 32%N] (n :: n' :: rest))
      with (n ++ COMMA :: 32%N :: join [COMMA; 32%N] (n' :: rest)).
    change (32%N :: n ++ COMMA :: 32%N :: join [COMMA; 32%N] (n' :: rest))
      with ((32%N :: n) ++ COMMA :: 32%N :: join [COMMA; 32%N] (n' :: rest)).
    rewrite split_comma_app, map_app, (IH n' F').
    pose proof Cn as Cn'. apply clean_name_spec in Cn' as (NC & _).
    assert (NC' : existsb (N.eqb COMMA) (32%N :: n) = false) by exact NC.
    rewrite (split_comma_one _ NC'). simpl. now rewrite strip_after_space.
Qed.

(** X19.  Names written in the configuration value separated by a comma
    and a space are read back as they were written, provided no name
    holds a comma or starts or ends with whitespace. *)
Theorem parse_cities_join (names : list str) :
  names <> [] ->
  Forall (fun c => clean_name c = true) names ->
  parse_cities (join [COMMA; 32%N] names) = names.
Proof.
  intros NE F. destruct names as [| n rest]; [congruence |]. clear NE.
  unfold parse_cities. destruct rest as [| n' rest].
  - inversion F as [| ? ? Cn _]; subst.
    apply clean_name_spec in Cn as (NC & H1 & H2).
    simpl join. rewrite (split_comma_one n NC). simpl.
    now rewrite strip_fixed.
  - inversion F as [| ? ? Cn F']; subst.
    change (join [COMMA; 32%N] (n :: n' :: rest))
      with (n ++ COMMA :: 32%N :: join [COMMA; 32%N] (n' :: rest)).
    rewrite split_comma_app, map_app, (parse_cities_join_rest n' rest F').
    apply clean_name_spec in Cn as (NC & H1 & H2).
    rewrite (split_comma_one n NC). simpl. now rewrite strip_fixed.
Qed.

Lemma parse_cities_join_witness :
  parse_cities
    (join [COMMA; 32%N] [codepoints "New York"; codepoints "Paris"])
  = [codepoints "New York"; codepoints "Paris"].
Proof.
  apply (parse_cities_join [codepoints "New York"; codepoints "Paris"]).
  - discriminate.
  - repeat constructor.
Defined.

(** A comma at the end of the value gives one more location, whose name
    is empty. *)
Example parse_cities_trailing_comma :
  parse_cities (codepoints "Paris, Lyon,")
  = [codepoints "Paris"; codepoints "Lyon"; []].
Proof. reflexivity. Qed.

(* ================================================================== *)
(** ** Writing a batch again *)

Lemma upsert_nil (p : db_row) : upsert p [] = [p].
Proof. reflexivity. Qed.

Lemma upsert_cons (p r : db_row) (t : list db_row) :
  upsert p (r :: t)
  = if duplicate_key p r then update_row r p :: t else r :: upsert p t.
Proof.
  unfold upsert, insert_on_duplicate. simpl.
  destruct (duplicate_key p r); [reflexivity |].
  destruct (on_duplicate_key_update p t) as [[t'' n] |]; reflexivity.
Qed.

Lemma upsert_all_cons (q : db_row) (qs t : list db_row) :
  upsert_all (q :: qs) t = upsert_all qs (upsert q t).
Proof. reflexivity. Qed.

Lemma duplicate_key_update_row (p r q : db_row) :
  duplicate_key p (update_row r q) = duplicate_key p r.
Proof. reflexivity. Qed.

Lemma duplicate_key_self (p : db_row) :
  null_free p = true -> duplicate_key p p = true.
Proof. intros N. apply duplicate_key_true. auto. Qed.

Lemma hit_upsert_self (p : db_row) (t : list db_row) :
  null_free p = true -> hit p (upsert p t) = true.
Proof.
  intros N. induction t as [| r t IH].
  - rewrite upsert_nil. unfold hit. simpl.
    now rewrite (duplicate_key_self p N).
  - rewrite upsert_cons. destruct (duplicate_key p r) eqn:D; unfold hit; simpl.
    + now rewrite duplicate_key_update_row, D.
    + rewrite D. exact IH.
Qed.

Lemma hit_upsert (p q : db_row) (t : list db_row) :
  hit p t = true -> hit p (upsert q t) = true.
Proof.
  induction t as [| r t IH]; [discriminate |].
  unfold hit. simpl. rewrite upsert_cons.
  destruct (duplicate_key q r); simpl.
  - now rewrite duplicate_key_update_row.
  - destruct (duplicate_key p r); [reflexivity | exact IH].
Qed.

Lemma hit_upsert_all (p : db_row) (qs t : list db_row) :
  hit p t = true -> hit p (upsert_all qs t) = true.
Proof.
  revert t. induction qs as [| q qs IH]; intros t H; [exact H |].
  rewrite upsert_all_cons. apply IH. now apply hit_upsert.
Qed.

(** Rows with the same key collide with the same rows; rows with
    different keys collide with no common row. *)
Lemma same_key_collides (p q : db_row) :
  null_free p = true -> null_free q = true -> key_eqb q p = true ->
  forall r, duplicate_key q r = duplicate_key p r.
Proof.
  intros _ _ K r. apply key_eqb_true in K.
  now apply duplicate_key_ext.
Qed.

Lemma other_key_collides (p q : db_row) :
  key_eqb q p = false ->
  forall r, duplicate_key p r = true -> duplicate_key q r = false.
Proof.
  intros K r D. apply duplicate_key_true in D as [Kp _].
  destruct (duplicate_key q r) eqn:E; [| reflexivity].
  apply duplicate_key_true in E as [Kq _].
  assert (T : key_eqb q p = true) by (apply key_eqb_true; congruence).
  congruence.
Qed.

(** Statements for different keys commute once the first has its row. *)
Lemma upsert_comm (p q : db_row) (t : list db_row) :
  (forall r, duplicate_key p r = true -> duplicate_key q r = false) ->
  hit p t = true ->
  upsert p (upsert q t) = upsert q (upsert p t).
Proof.
  intros X. induction t as [| r t IH]; [discriminate |].
  unfold hit. simpl. intros H. rewrite !upsert_cons.
  destruct (duplicate_key p r) eqn:Dp.
  - rewrite (X r Dp). rewrite !upsert_cons.
    now rewrite Dp, duplicate_key_update_row, (X r Dp).
  - destruct (duplicate_key q r) eqn:Dq; rewrite !upsert_cons.
    + now rewrite duplicate_key_update_row, Dp, Dq.
    + rewrite Dp, Dq. f_equal. apply IH. exact H.
Qed.

Lemma upsert_all_comm (p : db_row) (qs t : list db_row) :
  existsb (fun q => key_eqb q p) qs = false ->
  hit p t = true ->
  upsert p (upsert_all qs t) = upsert_all qs (upsert p t).
Proof.
  revert t. induction qs as [| q qs IH]; intros t E H; [reflexivity |].
  simpl in E. apply orb_false_iff in E as [K E].
  rewrite !upsert_all_cons, (IH _ E (hit_upsert p q t H)).
  f_equal. apply upsert_comm; [now apply other_key_collides | exact H].
Qed.

Lemma differ_at_first_upsert (p : db_row) (v : list db_row) :
  hit p v = true -> differ_at_first p v (upsert p v).
Proof.
  induction v as [| r v IH]; [discriminate |].
  unfold hit. simpl. rewrite upsert_cons.
  destruct (duplicate_key p r) eqn:D; intros H.
  - now apply daf_here.
  - apply daf_skip; auto.
Qed.

Lemma update_row_identity (r r' q : db_row) :
  identity r = identity r' -> update_row r q = update_row r' q.
Proof.
  unfold identity, key, update_row. intros E.
  injection E as E1 E2 E3 E4. now rewrite E1, E2, E3, E4.
Qed.

Lemma identity_key (r r' : db_row) : identity r = identity r' -> key r = key r'.
Proof. unfold identity. congruence. Qed.

Lemma differ_at_first_same_key (p q : db_row) (a b : list db_row) :
  (forall r, duplicate_key q r = duplicate_key p r) ->
  differ_at_first p a b -> upsert q a = upsert q b.
Proof.
  intros X D. induction D as [t | r r' t Dr I | r t t' Dr D IH].
  - reflexivity.
  - rewrite !upsert_cons.
    assert (Dr' : duplicate_key q r' = true).
    { rewrite <- Dr, <- X. symmetry.
      apply duplicate_key_ext; [reflexivity | now apply identity_key]. }
    rewrite X, Dr, Dr'. f_equal. now apply update_row_identity.
  - rewrite !upsert_cons, X, Dr. now f_equal.
Qed.

Lemma differ_at_first_other_key (p q : db_row) (a b : list db_row) :
  (forall r, duplicate_key p r = true -> duplicate_key q r = false) ->
  differ_at_first p a b -> differ_at_first p (upsert q a) (upsert q b).
Proof.
  intros X D. induction D as [t | r r' t Dr I | r t t' Dr D IH].
  - apply daf_same.
  - rewrite !upsert_cons.
    assert (Dr' : duplicate_key p r' = true).
    { rewrite <- Dr. symmetry.
      apply duplicate_key_ext; [reflexivity | now apply identity_key]. }
    rewrite (X r Dr), (X r' Dr'). now apply daf_here.
  - rewrite !upsert_cons. destruct (duplicate_key q r).
    + apply daf_skip; [now rewrite duplicate_key_update_row | exact D].
    + now apply daf_skip.
Qed.

Lemma differ_at_first_upsert_all (p : db_row) (qs a b : list db_row) :
  null_free p = true ->
  Forall (fun q => null_free q = true) qs ->
  differ_at_first p a b ->
  differ_at_first p (upsert_all qs a) (upsert_all qs b) /\
  (existsb (fun q => key_eqb q p) qs = true ->
   upsert_all qs a = upsert_all qs b).
Proof.
  intros N F. revert a b.
  induction F as [| q qs Nq F IH]; intros a b D; [split; [exact D | discriminate] |].
  rewrite !upsert_all_cons. simpl.
  destruct (key_eqb q p) eqn:K.
  - rewrite (differ_at_first_same_key p q a b
               (same_key_collides p q N Nq K) D).
    split; [apply daf_same | reflexivity].
  - apply IH. apply differ_at_first_other_key; [| exact D].
    now apply other_key_collides.
Qed.

(** A statement that changes nothing can be dropped in front of a batch
    that is then written again. *)
Lemma upsert_all_absorbs (p : db_row) (qs t : list db_row) :
  null_free p = true ->
  Forall (fun q => null_free q = true) qs ->
  upsert p t = t ->
  upsert_all qs (upsert p (upsert_all qs t)) = upsert_all qs (upsert_all qs t).
Proof.
  intros N F E.
  assert (H : hit p t = true) by (rewrite <- E; now apply hit_upsert_self).
  destruct (existsb (fun q => key_eqb q p) qs) eqn:X.
  - symmetry.
    apply (differ_at_first_upsert_all p qs _ _ N F); [| exact X].
    apply differ_at_first_upsert. now apply hit_upsert_all.
  - rewrite (upsert_all_comm p qs t X H), E. reflexivity.
Qed.

Lemma upsert_all_idempotent (ps : list db_row) :
  Forall (fun p => null_free p = true) ps ->
  forall t, upsert_all ps (upsert_all ps t) = upsert_all ps t.
Proof.
  induction 1 as [| p qs N F IH]; intros t; [reflexivity |].
  rewrite !upsert_all_cons.
  assert (E : upsert p (upsert p t) = upsert p t).
  { unfold upsert. now rewrite (insert_on_duplicate_again p t N). }
  rewrite (upsert_all_absorbs p qs (upsert p t) N F E). apply IH.
Qed.

Lemma extract_and_write_writes (env : Env) (data : json) (mode : string)
      (ps : list db_row) (s : State) :
  store_available env ->
  well_formed data mode ps ->
  durable s = table s ->
  exists s',
    extract_and_write env data mode s = (Ok tt, s') /\
    table s' = upsert_all ps (table s) /\
    durable s' = table s'.
Proof.
  intros A (fd & days & rs & F & I & G & P) D.
  exists (after_writes (combine rs ps) s). split; [| split].
  - apply extract_and_write_returns. unfold bind at 1 2, eval.
    rewrite F, I. rewrite <- (app_nil_r days).
    rewrite (for_each_days_written env data mode days rs ps A G P).
    reflexivity.
  - rewrite after_writes_table. now rewrite (map_snd_combine rs ps P).
  - now apply after_writes_durable.
Qed.

(** X20.  Writing a whole payload a second time changes nothing: when
    the store carries out every write and no record has a null date or
    location, the table is after the second pass over the payload what
    it was after the first, also when the payload names a day twice. *)
Theorem extract_and_write_twice (env : Env) (data : json) (mode : string)
      (ps : list db_row) (s : State) :
  store_available env ->
  well_formed data mode ps ->
  Forall (fun p => null_free p = true) ps ->
  durable s = table s ->
  exists s1 s2,
    extract_and_write env data mode s = (Ok tt, s1) /\
    extract_and_write env data mode s1 = (Ok tt, s2) /\
    table s2 = table s1 /\
    durable s2 = durable s1.
Proof.
  intros A W N D.
  destruct (extract_and_write_writes env data mode ps s A W D)
    as (s1 & R1 & T1 & D1).
  destruct (extract_and_write_writes env data mode ps s1 A W D1)
    as (s2 & R2 & T2 & D2).
  exists s1, s2. split; [exact R1 |]. split; [exact R2 |].
  assert (E : table s2 = table s1).
  { rewrite T2, T1. now apply upsert_all_idempotent. }
  split; [exact E | congruence].
Qed.

Lemma extract_and_write_twice_witness :
  exists s1 s2,
    extract_and_write env_timeout same_day_twice_payload "forecast"
      (initial_state 0 []) = (Ok tt, s1) /\
    extract_and_write env_timeout same_day_twice_payload "forecast" s1
    = (Ok tt, s2) /\
    table s2 = table s1 /\
    durable s2 = durable s1.
Proof.
  apply (extract_and_write_twice env_timeout same_day_twice_payload "forecast"
           [day_params "Paris" "2024-05-01" 11 20 "FORECAST";
            day_params "Paris" "2024-05-01" 12 21 "FORECAST"]
           (initial_state 0 [])).
  - split; reflexivity.
  - exists (JArr [day_block "2024-05-01" 11 20; day_block "2024-05-01" 12 21]),
           [day_block "2024-05-01" 11 20; day_block "2024-05-01" 12 21],
           [day_row "Paris" "2024-05-01" 11 20 "FORECAST";
            day_row "Paris" "2024-05-01" 12 21 "FORECAST"].
    repeat split; repeat constructor.
  - repeat constructor.
  - reflexivity.
Defined.

(** The second pass is not idle: it sets the day back to its first
    entry before it writes the second again. *)
Example same_day_twice_rewrites :
  table (snd (extract_and_write env_timeout same_day_twice_payload "forecast"
                (initial_state 0 [])))
  = [day_params "Paris" "2024-05-01" 12 21 "FORECAST"] /\
  upsert (day_params "Paris" "2024-05-01" 11 20 "FORECAST")
    [day_params "Paris" "2024-05-01" 12 21 "FORECAST"]
  = [day_params "Paris" "2024-05-01" 11 20 "FORECAST"].
Proof. split; reflexivity. Qed.
